(** * A* on a grid: a shallow embedding of [AStar.py] and its properties

    The Python program keeps mutable [Node] objects that are shared between
    the grid, the open list and the closed set.  The embedding therefore has
    an explicit object store ([heap], a list indexed by object reference) and
    containers that hold references, so that aliasing, identity comparison
    and hashing of mutable objects behave as they do in the source. *)

From stdpp Require Import base tactics option list numbers strings sets.
From Stdlib Require Import ZArith Lia.

Local Open Scope Z_scope.

(** ** Python values the program relies on *)

(** Object references: the position of the object in allocation order. *)
Abbreviation ref := nat (only parsing).

(** The builtin [hash] on ints, on [None] and on tuples (given the hashes of
    the components) belongs to the interpreter, not to the program: the
    development is parametric in it.  So does the recursion limit: hashing a
    [Node] hashes its parent, one nested call of [__hash__] per ancestor, and
    the interpreter raises [RecursionError] when the nesting goes beyond the
    room its limit leaves above the frames already on the stack.  The room
    is given for the two places where the program hashes a node:
    [self.closedSet.add(current_node)] in [run_A_star] and, one frame
    deeper, [eval_node in self.closedSet] in [get_valid_nodes].  (CPython's
    default limit of 1000 leaves room for fewer than 500 nested calls.) *)
Class PyHash := {
  hash_int : Z → Z;
  hash_None : Z;
  hash_tuple : list Z → Z;
  hash_depth_add : nat;
  hash_depth_in : nat
}.

(** Exceptions that the modelled code can raise. *)
Inductive exn :=
| RecursionError        (* [__hash__] nested beyond the recursion limit *)
| IndexError            (* index outside a numpy array or a list *)
| ValueError            (* numpy array with a negative or too large dimension *)
| MemoryError           (* no memory for an array *)
| NoValidNode.          (* [Exception("No valid node available, path not found.")] *)

Inductive res (A : Type) :=
| Ok (a : A)
| Raise (e : exn).
Arguments Ok {A} a.
Arguments Raise {A} e.

Definition res_bind {A B} (m : res A) (k : A → res B) : res B :=
  match m with Ok a => k a | Raise e => Raise e end.

Notation "x ←r m ; k" := (res_bind m (λ x, k))
  (at level 20, m at level 100, k at level 200, right associativity,
   format "x  ←r  m ;  '/' k").

(** ** class Node *)

Module Node.

Record t := mk {
  x : Z;
  y : Z;
  parent_node : option ref;
  g_cost : Z;
  h_cost : Z
}.

(** [Node.__init__] *)
Definition init (x_pos y_pos : Z) : t :=
  {| x := x_pos; y := y_pos; parent_node := None; g_cost := 0; h_cost := 0 |}.

(** [Node.F_cost] (a property: recomputed on every access) *)
Definition F_cost (n : t) : Z := g_cost n + h_cost n.

(** [Node.__lt__] *)
Definition lt (self other : t) : bool :=
  if F_cost self =? F_cost other then g_cost self <? g_cost other
  else F_cost self <? F_cost other.

(** [Node.__gt__] *)
Definition gt (self other : t) : bool :=
  if F_cost self =? F_cost other then g_cost self >? g_cost other
  else F_cost self >? F_cost other.

Definition set_g_cost (v : Z) (n : t) : t :=
  {| x := x n; y := y n; parent_node := parent_node n; g_cost := v; h_cost := h_cost n |}.
Definition set_h_cost (v : Z) (n : t) : t :=
  {| x := x n; y := y n; parent_node := parent_node n; g_cost := g_cost n; h_cost := v |}.
Definition set_parent_node (p : ref) (n : t) : t :=
  {| x := x n; y := y n; parent_node := Some p; g_cost := g_cost n; h_cost := h_cost n |}.

End Node.

(** The object store.  Every [Node] the program creates lives here; a
    reference is its index. *)
Abbreviation heap := (list Node.t).

(** Field access through a reference.  References handed out by the program
    always point into the store; the default only makes the function total. *)
Definition deref (hp : heap) (r : ref) : Node.t :=
  default (Node.init 0 0) (hp !! r).

(** Attribute assignment [obj.field = v]. *)
Definition assign (f : Node.t → Node.t) (r : ref) (hp : heap) : heap :=
  alter f r hp.

(** A Python [set] of objects whose class defines [__hash__] but not
    [__eq__]: an entry keeps the hash computed when the object was added; a
    lookup computes the hash of the probed object now and finds an entry only
    if the stored hash is that one and the entry is the very same object. *)
Abbreviation pyset := (list (Z * ref)).

Section Hash.
Context `{PyHash}.

(** [Node.__hash__]: [hash((x, y, h_cost, h_cost, F_cost, parent_node))].
    Hashing the tuple hashes [parent_node], which is [None] or a [Node],
    so the call recurses along the parent chain.  [fuel] is the number of
    nested calls the recursion limit leaves room for; a chain with as many
    ancestors or more, a cyclic one among them, ends in [RecursionError]. *)
Fixpoint Node_hash (fuel : nat) (hp : heap) (r : ref) : res Z :=
  match fuel with
  | O => Raise RecursionError
  | S fuel' =>
      let n := deref hp r in
      hp_ ←r match Node.parent_node n with
             | None => Ok hash_None
             | Some p => Node_hash fuel' hp p
             end;
      Ok (hash_tuple [hash_int (Node.x n); hash_int (Node.y n);
                      hash_int (Node.h_cost n); hash_int (Node.h_cost n);
                      hash_int (Node.F_cost n); hp_])
  end.

(** [hash(node)] where [run_A_star] adds to the closed set, and where
    [get_valid_nodes] looks a node up in it. *)
Definition hash_add (hp : heap) (r : ref) : res Z := Node_hash hash_depth_add hp r.

Definition hash_in (hp : heap) (r : ref) : res Z := Node_hash hash_depth_in hp r.

(** The room for nested calls at both places. *)
Definition hash_room : nat := Nat.min hash_depth_add hash_depth_in.

Definition set_find (s : pyset) (hv : Z) (r : ref) : bool :=
  existsb (λ e, (e.1 =? hv) && Nat.eqb e.2 r) s.

(** [obj in s] *)
Definition set_contains (hp : heap) (s : pyset) (r : ref) : res bool :=
  hv ←r hash_in hp r; Ok (set_find s hv r).

(** [s.add(obj)] *)
Definition set_add (hp : heap) (s : pyset) (r : ref) : res pyset :=
  hv ←r hash_add hp r; Ok (if set_find s hv r then s else (hv, r) :: s).

End Hash.

(** [obj in lst] for a list of [Node]s: comparison by identity, as the class
    has no [__eq__]. *)
Definition list_contains (l : list ref) (r : ref) : bool :=
  existsb (Nat.eqb r) l.

(** [lst.sort()]: Python's sort is stable and only calls [__lt__]; insertion
    from the right computes the same (unique) stable sorted arrangement. *)
Fixpoint sort_insert (hp : heap) (a : ref) (l : list ref) : list ref :=
  match l with
  | [] => [a]
  | b :: l' =>
      if Node.lt (deref hp b) (deref hp a) then b :: sort_insert hp a l'
      else a :: b :: l'
  end.

Definition sort (hp : heap) (l : list ref) : list ref :=
  foldr (sort_insert hp) [] l.

(** The order [__lt__] implements: ascending [F_cost], then ascending
    [g_cost]. *)
Definition key_le (a b : Node.t) : Prop :=
  Node.F_cost a < Node.F_cost b
  ∨ (Node.F_cost a = Node.F_cost b ∧ Node.g_cost a ≤ Node.g_cost b).

(** The head of the list is minimal among its elements. *)
Definition head_min (hp : heap) (l : list ref) : Prop :=
  match l with
  | [] => True
  | a :: l' => ∀ r, r ∈ l' → key_le (deref hp a) (deref hp r)
  end.

(** ** get_distance *)

(** "Manhattan/cityblock distance" *)
Definition get_distance (current_node valid_node : Node.t) : Z :=
  Z.abs (Node.x current_node - Node.x valid_node)
  + Z.abs (Node.y current_node - Node.y valid_node).

(** ** class GridNodes *)

Record GridNodes := {
  width : Z;
  height : Z;
  (** the numpy array of shape [(width, height)]: the object held in cell
      [[x][y]] *)
  grid : Z → Z → ref
}.

(** [range(a, b)] *)
Definition range (a b : Z) : list Z := seqZ a (b - a).

(** The nodes of [GridNodes.__init__]: one [Node(x, y)] per cell, allocated
    by the two nested loops, so cell [[x][y]] holds the object allocated at
    position [x * height + y] after the objects already in the store. *)
Definition GridNodes_alloc (width height : Z) : list Node.t :=
  x ← range 0 width; y ← range 0 height; [Node.init x y].

(** [GridNodes.__init__].  [np.empty((width, height), dtype=object)]
    raises [ValueError] for a negative dimension.  Whether an array of a
    shape without one, and the nodes that fill it, are allocated is a matter
    of numpy and the machine: [np_empty width height] is the exception the
    allocation ends in for such a shape, if any ([ValueError] beyond what an
    index integer holds, [MemoryError] beyond the memory at hand). *)
Definition GridNodes_init (np_empty : Z → Z → option exn) (hp : heap) (width height : Z)
  : res (heap * GridNodes) :=
  if (width <? 0) || (height <? 0) then Raise ValueError
  else match np_empty width height with
       | Some e => Raise e
       | None =>
           Ok (hp ++ GridNodes_alloc width height,
               {| width := width; height := height;
                  grid := λ x y, (length hp + Z.to_nat (x * height + y))%nat |})
       end.

(** [GridNodes.get_node] *)
Definition get_node (self : GridNodes) (x y : Z) : option ref :=
  if (x + 1 >? width self) || (y + 1 >? height self) || (x <? 0) || (y <? 0)
  then None
  else Some (grid self x y).

(** ** class A_Star *)

(** The fields of the object the search works on, together with the object
    store.  The figure, axes and patches only receive colours and are left
    out, except for the bounds of the [squares] array, which decide whether
    an access to it raises. *)
Record A_Star := {
  store : heap;
  grid_nodes : GridNodes;
  start_node : ref;
  end_node : ref;
  bloc_nodes : list ref;
  openList : list ref;
  closedSet : pyset;
  iter_ : Z;
  A_started : bool
}.

Definition set_store (v : heap) (s : A_Star) : A_Star :=
  {| store := v; grid_nodes := grid_nodes s; start_node := start_node s;
     end_node := end_node s; bloc_nodes := bloc_nodes s; openList := openList s;
     closedSet := closedSet s; iter_ := iter_ s; A_started := A_started s |}.
Definition set_bloc_nodes (v : list ref) (s : A_Star) : A_Star :=
  {| store := store s; grid_nodes := grid_nodes s; start_node := start_node s;
     end_node := end_node s; bloc_nodes := v; openList := openList s;
     closedSet := closedSet s; iter_ := iter_ s; A_started := A_started s |}.
Definition set_openList (v : list ref) (s : A_Star) : A_Star :=
  {| store := store s; grid_nodes := grid_nodes s; start_node := start_node s;
     end_node := end_node s; bloc_nodes := bloc_nodes s; openList := v;
     closedSet := closedSet s; iter_ := iter_ s; A_started := A_started s |}.
Definition set_closedSet (v : pyset) (s : A_Star) : A_Star :=
  {| store := store s; grid_nodes := grid_nodes s; start_node := start_node s;
     end_node := end_node s; bloc_nodes := bloc_nodes s; openList := openList s;
     closedSet := v; iter_ := iter_ s; A_started := A_started s |}.
Definition set_iter_ (v : Z) (s : A_Star) : A_Star :=
  {| store := store s; grid_nodes := grid_nodes s; start_node := start_node s;
     end_node := end_node s; bloc_nodes := bloc_nodes s; openList := openList s;
     closedSet := closedSet s; iter_ := v; A_started := A_started s |}.
Definition set_A_started (v : bool) (s : A_Star) : A_Star :=
  {| store := store s; grid_nodes := grid_nodes s; start_node := start_node s;
     end_node := end_node s; bloc_nodes := bloc_nodes s; openList := openList s;
     closedSet := closedSet s; iter_ := iter_ s; A_started := v |}.

(** Whether [self.squares[i, j]] is a valid numpy index (negative indices
    count from the end). *)
Definition squares_index_ok (self : A_Star) (i j : Z) : bool :=
  (- width (grid_nodes self) <=? i) && (i <? width (grid_nodes self))
  && (- height (grid_nodes self) <=? j) && (j <? height (grid_nodes self)).

(** [A_Star.__init__] up to the point where the figure is shown and events
    start to arrive.  [_init_matplotlib_figure] colours the squares of the
    start and end node, which indexes [squares]. *)
Definition A_Star_init (hp : heap) (grid_nodes : GridNodes) (start_node end_node : ref)
  : res A_Star :=
  let self := {| store := hp; grid_nodes := grid_nodes; start_node := start_node;
                 end_node := end_node; bloc_nodes := []; openList := [];
                 closedSet := []; iter_ := 0; A_started := false |} in
  if squares_index_ok self (Node.x (deref hp start_node)) (Node.y (deref hp start_node))
     && squares_index_ok self (Node.x (deref hp end_node)) (Node.y (deref hp end_node))
  then Ok self else Raise IndexError.

(** The [__main__] block, for any dimensions and any start and end
    coordinates in place of [15, 15], [(2, 2)] and [(12, 12)]: the start and
    end nodes are fresh objects, not the ones the grid holds for their
    coordinates.  The array of squares has the shape of the grid. *)
Definition main (np_empty : Z → Z → option exn) (width height : Z) (start goal : Z * Z)
  : res A_Star :=
  g ←r GridNodes_init np_empty [] width height;
  let '(hp, grid_nodes) := g in
  let start_node := length hp in
  let hp := hp ++ [Node.init start.1 start.2] in
  let end_node := length hp in
  let hp := hp ++ [Node.init goal.1 goal.2] in
  A_Star_init hp grid_nodes start_node end_node.

(** [A_Star._click_square] *)
Definition _click_square (self : A_Star) (i j : Z) : res A_Star :=
  let hp := store self in
  if (Node.x (deref hp (end_node self)) =? i) && (Node.y (deref hp (end_node self)) =? j)
  then Ok self
  else if (Node.x (deref hp (start_node self)) =? i) && (Node.y (deref hp (start_node self)) =? j)
  then Ok self
  else if squares_index_ok self i j then
    let node := length hp in
    Ok (set_bloc_nodes (bloc_nodes self ++ [node]) (set_store (hp ++ [Node.init i j]) self))
  else Raise IndexError.

(** [lst.remove(obj)]: drops the first element that is [obj]. *)
Fixpoint list_remove (r : ref) (l : list ref) : list ref :=
  match l with
  | [] => []
  | a :: l' => if Nat.eqb a r then l' else a :: list_remove r l'
  end.

(** [A_Star._unclick_square] *)
Definition _unclick_square (self : A_Star) (i j : Z) : res A_Star :=
  let hp := store self in
  if (Node.x (deref hp (end_node self)) =? i) && (Node.y (deref hp (end_node self)) =? j)
  then Ok self
  else if (Node.x (deref hp (start_node self)) =? i) && (Node.y (deref hp (start_node self)) =? j)
  then Ok self
  else
    match find (λ node, (Node.x (deref hp node) =? i) && (Node.y (deref hp node) =? j))
               (bloc_nodes self) with
    | Some node =>
        if squares_index_ok self i j
        then Ok (set_bloc_nodes (list_remove node (bloc_nodes self)) self)
        else Raise IndexError
    | None => Ok self
    end.

(** A mouse event: the data coordinates after [int(...)] (or [None] when the
    pointer is outside the axes), the button and [inaxes]. *)
Record MouseEvent := {
  ev_pos : option (Z * Z);
  ev_button : Z;
  ev_inaxes : bool
}.

(** [A_Star._mouse_button_press] *)
Definition _mouse_button_press (self : A_Star) (event : MouseEvent) : res A_Star :=
  match ev_pos event with
  | None => Ok self
  | Some (i, j) =>
      if A_started self then Ok self
      else
        self ←r (if (ev_button event =? 1) && ev_inaxes event
                 then _click_square self i j else Ok self);
        if (ev_button event =? 3) && ev_inaxes event
        then _unclick_square self i j else Ok self
  end.

(** The event loop before the search: an exception raised inside a handler
    is reported and the figure keeps running; the handlers below raise before
    they change anything. *)
Definition handle_mouse (self : A_Star) (event : MouseEvent) : A_Star :=
  match _mouse_button_press self event with
  | Ok self' => self'
  | Raise _ => self
  end.

(** The states the program can be in while it waits for the space bar. *)
Inductive idle : A_Star → Prop :=
| idle_main (np_empty : Z → Z → option exn) (width height : Z) (start goal : Z * Z)
      (self : A_Star) :
    main np_empty width height start goal = Ok self → idle self
| idle_mouse (self : A_Star) (event : MouseEvent) :
    idle self → idle (handle_mouse self event).

(** Two objects with the same [(x, y)]. *)
Definition same_xy (hp : heap) (a b : ref) : Prop :=
  Node.x (deref hp a) = Node.x (deref hp b) ∧ Node.y (deref hp a) = Node.y (deref hp b).

(** What holds of every idle state of a session started by
    [main w h start goal]. *)
Record idle_inv (w h : Z) (start goal : Z * Z) (self : A_Star) : Prop := {
  idle_w : 0 < w;
  idle_h : 0 < h;
  idle_grid : grid_nodes self =
              {| width := w; height := h; grid := λ x y, (0 + Z.to_nat (x * h + y))%nat |};
  idle_start : start_node self = Z.to_nat (w * h);
  idle_end : end_node self = S (Z.to_nat (w * h));
  idle_store : ∃ extra, store self =
                 GridNodes_alloc w h
                 ++ [Node.init start.1 start.2; Node.init goal.1 goal.2] ++ extra;
  idle_bloc : ∀ b, b ∈ bloc_nodes self →
                (S (Z.to_nat (w * h)) < b < length (store self))%nat
                ∧ (Node.x (deref (store self) b), Node.y (deref (store self) b)) ≠ start
                ∧ (Node.x (deref (store self) b), Node.y (deref (store self) b)) ≠ goal;
  idle_open : openList self = [];
  idle_closed : closedSet self = [];
  idle_iter : iter_ self = 0;
  idle_started : A_started self = false
}.

(** What one pass through the body of the [while] loop of [run_A_star] does:
    go on with the next pass, or leave the method through
    [return self.end_node], with [current_node] the node just taken from the
    open list. *)
Inductive flow :=
| Continue (self : A_Star)
| Found (self : A_Star) (current_node : ref).

(** How a call of [run_A_star] ends. *)
Inductive outcome :=
| ReturnEnd (self : A_Star) (current_node : ref)   (* "FOUND :D", returns [self.end_node] *)
| ReturnNone (self : A_Star)                       (* "No valid path found", falls off the loop *)
| Raised (e : exn)
| Diverges.                                        (* the fuel of the model ran out *)

(** [self.openList.sort(); current_node = self.openList[0]; self.openList.pop(0)] *)
Definition extract (self : A_Star) : option (ref * A_Star) :=
  match sort (store self) (openList self) with
  | [] => None
  | current_node :: rest => Some (current_node, set_openList rest self)
  end.

(** [self.openList.append(start_node)], the first statement of [run_A_star]:
    the start node goes into the open list as [Node(x, y)] made it. *)
Definition push_start (self : A_Star) : A_Star :=
  set_openList (openList self ++ [start_node self]) self.

Section Search.
Context `{PyHash}.

(** The pairs [(i, j)] of the two nested [range(-1, 2)] loops, in order. *)
Definition offsets : list (Z * Z) :=
  i ← range (-1) 2; j ← range (-1) 2; [(i, j)].

(** [any(node.x == eval_node.x and node.y == eval_node.y for node in self.bloc_nodes)] *)
Definition is_bloc (hp : heap) (bloc_nodes : list ref) (eval_node : ref) : bool :=
  existsb (λ node, (Node.x (deref hp node) =? Node.x (deref hp eval_node))
                   && (Node.y (deref hp node) =? Node.y (deref hp eval_node)))
          bloc_nodes.

(** The body of the inner loop of [get_valid_nodes], run over the
    remaining offsets.  The elements of [returned_nodes] are whatever
    [get_node] gave: a node or [None]. *)
Fixpoint get_valid_nodes_loop (self : A_Star) (current_node : ref)
    (ijs : list (Z * Z)) (returned_nodes : list (option ref))
  : res (list (option ref)) :=
  match ijs with
  | [] => Ok returned_nodes
  | (i, j) :: ijs' =>
      if (i =? 0) && (j =? 0) then
        get_valid_nodes_loop self current_node ijs' returned_nodes
      else
        let eval_node :=
          get_node (grid_nodes self)
                   (Node.x (deref (store self) current_node) + i)
                   (Node.y (deref (store self) current_node) + j) in
        match eval_node with
        | None => get_valid_nodes_loop self current_node ijs' returned_nodes
        | Some e =>
            closed ←r set_contains (store self) (closedSet self) e;
            if closed then
              get_valid_nodes_loop self current_node ijs' returned_nodes
            else if is_bloc (store self) (bloc_nodes self) e then
              get_valid_nodes_loop self current_node ijs' returned_nodes
            else
              get_valid_nodes_loop self current_node ijs' (returned_nodes ++ [eval_node])
        end
  end.

(** [A_Star.get_valid_nodes] *)
Definition get_valid_nodes (self : A_Star) (current_node : ref)
  : res (list (option ref)) :=
  get_valid_nodes_loop self current_node offsets [].

(** One pass of [for valid_node in all_valid_nodes] in [run_A_star]. *)
Definition visit (self : A_Star) (current_node : ref) (valid_node : option ref)
  : res A_Star :=
  match valid_node with
  | None => Raise NoValidNode
  | Some v =>
      (* valid_node.g_cost = current_node.g_cost + get_distance(current_node, valid_node) *)
      let hp := store self in
      let hp := assign (Node.set_g_cost
                          (Node.g_cost (deref hp current_node)
                           + get_distance (deref hp current_node) (deref hp v))) v hp in
      (* valid_node.h_cost = get_distance(valid_node, end_node) *)
      let hp := assign (Node.set_h_cost
                          (get_distance (deref hp v) (deref hp (end_node self)))) v hp in
      if negb (list_contains (openList self) v) then
        (* valid_node.parent_node = current_node; self.openList.append(valid_node) *)
        let hp := assign (Node.set_parent_node current_node) v hp in
        Ok (set_openList (openList self ++ [v]) (set_store hp self))
      else Ok (set_store hp self)
  end.

Fixpoint visit_all (self : A_Star) (current_node : ref)
    (all_valid_nodes : list (option ref)) : res A_Star :=
  match all_valid_nodes with
  | [] => Ok self
  | valid_node :: rest =>
      self ←r visit self current_node valid_node;
      visit_all self current_node rest
  end.

(** The body of [while len(self.openList) > 0], entered with a non-empty
    open list.  [plot_path] only colours squares. *)
Definition loop_body (self : A_Star) : res flow :=
  match extract self with
  | None => Raise IndexError                      (* [self.openList[0]] *)
  | Some (current_node, self) =>
      let hp := store self in
      if (Node.x (deref hp current_node) =? Node.x (deref hp (end_node self)))
         && (Node.y (deref hp current_node) =? Node.y (deref hp (end_node self)))
      then Ok (Found self current_node)
      else
        closed ←r set_add hp (closedSet self) current_node;
        let self := set_closedSet closed self in
        all_valid_nodes ←r get_valid_nodes self current_node;
        self ←r visit_all self current_node all_valid_nodes;
        Ok (Continue (set_iter_ (iter_ self + 1) self))
  end.

(** The [while] loop; [fuel] bounds the number of passes. *)
Fixpoint while_loop (fuel : nat) (self : A_Star) : outcome :=
  match fuel with
  | O => Diverges
  | S fuel' =>
      match openList self with
      | [] => ReturnNone self
      | _ :: _ =>
          match loop_body self with
          | Raise e => Raised e
          | Ok (Found self' current_node) => ReturnEnd self' current_node
          | Ok (Continue self') => while_loop fuel' self'
          end
      end
  end.

(** [A_Star.run_A_star] *)
Definition run_A_star (fuel : nat) (self : A_Star) : outcome :=
  while_loop fuel (push_start self).

(** [A_Star._on_key_press]: [None] when the handler does nothing. *)
Definition _on_key_press (fuel : nat) (self : A_Star) (key : string)
  : option outcome :=
  if String.eqb key " " && negb (A_started self)
  then Some (run_A_star fuel (set_A_started true self))
  else None.

End Search.

(** ** The points a run passes through *)

(** A run of [run_A_star] is observed at the test of the [while] loop and,
    inside a pass, at the head of [for valid_node in all_valid_nodes], with
    the nodes still to be visited. *)
Inductive point :=
| AtLoop (self : A_Star)
| InFor (self : A_Star) (current_node : ref) (rest : list (option ref)).

Section Reachable.
Context `{PyHash}.

Inductive reachable : point → Prop :=
| reach_begin (self : A_Star) :
    idle self →
    reachable (AtLoop (push_start (set_A_started true self)))
| reach_expand (self self' : A_Star) (current_node : ref) (closed : pyset)
      (all_valid_nodes : list (option ref)) :
    reachable (AtLoop self) →
    extract self = Some (current_node, self') →
    (Node.x (deref (store self') current_node) =? Node.x (deref (store self') (end_node self')))
    && (Node.y (deref (store self') current_node) =? Node.y (deref (store self') (end_node self')))
    = false →
    set_add (store self') (closedSet self') current_node = Ok closed →
    get_valid_nodes (set_closedSet closed self') current_node = Ok all_valid_nodes →
    reachable (InFor (set_closedSet closed self') current_node all_valid_nodes)
| reach_visit (self self' : A_Star) (current_node : ref) (valid_node : option ref)
      (rest : list (option ref)) :
    reachable (InFor self current_node (valid_node :: rest)) →
    visit self current_node valid_node = Ok self' →
    reachable (InFor self' current_node rest)
| reach_next (self : A_Star) (current_node : ref) :
    reachable (InFor self current_node []) →
    reachable (AtLoop (set_iter_ (iter_ self + 1) self)).

End Reachable.

(** The objects a closed set holds. *)
Definition members (s : pyset) : list ref := s.*2.

(** Every object of the closed set has no parent or a parent that entered
    the set before it. *)
Fixpoint chain_ok (hp : heap) (s : pyset) : Prop :=
  match s with
  | [] => True
  | (_, r) :: s' =>
      match Node.parent_node (deref hp r) with
      | None => True
      | Some p => p ∈ members s'
      end ∧ chain_ok hp s'
  end.

(** King-move adjacency of two nodes. *)
Definition adjacent (a b : Node.t) : Prop :=
  Z.max (Z.abs (Node.x a - Node.x b)) (Z.abs (Node.y a - Node.y b)) = 1.

Section Invariant.
Context `{PyHash}.
Context (w h : Z) (start goal : Z * Z).

(** The number of grid nodes; they are the objects [0 .. cells - 1], the
    start node is object [cells] and the end node object [cells + 1]. *)
Definition cells : nat := Z.to_nat (w * h).

(** What holds of the state at every point of a run. *)
Record state_inv (self : A_Star) : Prop := {
  si_w : 0 < w;
  si_h : 0 < h;
  si_grid : grid_nodes self =
            {| width := w; height := h; grid := λ x y, (0 + Z.to_nat (x * h + y))%nat |};
  si_start : start_node self = cells;
  si_end : end_node self = S cells;
  si_len : (S (S cells) ≤ length (store self))%nat;
  si_cell : ∀ r, (r < cells)%nat →
      Node.x (deref (store self) r) = Z.of_nat r `div` h
      ∧ Node.y (deref (store self) r) = Z.of_nat r `mod` h;
  si_start_node : deref (store self) cells = Node.init start.1 start.2;
  si_end_xy : Node.x (deref (store self) (S cells)) = goal.1
              ∧ Node.y (deref (store self) (S cells)) = goal.2;
  si_open_nodup : NoDup (openList self);
  si_open_refs : ∀ r, r ∈ openList self →
      (r < cells)%nat ∨ (openList self = [cells] ∧ closedSet self = []);
  si_open_h : ∀ r, r ∈ openList self → (r < cells)%nat →
      Node.h_cost (deref (store self) r)
      = get_distance (deref (store self) r) (deref (store self) (S cells));
  si_closed_nodup : NoDup (members (closedSet self));
  si_closed_refs : ∀ r, r ∈ members (closedSet self) →
      (r ≤ cells)%nat ∧ r ∉ openList self;
  si_closed_hash : ∀ hv r, (hv, r) ∈ closedSet self → hash_add (store self) r = Ok hv;
  si_chain : chain_ok (store self) (closedSet self);
  si_parent : ∀ r p, (r ≤ cells)%nat →
      Node.parent_node (deref (store self) r) = Some p →
      p ∈ members (closedSet self)
      ∧ adjacent (deref (store self) r) (deref (store self) p);
  si_fresh : ∀ r, (r < cells)%nat → r ∉ openList self →
      r ∉ members (closedSet self) →
      Node.parent_node (deref (store self) r) = None
}.

(** What holds, besides, inside the [for] loop. *)
Record for_inv (self : A_Star) (current_node : ref) (rest : list (option ref)) : Prop := {
  fi_cur : current_node ∈ members (closedSet self);
  fi_rest : ∀ o, o ∈ rest →
      ∃ r, o = Some r ∧ (r < cells)%nat ∧ (r ∉ members (closedSet self))
           ∧ adjacent (deref (store self) r) (deref (store self) current_node);
  fi_nodup : NoDup rest
}.

Definition point_inv (pt : point) : Prop :=
  match pt with
  | AtLoop self => state_inv self
  | InFor self current_node rest => state_inv self ∧ for_inv self current_node rest
  end.

End Invariant.

(** The node [get_node] gives for an offset from the current node. *)
Definition neighbour (self : A_Star) (current_node : ref) (ij : Z * Z) : option ref :=
  get_node (grid_nodes self)
           (Node.x (deref (store self) current_node) + ij.1)
           (Node.y (deref (store self) current_node) + ij.2).

(** The nodes around the current node that are on the grid and not in the
    closed set, in the order of the two nested loops. *)
Definition valid_refs (self : A_Star) (current_node : ref) : list ref :=
  filter (λ r, r ∉ members (closedSet self))
         (omap (neighbour self current_node) (filter (λ ij, ij ≠ (0, 0)) offsets)).

(** ** The search on a grid without blocked cells *)

(** The coordinates of an object. *)
Definition xy (hp : heap) (r : ref) : Z * Z :=
  (Node.x (deref hp r), Node.y (deref hp r)).

Definition manhattan (a b : Z * Z) : Z :=
  Z.abs (a.1 - b.1) + Z.abs (a.2 - b.2).

Definition chebyshev (a b : Z * Z) : Z :=
  Z.max (Z.abs (b.1 - a.1)) (Z.abs (b.2 - a.2)).

(** King-move adjacency of two coordinates. *)
Definition adj (a b : Z * Z) : Prop :=
  Z.max (Z.abs (a.1 - b.1)) (Z.abs (a.2 - b.2)) = 1.

#[global] Instance adj_dec (a b : Z * Z) : Decision (adj a b).
Proof. unfold adj. apply _. Defined.

(** [p] is next to [c] and no farther from [goal] than a shortest way from
    [c] allows. *)
Definition toward (c goal p : Z * Z) : Prop :=
  adj c p ∧ manhattan c p + manhattan p goal = manhattan c goal.

(** One step from [c] along the x axis, resp. the y axis, towards [goal]. *)
Definition step_x (c goal p : Z * Z) : Prop :=
  p.2 = c.2 ∧ Z.abs (p.1 - c.1) = 1 ∧ Z.abs (goal.1 - p.1) + 1 = Z.abs (goal.1 - c.1).

Definition step_y (c goal p : Z * Z) : Prop :=
  p.1 = c.1 ∧ Z.abs (p.2 - c.2) = 1 ∧ Z.abs (goal.2 - p.2) + 1 = Z.abs (goal.2 - c.2).

(** [a] occurs in [l] and [b] somewhere after it. *)
Definition before {A} (l : list A) (a b : A) : Prop :=
  ∃ l1 l2, l = l1 ++ a :: l2 ∧ b ∈ l2.

(** Modelled from the spec: the path of a found goal, "reconstructed by
    following parent links from goal to start and reversing the order"; the
    program itself returns [self.end_node] and builds no path.  The links
    are followed from the node the search stopped at; [fuel] bounds their
    number, and [None] is the answer when it does not suffice. *)
Fixpoint parent_links (fuel : nat) (hp : heap) (r : ref) : option (list (Z * Z)) :=
  match fuel with
  | O => None
  | S fuel' =>
      match Node.parent_node (deref hp r) with
      | None => Some [xy hp r]
      | Some p => rest ← parent_links fuel' hp p; Some (xy hp r :: rest)
      end
  end.

Definition reconstruct_path (hp : heap) (current_node : ref) : option (list (Z * Z)) :=
  reverse <$> parent_links (length hp) hp current_node.



(** How far [c] has come from [start] along the two axes, compared: the
    axis of the next step is the one that is behind, by one at most. *)
Definition balanced (start goal c : Z * Z) (pref_x : bool) : Prop :=
  let px := Z.abs (c.1 - start.1) in
  let py := Z.abs (c.2 - start.2) in
  (goal.1 ≠ c.1 → goal.2 ≠ c.2 →
   if pref_x then 0 ≤ py - px ≤ 1 else 0 ≤ px - py ≤ 1)
  ∧ (goal.1 ≠ c.1 → goal.2 = c.2 → py ≤ px + 1)
  ∧ (goal.1 = c.1 → goal.2 ≠ c.2 → px ≤ py + 1).

Section SearchInvariant.
Context `{PyHash}.
Context (w h : Z) (start goal : Z * Z).

(** What holds at the test of the [while] loop once the start node has been
    expanded, on a grid without blocked cells: [c] is the node closed last,
    [pref_x] tells which of the two straight steps towards the goal stands
    first in the open list. *)
Record search_inv (self : A_Star) (c : ref) (pref_x : bool) : Prop := {
  sv_state : state_inv w h start goal self;
  sv_bloc : bloc_nodes self = [];
  sv_cur : c ∈ members (closedSet self);
  sv_g : Node.g_cost (deref (store self) c) = manhattan start (xy (store self) c);
  sv_between : manhattan start (xy (store self) c) + manhattan (xy (store self) c) goal
               = manhattan start goal;
  sv_notgoal : xy (store self) c ≠ goal;
  sv_closed : ∀ q, q ∈ members (closedSet self) →
      Z.abs (goal.1 - (xy (store self) c).1) ≤ Z.abs (goal.1 - (xy (store self) q).1)
      ∧ Z.abs (goal.2 - (xy (store self) c).2) ≤ Z.abs (goal.2 - (xy (store self) q).2);
  sv_near_g : ∀ v, v ∈ openList self → adj (xy (store self) c) (xy (store self) v) →
      Node.g_cost (deref (store self) v)
      = Node.g_cost (deref (store self) c)
        + manhattan (xy (store self) c) (xy (store self) v);
  sv_far_f : ∀ v, v ∈ openList self → ¬ adj (xy (store self) c) (xy (store self) v) →
      manhattan start goal < Node.F_cost (deref (store self) v);
  sv_toward : ∀ p, toward (xy (store self) c) goal p →
      ∃ v, v ∈ openList self ∧ xy (store self) v = p;
  sv_open_adj : ∀ v, v ∈ openList self →
      ∃ q, q ∈ members (closedSet self)
           ∧ Z.abs ((xy (store self) q).1 - (xy (store self) v).1) ≤ 1
           ∧ Z.abs ((xy (store self) q).2 - (xy (store self) v).2) ≤ 1;
  sv_order : ∀ v1 v2, v1 ∈ openList self → v2 ∈ openList self →
      step_x (xy (store self) c) goal (xy (store self) v1) →
      step_y (xy (store self) c) goal (xy (store self) v2) →
      if pref_x then before (openList self) v1 v2 else before (openList self) v2 v1;
  sv_good_closed : ∀ q, q ∈ members (closedSet self) →
      match Node.parent_node (deref (store self) q) with
      | None => xy (store self) q = start
      | Some p => chebyshev start (xy (store self) q)
                  = chebyshev start (xy (store self) p) + 1
      end;
  sv_good_open : ∀ v, v ∈ openList self → toward (xy (store self) c) goal (xy (store self) v) →
      ∃ p, Node.parent_node (deref (store self) v) = Some p
           ∧ chebyshev start (xy (store self) v) = chebyshev start (xy (store self) p) + 1;
  sv_balance : balanced start goal (xy (store self) c) pref_x;
  sv_count : Z.of_nat (length (closedSet self)) ≤ manhattan start (xy (store self) c) + 1
}.

End SearchInvariant.

(** ** Sessions *)

(** The state [main] hands to the event loop when it does not raise. *)
Definition session (w h : Z) (start goal : Z * Z) : A_Star :=
  {| store := GridNodes_alloc w h
              ++ [Node.init start.1 start.2; Node.init goal.1 goal.2];
     grid_nodes := {| width := w; height := h;
                      grid := λ x y, (0 + Z.to_nat (x * h + y))%nat |};
     start_node := Z.to_nat (w * h);
     end_node := S (Z.to_nat (w * h));
     bloc_nodes := []; openList := []; closedSet := [];
     iter_ := 0; A_started := false |}.

(** The session of the [__main__] block: a 15 × 15 grid, start [(2, 2)],
    end [(12, 12)]. *)
Definition session15 : A_Star := session 15 15 (2, 2) (12, 12).

(** A hash to evaluate runs with.  Which one is used makes no difference to
    a run that raises nothing: a lookup in the closed set compares a stored
    hash only with the hash of the same object.  The room for nested calls
    is below what CPython's default recursion limit leaves. *)
Definition demo_hash : PyHash :=
  {| hash_int := λ z, z;
     hash_None := 0;
     hash_tuple := foldl (λ acc z, Z.land (Z.shiftl acc 5 + acc + z) 2305843009213693951)
                         3430008;
     hash_depth_add := 450;
     hash_depth_in := 449 |}.

(** numpy on a 64-bit machine, for the examples: an array of objects, of
    eight bytes each, is refused with [ValueError] when its size in bytes,
    counted without the dimensions that are zero, is no index integer.  The
    machine of the examples has memory for every array below that. *)
Definition numpy64 (width height : Z) : option exn :=
  if 2 ^ 63 <=? Z.max 1 width * Z.max 1 height * 8 then Some ValueError else None.

(** A left click inside the axes on the square [(i, j)]. *)
Definition left_click (i j : Z) : MouseEvent :=
  {| ev_pos := Some (i, j); ev_button := 1; ev_inaxes := true |}.

(** The running state the space bar leads to from [session15], and the
    states after the first passes of the loop. *)
Definition running15 : A_Star := push_start (set_A_started true session15).

Definition pass (self : A_Star) : A_Star :=
  match loop_body (H:=demo_hash) self with
  | Ok (Continue self') => self'
  | _ => self
  end.

Definition after_pass1 : A_Star := pass running15.
Definition after_pass2 : A_Star := pass after_pass1.

(** [after_pass1] once the sorted open list has lost its first node. *)
Definition after_pass1_popped : A_Star :=
  match extract after_pass1 with
  | Some (_, self') => self'
  | None => after_pass1
  end.

(** The second pass on [session15], after its current node (object 33, the
    grid node of [(2, 3)]) has been closed, and the valid nodes found for
    it. *)
Definition pass2_closed : A_Star :=
  match set_add (H:=demo_hash) (store after_pass1_popped)
                (closedSet after_pass1_popped) 33%nat with
  | Ok closed => set_closedSet closed after_pass1_popped
  | Raise _ => after_pass1_popped
  end.

Definition pass2_valid : list (option ref) :=
  match get_valid_nodes (H:=demo_hash) pass2_closed 33%nat with
  | Ok all_valid_nodes => all_valid_nodes
  | Raise _ => []
  end.

(** The state after the first valid node of the second pass (object 17, the
    grid node of [(1, 2)]) has been visited. *)
Definition pass2_visited : A_Star :=
  match visit pass2_closed 33%nat (Some 17%nat) with
  | Ok self' => self'
  | Raise _ => pass2_closed
  end.

(** ** Runs on a grid with blocked cells *)

(** The nodes [get_valid_nodes] returns: those of [valid_refs] that pass
    the test against [self.bloc_nodes]. *)
Definition free_refs (self : A_Star) (current_node : ref) : list ref :=
  filter (λ r, is_bloc (store self) (bloc_nodes self) r = false)
         (valid_refs self current_node).

(** Some blocked node has the coordinates [p]. *)
Definition blocked (self : A_Star) (p : Z * Z) : Prop :=
  ∃ b, b ∈ bloc_nodes self ∧ xy (store self) b = p.

(** A cell of the [w] × [h] grid without a blocked node. *)
Definition free_cell (w h : Z) (self : A_Star) (p : Z * Z) : Prop :=
  (0 ≤ p.1 < w ∧ 0 ≤ p.2 < h) ∧ ¬ blocked self p.

(** A walk by king moves whose cells, the first apart, satisfy [free]. *)
Inductive king_path (free : Z * Z → Prop) (p : Z * Z) : Z * Z → Prop :=
| king_here : king_path free p p
| king_step (q r : Z * Z) :
    king_path free p q → adj q r → free r → king_path free p r.

(** The [parent_node] links lead from [r] to the start node, each link to a
    neighbouring node, through nodes that are not blocked. *)
Inductive back_path (self : A_Star) : ref → Prop :=
| back_start (r : ref) :
    r = start_node self →
    Node.parent_node (deref (store self) r) = None →
    back_path self r
| back_step (r p : ref) :
    Node.parent_node (deref (store self) r) = Some p →
    adjacent (deref (store self) r) (deref (store self) p) →
    is_bloc (store self) (bloc_nodes self) r = false →
    back_path self p →
    back_path self r.

(** What holds, besides [state_inv], at the test of the [while] loop in a
    run begun in the idle state [s0]: the flag and the blocked nodes are
    those of the begin, no object has moved, the end node is untouched, the
    counter counts the closed nodes, the start node is the first to be
    closed, the grid nodes in the open list and the closed set are not
    blocked and have a parent, every free grid node around a closed node is
    in the open list or closed, and no closed node is at the goal. *)
Section RunInv.
Context `{PyHash}.

Record run_inv (w h : Z) (start goal : Z * Z) (s0 self : A_Star) : Prop := {
  ri_state : state_inv w h start goal self;
  ri_started : A_started self = true;
  ri_bloc : bloc_nodes self = bloc_nodes s0;
  ri_xy : ∀ r, xy (store self) r = xy (store s0) r;
  ri_end : deref (store self) (S (cells w h)) = Node.init goal.1 goal.2;
  ri_iter : iter_ self = Z.of_nat (length (closedSet self));
  ri_begin : closedSet self = [] → openList self = [cells w h];
  ri_start_closed : closedSet self ≠ [] → cells w h ∈ members (closedSet self);
  ri_free : ∀ r, (r < cells w h)%nat →
      r ∈ openList self ∨ r ∈ members (closedSet self) →
      is_bloc (store self) (bloc_nodes self) r = false;
  ri_has_parent : ∀ r, (r < cells w h)%nat →
      r ∈ openList self ∨ r ∈ members (closedSet self) →
      is_Some (Node.parent_node (deref (store self) r));
  ri_closure : ∀ c r, c ∈ members (closedSet self) → (r < cells w h)%nat →
      adj (xy (store self) c) (xy (store self) r) →
      is_bloc (store self) (bloc_nodes self) r = false →
      r ∈ openList self ∨ r ∈ members (closedSet self);
  ri_not_goal : ∀ q, q ∈ members (closedSet self) → xy (store self) q ≠ goal
}.

End RunInv.

(** *** Small sessions with a blocked cell *)

(** A 3 × 3 grid, start [(0, 0)], end [(0, 2)], the cell between them
    blocked by a left click. *)
Definition detour : A_Star :=
  handle_mouse (session 3 3 (0, 0) (0, 2)) (left_click 0 1).

(** A 1 × 3 grid with the same start, end and click: the blocked cell
    separates the two. *)
Definition walled : A_Star :=
  handle_mouse (session 1 3 (0, 0) (0, 2)) (left_click 0 1).

Definition detour_run : outcome :=
  run_A_star (H:=demo_hash) 11 (set_A_started true detour).

Definition walled_run : outcome :=
  run_A_star (H:=demo_hash) 5 (set_A_started true walled).

(** The state and the node an outcome carries. *)
Definition outcome_state (o : outcome) (d : A_Star) : A_Star :=
  match o with
  | ReturnEnd self _ | ReturnNone self => self
  | _ => d
  end.

Definition outcome_node (o : outcome) : ref :=
  match o with
  | ReturnEnd _ current_node => current_node
  | _ => 0%nat
  end.

(** The state at a point of a run. *)
Definition point_state (pt : point) : A_Star :=
  match pt with
  | AtLoop self => self
  | InFor self _ _ => self
  end.

(** ** Sorted lists and counts of blocked nodes *)

(** Every element of the list is at most, in the order of [__lt__], the
    elements after it. *)
Fixpoint sorted (hp : heap) (l : list ref) : Prop :=
  match l with
  | [] => True
  | a :: l' => (∀ b, b ∈ l' → key_le (deref hp a) (deref hp b)) ∧ sorted hp l'
  end.

(** The number of blocked nodes with the coordinates [p]. *)
Definition bloc_count (self : A_Star) (p : Z * Z) : nat :=
  length (filter (λ b, xy (store self) b = p) (bloc_nodes self)).

(** The indices [self.squares] accepts. *)
Definition squares_index (w h : Z) (p : Z * Z) : Prop :=
  (- w ≤ p.1 < w) ∧ (- h ≤ p.2 < h).

(** A right click inside the axes on the square [(i, j)]. *)
Definition right_click (i j : Z) : MouseEvent :=
  {| ev_pos := Some (i, j); ev_button := 3; ev_inaxes := true |}.

(** [detour] after two more left clicks, on [(1, 1)] and once again on
    [(0, 1)]: the square [(0, 1)] has two blocked nodes, with another
    between them in the list. *)
Definition twice_blocked : A_Star :=
  handle_mouse (handle_mouse detour (left_click 1 1)) (left_click 0 1).
(** * Properties *)

(** ** The object store *)

Lemma deref_lookup (hp : heap) (r : ref) (n : Node.t) :
  hp !! r = Some n → deref hp r = n.
Proof. unfold deref. by intros ->. Qed.

Lemma deref_assign_ne (f : Node.t → Node.t) (hp : heap) (r r' : ref) :
  r ≠ r' → deref (assign f r hp) r' = deref hp r'.
Proof. intros Hne. unfold deref, assign. by rewrite list_lookup_alter_ne. Qed.

Lemma deref_assign_eq (f : Node.t → Node.t) (hp : heap) (r : ref) :
  (r < length hp)%nat → deref (assign f r hp) r = f (deref hp r).
Proof.
  intros Hlt. unfold deref, assign. rewrite list_lookup_alter_eq.
  destruct (lookup_lt_is_Some_2 hp r Hlt) as [n Hn]. rewrite Hn. done.
Qed.

Lemma length_assign (f : Node.t → Node.t) (hp : heap) (r : ref) :
  length (assign f r hp) = length hp.
Proof. apply length_alter. Qed.

(** ** GridNodes *)

Lemma lookup_blocks {A} (f : Z → list A) (n : nat) (w : nat) (m : Z) (i j : nat) :
  (∀ x, length (f x) = n) → (i < w)%nat → (j < n)%nat →
  (seqZ m (Z.of_nat w) ≫= f) !! (i * n + j)%nat = f (m + Z.of_nat i) !! j.
Proof.
  intros Hlen. revert m i. induction w as [|w IH]; intros m i Hi Hj; [lia|].
  rewrite Nat2Z.inj_succ, seqZ_cons by lia. rewrite bind_cons.
  replace (Z.pred (Z.succ (Z.of_nat w))) with (Z.of_nat w) by lia.
  destruct i as [|i].
  - rewrite lookup_app_l by (rewrite Hlen; lia).
    simpl. by rewrite Z.add_0_r.
  - rewrite lookup_app_r by (rewrite Hlen; lia).
    rewrite Hlen. replace (S i * n + j - n)%nat with (i * n + j)%nat by lia.
    rewrite IH by lia. f_equal. f_equal. lia.
Qed.

Lemma bind_singleton {A B} (g : A → B) (l : list A) :
  (l ≫= λ a, [g a]) = g <$> l.
Proof. induction l as [|a l IH]; [done|]. rewrite bind_cons, IH. done. Qed.

Lemma GridNodes_alloc_lookup (width height x y : Z) :
  0 ≤ x < width → 0 ≤ y < height →
  GridNodes_alloc width height !! Z.to_nat (x * height + y) = Some (Node.init x y).
Proof.
  intros Hx Hy. unfold GridNodes_alloc, range.
  rewrite !Z.sub_0_r.
  rewrite Z2Nat.inj_add, Z2Nat.inj_mul by nia.
  rewrite <- (Z2Nat.id width) at 1 by lia.
  rewrite (lookup_blocks _ (Z.to_nat height)); [| |lia|lia].
  - rewrite Z.add_0_l, Z2Nat.id by lia.
    rewrite bind_singleton, list_lookup_fmap.
    rewrite lookup_seqZ_lt by lia. simpl. f_equal. f_equal. lia.
  - intros x0. rewrite bind_singleton, length_fmap, length_seqZ. done.
Qed.

Lemma length_blocks {A B} (f : A → list B) (n : nat) (l : list A) :
  (∀ a, length (f a) = n) → length (l ≫= f) = (length l * n)%nat.
Proof.
  intros Hlen. induction l as [|a l IH]; [done|].
  rewrite bind_cons, length_app, IH, Hlen. simpl. lia.
Qed.

Lemma GridNodes_alloc_length (width height : Z) :
  0 ≤ width → 0 ≤ height →
  length (GridNodes_alloc width height) = Z.to_nat (width * height).
Proof.
  intros Hw Hh. unfold GridNodes_alloc, range. rewrite !Z.sub_0_r.
  rewrite (length_blocks _ (Z.to_nat height)).
  - rewrite length_seqZ, Z2Nat.inj_mul by lia. done.
  - intros a. rewrite bind_singleton, length_fmap, length_seqZ. done.
Qed.

Lemma get_node_Some (g : GridNodes) (x y : Z) (r : ref) :
  get_node g x y = Some r ↔
  (0 ≤ x < width g ∧ 0 ≤ y < height g) ∧ r = grid g x y.
Proof.
  unfold get_node.
  destruct (x + 1 >? width g) eqn:E1, (y + 1 >? height g) eqn:E2,
           (x <? 0) eqn:E3, (y <? 0) eqn:E4; simpl;
    split; try (intros [? ?]; lia); try discriminate;
    try (intros [= <-]; split; [lia|done]); intros [_ ->]; done.
Qed.

Lemma get_node_None (g : GridNodes) (x y : Z) :
  get_node g x y = None ↔ ¬ (0 ≤ x < width g ∧ 0 ≤ y < height g).
Proof.
  unfold get_node.
  destruct (x + 1 >? width g) eqn:E1, (y + 1 >? height g) eqn:E2,
           (x <? 0) eqn:E3, (y <? 0) eqn:E4; simpl;
    split; try done; try lia; intros Hn; exfalso; apply Hn; lia.
Qed.

Lemma GridNodes_init_Ok (np_empty : Z → Z → option exn) (hp hp' : heap) (w h : Z)
    (g : GridNodes) :
  GridNodes_init np_empty hp w h = Ok (hp', g) →
  0 ≤ w ∧ 0 ≤ h ∧ width g = w ∧ height g = h ∧
  hp' = hp ++ GridNodes_alloc w h ∧
  (∀ x y, grid g x y = (length hp + Z.to_nat (x * h + y))%nat).
Proof.
  unfold GridNodes_init.
  destruct (w <? 0) eqn:E1, (h <? 0) eqn:E2; simpl; try discriminate.
  destruct (np_empty w h); [discriminate|].
  intros [= <- <-]. simpl. repeat split; lia.
Qed.

(** C7: for every integer pair, [get_node] returns [None] exactly when the
    pair lies outside [[0, width) × [0, height)]; inside, it returns the
    node the constructor stored for that coordinate (a [Node(x, y)]), and
    no other coordinate yields this object. *)
Theorem get_node_spec (np_empty : Z → Z → option exn) (hp hp' : heap) (w h : Z)
    (g : GridNodes) (x y : Z) :
  GridNodes_init np_empty hp w h = Ok (hp', g) →
  (get_node g x y = None ↔ ¬ (0 ≤ x < w ∧ 0 ≤ y < h)) ∧
  (0 ≤ x < w ∧ 0 ≤ y < h →
   ∃ r, get_node g x y = Some r ∧ hp' !! r = Some (Node.init x y) ∧
        ∀ x' y', get_node g x' y' = Some r → x' = x ∧ y' = y).
Proof.
  intros Hinit.
  destruct (GridNodes_init_Ok _ _ _ _ _ _ Hinit) as (Hw & Hh & Ew & Eh & -> & Hgrid).
  split.
  - rewrite get_node_None, Ew, Eh. done.
  - intros [Hx Hy]. exists (grid g x y).
    assert (Hlk : ∀ x' y', 0 ≤ x' < w → 0 ≤ y' < h →
              (hp ++ GridNodes_alloc w h) !! grid g x' y' = Some (Node.init x' y')).
    { intros x' y' Hx' Hy'. rewrite Hgrid, lookup_app_r by lia.
      replace (length hp + Z.to_nat (x' * h + y') - length hp)%nat
        with (Z.to_nat (x' * h + y')) by lia.
      by apply GridNodes_alloc_lookup. }
    split; [|split].
    + apply get_node_Some. rewrite Ew, Eh. done.
    + by apply Hlk.
    + intros x' y' [[Hx' Hy'] Heq]%get_node_Some. rewrite Ew, Eh in *.
      pose proof (Hlk x y Hx Hy) as H1. pose proof (Hlk x' y' Hx' Hy') as H2.
      rewrite Heq in H1. rewrite H1 in H2. by injection H2 as -> ->.
Qed.

Lemma get_node_spec_witness :
  (get_node (grid_nodes session15) 2 2 = None ↔ ¬ (0 ≤ 2 < 15 ∧ 0 ≤ 2 < 15)) ∧
  (0 ≤ 2 < 15 ∧ 0 ≤ 2 < 15 →
   ∃ r, get_node (grid_nodes session15) 2 2 = Some r ∧
        ([] ++ GridNodes_alloc 15 15) !! r = Some (Node.init 2 2) ∧
        ∀ x' y', get_node (grid_nodes session15) x' y' = Some r → x' = 2 ∧ y' = 2).
Proof. apply (get_node_spec numpy64 [] _ 15 15). reflexivity. Defined.

(** ** The open list: sorting and extraction *)

Lemma lt_false_key_le (a b : Node.t) : Node.lt b a = false ↔ key_le a b.
Proof.
  unfold Node.lt, key_le.
  destruct (Node.F_cost b =? Node.F_cost a) eqn:E.
  - apply Z.eqb_eq in E. rewrite Z.ltb_ge. lia.
  - apply Z.eqb_neq in E. rewrite Z.ltb_ge. lia.
Qed.

Lemma lt_true_key_le (a b : Node.t) : Node.lt a b = true → key_le a b.
Proof.
  unfold Node.lt, key_le.
  destruct (Node.F_cost a =? Node.F_cost b) eqn:E.
  - apply Z.eqb_eq in E. rewrite Z.ltb_lt. lia.
  - apply Z.eqb_neq in E. rewrite Z.ltb_lt. lia.
Qed.

Lemma key_le_trans (a b c : Node.t) : key_le a b → key_le b c → key_le a c.
Proof. unfold key_le. lia. Qed.

Lemma key_le_refl (a : Node.t) : key_le a a.
Proof. unfold key_le. lia. Qed.

Lemma sort_insert_perm (hp : heap) (a : ref) (l : list ref) :
  sort_insert hp a l ≡ₚ a :: l.
Proof.
  induction l as [|b l IH]; simpl; [done|].
  destruct (Node.lt (deref hp b) (deref hp a)); [|done].
  rewrite IH. apply Permutation_swap.
Qed.

Lemma sort_perm (hp : heap) (l : list ref) : sort hp l ≡ₚ l.
Proof.
  induction l as [|a l IH]; simpl; [done|].
  rewrite sort_insert_perm. by rewrite IH.
Qed.

Lemma sort_insert_head_min (hp : heap) (a : ref) (l : list ref) :
  head_min hp l → head_min hp (sort_insert hp a l).
Proof.
  destruct l as [|b l]; simpl; [intros _ r Hr; by apply elem_of_nil in Hr|].
  intros Hmin. destruct (Node.lt (deref hp b) (deref hp a)) eqn:E; simpl.
  - intros r Hr. rewrite sort_insert_perm in Hr.
    apply elem_of_cons in Hr as [->|Hr]; [by apply lt_true_key_le|by apply Hmin].
  - apply lt_false_key_le in E.
    intros r [->|Hr]%elem_of_cons; [done|].
    eapply key_le_trans; [exact E|by apply Hmin].
Qed.

Lemma sort_head_min (hp : heap) (l : list ref) : head_min hp (sort hp l).
Proof.
  induction l as [|a l IH]; simpl; [done|]. by apply sort_insert_head_min.
Qed.

(** C5: the node that [sort] followed by [pop(0)] extracts from the open
    list is one of its nodes, the others stay, and no node of the open list
    has a strictly smaller [(F_cost, g_cost)] pair: [__lt__] holds for none
    of them against the extracted node. *)
Theorem extract_minimal (self self' : A_Star) (current_node : ref) :
  extract self = Some (current_node, self') →
  current_node :: openList self' ≡ₚ openList self ∧
  store self' = store self ∧
  ∀ r, r ∈ openList self →
       Node.lt (deref (store self) r) (deref (store self) current_node) = false
       ∧ key_le (deref (store self) current_node) (deref (store self) r).
Proof.
  unfold extract. intros Hex.
  pose proof (sort_perm (store self) (openList self)) as Hperm.
  pose proof (sort_head_min (store self) (openList self)) as Hmin.
  destruct (sort (store self) (openList self)) as [|c rest]; [done|].
  injection Hex as <- <-. simpl. split; [done|]. split; [done|].
  intros r Hr. rewrite <- Hperm in Hr.
  assert (key_le (deref (store self) c) (deref (store self) r)) as Hle.
  { apply elem_of_cons in Hr as [->|Hr]; [apply key_le_refl|by apply Hmin]. }
  split; [by apply lt_false_key_le|done].
Qed.

(** Extraction succeeds on every non-empty open list. *)
Lemma extract_total (self : A_Star) :
  openList self ≠ [] → is_Some (extract self).
Proof.
  unfold extract. intros Hne.
  pose proof (sort_perm (store self) (openList self)) as Hperm.
  destruct (sort (store self) (openList self)); [|by eexists].
  apply Permutation_nil_l in Hperm. done.
Qed.

(** ** The idle states and the registry of blocked cells *)

Lemma deref_app_l (hp extra : heap) (r : ref) :
  (r < length hp)%nat → deref (hp ++ extra) r = deref hp r.
Proof. intros Hlt. unfold deref. by rewrite lookup_app_l. Qed.

Lemma deref_app_new (hp : heap) (n : Node.t) : deref (hp ++ [n]) (length hp) = n.
Proof.
  unfold deref. rewrite lookup_app_r by lia. by rewrite Nat.sub_diag.
Qed.

Lemma list_remove_subseteq (r : ref) (l : list ref) : list_remove r l ⊆ l.
Proof.
  induction l as [|a l IH]; simpl; [done|].
  destruct (Nat.eqb a r).
  - intros b Hb. by right.
  - intros b [->|Hb]%elem_of_cons; [left|right; by apply IH].
Qed.

Section IdleStore.
Context (w h : Z) (start goal : Z * Z) (self : A_Star).
Context (Hinv : idle_inv w h start goal self).

Lemma idle_store_len : (S (S (Z.to_nat (w * h))) ≤ length (store self))%nat.
Proof.
  destruct Hinv. destruct idle_store0 as [extra ->].
  rewrite !length_app, GridNodes_alloc_length by lia. simpl. lia.
Qed.

Lemma idle_deref_start :
  deref (store self) (start_node self) = Node.init start.1 start.2.
Proof.
  destruct Hinv. destruct idle_store0 as [extra ->]. rewrite idle_start0.
  apply deref_lookup. rewrite lookup_app_r by (rewrite GridNodes_alloc_length; lia).
  rewrite GridNodes_alloc_length, Nat.sub_diag by lia. done.
Qed.

Lemma idle_deref_end :
  deref (store self) (end_node self) = Node.init goal.1 goal.2.
Proof.
  destruct Hinv. destruct idle_store0 as [extra ->]. rewrite idle_end0.
  apply deref_lookup. rewrite lookup_app_r by (rewrite GridNodes_alloc_length; lia).
  rewrite GridNodes_alloc_length by lia.
  replace (S (Z.to_nat (w * h)) - Z.to_nat (w * h))%nat with 1%nat by lia. done.
Qed.

Lemma idle_deref_cell (x y : Z) :
  0 ≤ x < w → 0 ≤ y < h →
  deref (store self) (Z.to_nat (x * h + y)) = Node.init x y.
Proof.
  intros Hx Hy. destruct Hinv. destruct idle_store0 as [extra ->].
  apply deref_lookup. rewrite lookup_app_l.
  - by apply GridNodes_alloc_lookup.
  - rewrite GridNodes_alloc_length by lia. nia.
Qed.
End IdleStore.

Lemma main_Ok (np_empty : Z → Z → option exn) (w h : Z) (start goal : Z * Z)
    (self : A_Star) :
  main np_empty w h start goal = Ok self →
  0 < w ∧ 0 < h ∧ self = session w h start goal.
Proof.
  unfold main, GridNodes_init.
  destruct ((w <? 0) || (h <? 0)) eqn:Eneg; [done|].
  destruct (np_empty w h); [done|].
  unfold res_bind, A_Star_init.
  match goal with |- (if ?c then _ else _) = _ → _ => destruct c eqn:Eidx end; [|done].
  apply andb_prop in Eidx as [E1 _]. unfold squares_index_ok in E1.
  cbn [grid_nodes width height] in E1.
  assert (0 < w ∧ 0 < h) as [Hw Hh] by lia.
  intros [= <-]. split; [done|]. split; [done|].
  cbn [length app]. rewrite <- app_assoc. cbn [app].
  rewrite length_app, GridNodes_alloc_length by lia. cbn [length].
  unfold session. f_equal; lia.
Qed.

Lemma main_session15 : main numpy64 15 15 (2, 2) (12, 12) = Ok session15.
Proof. reflexivity. Qed.

Lemma main_idle_inv (np_empty : Z → Z → option exn) (w h : Z) (start goal : Z * Z)
    (self : A_Star) :
  main np_empty w h start goal = Ok self → idle_inv w h start goal self.
Proof.
  intros (Hw & Hh & ->)%main_Ok. unfold session.
  split; cbn [store grid_nodes start_node end_node bloc_nodes openList closedSet
              iter_ A_started]; try done.
  - by exists [].
  - intros b Hb. by apply elem_of_nil in Hb.
Qed.

Lemma andb_eqb_false (a b i j : Z) :
  (a =? i) && (b =? j) = false → (i, j) ≠ (a, b).
Proof. intros Hf [= -> ->]. rewrite !Z.eqb_refl in Hf. done. Qed.

Lemma andb_eqb_true (a b i j : Z) :
  (a =? i) && (b =? j) = true → a = i ∧ b = j.
Proof. lia. Qed.

Lemma click_idle_inv (w h : Z) (start goal : Z * Z) (self self' : A_Star) (i j : Z) :
  idle_inv w h start goal self →
  _click_square self i j = Ok self' →
  idle_inv w h start goal self'.
Proof.
  intros Hinv. unfold _click_square.
  rewrite (idle_deref_end _ _ _ _ _ Hinv), (idle_deref_start _ _ _ _ _ Hinv).
  cbn [Node.x Node.y Node.init].
  destruct ((goal.1 =? i) && (goal.2 =? j)) eqn:Eg; [by intros [= <-]|].
  destruct ((start.1 =? i) && (start.2 =? j)) eqn:Es; [by intros [= <-]|].
  destruct (squares_index_ok self i j); [|done].
  intros [= <-]. pose proof (idle_store_len _ _ _ _ _ Hinv) as Hlen.
  destruct Hinv.
  split; cbn [store grid_nodes start_node end_node bloc_nodes openList closedSet
              iter_ A_started set_bloc_nodes set_store]; try done.
  - destruct idle_store0 as [extra ->]. exists (extra ++ [Node.init i j]).
    by rewrite <- !app_assoc.
  - intros b [Hb| ->%list_elem_of_singleton]%elem_of_app.
    + destruct (idle_bloc0 b Hb) as (Hrange & Hs & Hg).
      rewrite deref_app_l by lia. rewrite length_app. cbn [length].
      split; [lia|done].
    + rewrite deref_app_new, length_app. cbn [length Node.x Node.y Node.init].
      split; [lia|]. apply andb_eqb_false in Eg, Es.
      destruct start, goal. done.
Qed.

Lemma unclick_idle_inv (w h : Z) (start goal : Z * Z) (self self' : A_Star) (i j : Z) :
  idle_inv w h start goal self →
  _unclick_square self i j = Ok self' →
  idle_inv w h start goal self'.
Proof.
  intros Hinv. unfold _unclick_square.
  destruct (_ && _); [by intros [= <-]|].
  destruct (_ && _); [by intros [= <-]|].
  destruct (find _ _) as [node|]; [|by intros [= <-]].
  destruct (squares_index_ok self i j); [|done].
  intros [= <-]. destruct Hinv.
  split; cbn [store grid_nodes start_node end_node bloc_nodes openList closedSet
              iter_ A_started set_bloc_nodes set_store]; try done.
  intros b Hb%list_remove_subseteq. by apply idle_bloc0.
Qed.

Lemma handle_mouse_idle_inv (w h : Z) (start goal : Z * Z) (self : A_Star)
    (event : MouseEvent) :
  idle_inv w h start goal self → idle_inv w h start goal (handle_mouse self event).
Proof.
  intros Hinv. unfold handle_mouse, _mouse_button_press.
  destruct (ev_pos event) as [[i j]|]; [|done].
  destruct (A_started self); [done|].
  destruct ((ev_button event =? 1) && ev_inaxes event) eqn:E1.
  - assert ((ev_button event =? 3) && ev_inaxes event = false) as -> by lia.
    destruct (_click_square self i j) as [s1|e] eqn:Hc; cbn [res_bind]; [|done].
    by eapply click_idle_inv.
  - cbn [res_bind]. destruct ((ev_button event =? 3) && ev_inaxes event); [|done].
    destruct (_unclick_square self i j) as [s2|e] eqn:Hu; [|done].
    by eapply unclick_idle_inv.
Qed.

Lemma idle_idle_inv (self : A_Star) :
  idle self → ∃ w h start goal, idle_inv w h start goal self.
Proof.
  induction 1 as [np w h start goal self Hmain|self event _ (w & h & start & goal & IH)].
  - exists w, h, start, goal. by eapply main_idle_inv.
  - exists w, h, start, goal. by apply handle_mouse_idle_inv.
Qed.

(** C8: in every idle state, clicking the square of the start or of the end
    node leaves the whole state (and so the list of blocked nodes) as it was,
    and no blocked node has the coordinates of the start or of the end
    node. *)
Theorem click_start_goal_noop (self : A_Star) (i j : Z) :
  idle self →
  (i = Node.x (deref (store self) (start_node self))
   ∧ j = Node.y (deref (store self) (start_node self)))
  ∨ (i = Node.x (deref (store self) (end_node self))
     ∧ j = Node.y (deref (store self) (end_node self))) →
  _click_square self i j = Ok self
  ∧ ∀ b, b ∈ bloc_nodes self →
         ¬ same_xy (store self) b (start_node self)
         ∧ ¬ same_xy (store self) b (end_node self).
Proof.
  intros (w & h & start & goal & Hinv)%idle_idle_inv Hij. split.
  - unfold _click_square.
    destruct ((Node.x (deref (store self) (end_node self)) =? i)
              && (Node.y (deref (store self) (end_node self)) =? j)) eqn:Eg; [done|].
    destruct ((Node.x (deref (store self) (start_node self)) =? i)
              && (Node.y (deref (store self) (start_node self)) =? j)) eqn:Es; [done|].
    lia.
  - intros b Hb. unfold same_xy.
    rewrite (idle_deref_end _ _ _ _ _ Hinv), (idle_deref_start _ _ _ _ _ Hinv).
    cbn [Node.x Node.y Node.init].
    destruct (idle_bloc _ _ _ _ _ Hinv b Hb) as (_ & Hs & Hg).
    destruct start, goal. split; intros [? ?]; [apply Hs|apply Hg]; by f_equal.
Qed.

Lemma click_start_goal_noop_witness :
  _click_square (handle_mouse session15 (left_click 5 5)) 2 2
  = Ok (handle_mouse session15 (left_click 5 5))
  ∧ ∀ b, b ∈ bloc_nodes (handle_mouse session15 (left_click 5 5)) →
         ¬ same_xy (store (handle_mouse session15 (left_click 5 5))) b
             (start_node (handle_mouse session15 (left_click 5 5)))
         ∧ ¬ same_xy (store (handle_mouse session15 (left_click 5 5))) b
               (end_node (handle_mouse session15 (left_click 5 5))).
Proof.
  apply (click_start_goal_noop (handle_mouse session15 (left_click 5 5)) 2 2).
  - apply idle_mouse. apply (idle_main numpy64 15 15 (2, 2) (12, 12)). reflexivity.
  - left. split; reflexivity.
Defined.

(** ** Neighbour enumeration *)

Section Neighbours.
Context `{PyHash}.

Lemma get_valid_nodes_loop_is_Some (self : A_Star) (current_node : ref)
    (ijs : list (Z * Z)) (acc vs : list (option ref)) :
  Forall is_Some acc →
  get_valid_nodes_loop self current_node ijs acc = Ok vs →
  Forall is_Some vs.
Proof.
  revert acc. induction ijs as [|[i j] ijs IH]; intros acc Hacc; simpl.
  - by intros [= <-].
  - destruct ((i =? 0) && (j =? 0)); [by apply IH|].
    destruct (get_node _ _ _) as [e|] eqn:Hget; [|by apply IH].
    destruct (set_contains _ _ e) as [[|]|]; simpl; [by apply IH| |done].
    destruct (is_bloc _ _ e); [by apply IH|].
    apply IH. apply Forall_app. split; [done|]. by repeat constructor.
Qed.

Lemma visit_Some_Ok (self : A_Star) (current_node v : ref) :
  is_Some (match visit self current_node (Some v) with Ok s => Some s | Raise _ => None end).
Proof. unfold visit. destruct (negb _); by eexists. Qed.

Lemma visit_all_Some_Ok (self : A_Star) (current_node : ref) (vs : list (option ref)) :
  Forall is_Some vs → ∃ self', visit_all self current_node vs = Ok self'.
Proof.
  revert self. induction vs as [|v vs IH]; intros self Hvs; simpl; [by eexists|].
  apply Forall_cons in Hvs as [[r ->] Hvs].
  destruct (visit self current_node (Some r)) as [s1|e] eqn:Hv.
  - simpl. by apply IH.
  - pose proof (visit_Some_Ok self current_node r) as [? Hs]. by rewrite Hv in Hs.
Qed.

Lemma Node_hash_Raise (fuel : nat) (hp : heap) (r : ref) (e : exn) :
  Node_hash fuel hp r = Raise e → e = RecursionError.
Proof.
  revert r. induction fuel as [|fuel IH]; intros r; simpl; [by intros [= <-]|].
  destruct (Node.parent_node (deref hp r)) as [p|]; simpl; [|done].
  destruct (Node_hash fuel hp p) eqn:Hp; simpl; [done|].
  intros [= <-]. by eapply IH.
Qed.

Lemma set_contains_Raise (hp : heap) (s : pyset) (r : ref) (e : exn) :
  set_contains hp s r = Raise e → e = RecursionError.
Proof.
  unfold set_contains, hash_in. destruct (Node_hash _ hp r) eqn:Hh; simpl; [done|].
  intros [= <-]. by eapply Node_hash_Raise.
Qed.

Lemma set_add_Raise (hp : heap) (s : pyset) (r : ref) (e : exn) :
  set_add hp s r = Raise e → e = RecursionError.
Proof.
  unfold set_add, hash_add. destruct (Node_hash _ hp r) eqn:Hh; simpl; [done|].
  intros [= <-]. by eapply Node_hash_Raise.
Qed.

Lemma get_valid_nodes_loop_Raise (self : A_Star) (current_node : ref)
    (ijs : list (Z * Z)) (acc : list (option ref)) (e : exn) :
  get_valid_nodes_loop self current_node ijs acc = Raise e → e = RecursionError.
Proof.
  revert acc. induction ijs as [|[i j] ijs IH]; intros acc; simpl; [done|].
  destruct ((i =? 0) && (j =? 0)); [by apply IH|].
  destruct (get_node _ _ _) as [n|] eqn:Hget; [|by apply IH].
  destruct (set_contains _ _ n) as [[|]|e'] eqn:Hc; simpl; [by apply IH| |].
  - destruct (is_bloc _ _ n); by apply IH.
  - intros [= <-]. by eapply set_contains_Raise.
Qed.

(** C10: [get_valid_nodes] never returns a list with a [None] in it, so in
    no state does a pass of the loop of [run_A_star], or the loop as a
    whole, end in the exception raised for a [None] valid node. *)
Theorem no_None_valid_node (self : A_Star) (current_node : ref) :
  match get_valid_nodes self current_node with
  | Ok vs => Forall is_Some vs
  | Raise e => e ≠ NoValidNode
  end
  ∧ loop_body self ≠ Raise NoValidNode
  ∧ ∀ fuel, while_loop fuel self ≠ Raised NoValidNode.
Proof.
  assert (Hbody : ∀ s, loop_body s ≠ Raise NoValidNode).
  { intros s. unfold loop_body.
    destruct (extract s) as [[c s1]|]; [|done].
    destruct (_ && _); [done|].
    destruct (set_add _ _ c) as [cl|e] eqn:Hadd; simpl.
    2: { apply set_add_Raise in Hadd as ->. done. }
    destruct (get_valid_nodes _ c) as [vs|e] eqn:Hgv; simpl.
    2: { apply get_valid_nodes_loop_Raise in Hgv as ->. done. }
    apply get_valid_nodes_loop_is_Some in Hgv; [|done].
    destruct (visit_all_Some_Ok (set_closedSet cl s1) c vs Hgv) as [s2 ->]. done. }
  split; [|split; [done|]].
  - destruct (get_valid_nodes self current_node) as [vs|e] eqn:Hgv.
    + by eapply get_valid_nodes_loop_is_Some.
    + apply get_valid_nodes_loop_Raise in Hgv as ->. done.
  - intros fuel. revert self. induction fuel as [|fuel IH]; intros self; simpl; [done|].
    destruct (openList self); [done|].
    destruct (loop_body self) as [[s'|s' c]|e] eqn:Hb; [by apply IH|done|].
    intros [= ->]. by eapply Hbody.
Qed.

End Neighbours.

(** ** Starting the search *)

Lemma C2_counterexample :
  openList (push_start (set_A_started true session15))
    = [start_node session15]
  ∧ Node.h_cost (deref (store (push_start (set_A_started true session15)))
                       (start_node session15)) = 0
  ∧ get_distance (deref (store session15) (start_node session15))
                 (deref (store session15) (end_node session15)) = 20
  ∧ Node.h_cost (deref (store (push_start (set_A_started true session15)))
                       (start_node session15))
    ≠ get_distance (deref (store session15) (start_node session15))
                   (deref (store session15) (end_node session15)).
Proof. vm_compute. done. Qed.

(** C2 (amended): when the search starts from an idle state, the node pushed
    into the open list is the start node with [g_cost = 0], [parent_node =
    None] and [h_cost = 0], the value [Node.__init__] gave it; the heuristic
    towards the end node is not computed for it. *)
Theorem start_node_pushed (self : A_Star) :
  idle self →
  openList (push_start (set_A_started true self)) = [start_node self]
  ∧ Node.g_cost (deref (store (push_start (set_A_started true self))) (start_node self)) = 0
  ∧ Node.h_cost (deref (store (push_start (set_A_started true self))) (start_node self)) = 0
  ∧ Node.parent_node (deref (store (push_start (set_A_started true self))) (start_node self))
    = None.
Proof.
  intros (w & h & start & goal & Hinv)%idle_idle_inv.
  unfold push_start. cbn [openList store set_openList set_A_started start_node].
  rewrite (idle_open _ _ _ _ _ Hinv), (idle_deref_start _ _ _ _ _ Hinv). done.
Qed.

Lemma start_node_pushed_witness :
  openList (push_start (set_A_started true session15)) = [start_node session15]
  ∧ Node.g_cost (deref (store (push_start (set_A_started true session15)))
                       (start_node session15)) = 0
  ∧ Node.h_cost (deref (store (push_start (set_A_started true session15)))
                       (start_node session15)) = 0
  ∧ Node.parent_node (deref (store (push_start (set_A_started true session15)))
                            (start_node session15)) = None.
Proof.
  apply (start_node_pushed session15).
  apply (idle_main numpy64 15 15 (2, 2) (12, 12)). reflexivity.
Defined.

Lemma extract_minimal_witness :
  33%nat :: openList after_pass1_popped ≡ₚ openList after_pass1
  ∧ store after_pass1_popped = store after_pass1
  ∧ ∀ r, r ∈ openList after_pass1 →
         Node.lt (deref (store after_pass1) r) (deref (store after_pass1) 33%nat) = false
         ∧ key_le (deref (store after_pass1) 33%nat) (deref (store after_pass1) r).
Proof. apply (extract_minimal after_pass1 after_pass1_popped 33). reflexivity. Defined.

(** ** Hashing along parent chains *)

Section HashLemmas.
Context `{PyHash}.

Lemma Node_hash_mono (fuel fuel' : nat) (hp : heap) (r : ref) (v : Z) :
  (fuel ≤ fuel')%nat → Node_hash fuel hp r = Ok v → Node_hash fuel' hp r = Ok v.
Proof.
  revert fuel' r v. induction fuel as [|fuel IH]; intros fuel' r v Hle; simpl; [done|].
  destruct fuel' as [|fuel']; [lia|]. simpl.
  destruct (Node.parent_node (deref hp r)) as [p|]; simpl; [|done].
  destruct (Node_hash fuel hp p) as [vp|] eqn:Hp; simpl; [|done].
  rewrite (IH fuel' p vp) by (done || lia). done.
Qed.

Lemma chain_ok_parent (hp : heap) (s : pyset) (r p : ref) :
  chain_ok hp s → r ∈ members s →
  Node.parent_node (deref hp r) = Some p → p ∈ members s.
Proof.
  unfold members. induction s as [|[hv r0] s IH]; simpl; intros Hok Hr Hp.
  - by apply elem_of_nil in Hr.
  - destruct Hok as [Hhd Hok]. apply elem_of_cons in Hr as [->|Hr].
    + rewrite Hp in Hhd. by right.
    + right. by apply IH.
Qed.

Lemma chain_ok_hash (hp : heap) (s : pyset) (r : ref) :
  chain_ok hp s → r ∈ members s → ∃ v, Node_hash (length s) hp r = Ok v.
Proof.
  unfold members. revert r.
  induction s as [|[hv r0] s IH]; intros r Hok Hr.
  - by apply elem_of_nil in Hr.
  - destruct Hok as [Hhd Hok]. cbn [length].
    destruct (decide (r ∈ s.*2)) as [Hin|Hnin].
    + destruct (IH r Hok Hin) as [v Hv]. exists v.
      apply (Node_hash_mono (length s)); [lia|done].
    + apply elem_of_cons in Hr as [->|Hr]; [|done].
      cbn [snd] in Hhd |- *. cbn [Node_hash].
      destruct (Node.parent_node (deref hp r0)) as [p|]; simpl; [|by eexists].
      destruct (IH p Hok Hhd) as [v ->]. simpl. by eexists.
Qed.

(** A node whose parent, if any, is in the closed set can be hashed where
    there is room for one nested call more than the set has members. *)
Lemma hash_Ok (fuel : nat) (hp : heap) (s : pyset) (r : ref) :
  chain_ok hp s → (length s < fuel)%nat →
  match Node.parent_node (deref hp r) with
  | None => True
  | Some p => p ∈ members s
  end →
  ∃ v, Node_hash fuel hp r = Ok v.
Proof.
  intros Hok Hlen Hp. destruct fuel as [|fuel]; [lia|]. simpl.
  destruct (Node.parent_node (deref hp r)) as [p|]; simpl; [|by eexists].
  destruct (chain_ok_hash hp s p Hok Hp) as [v Hv].
  rewrite (Node_hash_mono (length s) fuel hp p v) by (done || lia).
  simpl. by eexists.
Qed.

(** Where two rooms both suffice, the hash is the same. *)
Lemma Node_hash_det (fuel fuel' : nat) (hp : heap) (r : ref) (v v' : Z) :
  Node_hash fuel hp r = Ok v → Node_hash fuel' hp r = Ok v' → v = v'.
Proof.
  intros Hv Hv'.
  pose proof (Node_hash_mono fuel (Nat.max fuel fuel') hp r v (Nat.le_max_l _ _) Hv) as H1.
  pose proof (Node_hash_mono fuel' (Nat.max fuel fuel') hp r v' (Nat.le_max_r _ _) Hv') as H2.
  congruence.
Qed.

(** The hash of a member of the closed set only depends on the members. *)
Lemma Node_hash_agree (fuel : nat) (hp hp' : heap) (s : pyset) (r : ref) :
  chain_ok hp s →
  (∀ q, q ∈ members s → deref hp' q = deref hp q) →
  r ∈ members s →
  Node_hash fuel hp' r = Node_hash fuel hp r.
Proof.
  intros Hok Hagree. revert r. induction fuel as [|fuel IH]; intros r Hr; simpl; [done|].
  rewrite (Hagree r Hr).
  destruct (Node.parent_node (deref hp r)) as [p|] eqn:Hp; simpl; [|done].
  rewrite IH; [done|]. by eapply chain_ok_parent.
Qed.

Lemma chain_ok_agree (hp hp' : heap) (s : pyset) :
  chain_ok hp s →
  (∀ q, q ∈ members s → deref hp' q = deref hp q) →
  chain_ok hp' s.
Proof.
  unfold members. induction s as [|[hv r0] s IH]; simpl; [done|].
  intros [Hhd Hok] Hagree. split.
  - rewrite Hagree by left. done.
  - apply IH; [done|]. intros q Hq. apply Hagree. by right.
Qed.

Lemma set_find_true (s : pyset) (hv : Z) (r : ref) :
  set_find s hv r = true ↔ (hv, r) ∈ s.
Proof.
  unfold set_find. rewrite existsb_exists. split.
  - intros ([hv' r'] & Hin & Heq). simpl in Heq.
    apply andb_prop in Heq as [->%Z.eqb_eq ->%Nat.eqb_eq].
    by apply list_elem_of_In.
  - intros Hin. exists (hv, r). split; [by apply list_elem_of_In|].
    simpl. by rewrite Z.eqb_refl, Nat.eqb_refl.
Qed.

Lemma set_find_not_member (s : pyset) (hv : Z) (r : ref) :
  r ∉ members s → set_find s hv r = false.
Proof.
  intros Hnin. destruct (set_find s hv r) eqn:E; [|done].
  apply set_find_true in E. exfalso. apply Hnin.
  unfold members. apply list_elem_of_fmap. by exists (hv, r).
Qed.

End HashLemmas.

(** ** The invariant of a run *)

Section RunInvariant.
Context `{PyHash}.
Context (w h : Z) (start goal : Z * Z).

Local Abbreviation n := (cells w h).
Local Abbreviation sinv := (state_inv w h start goal).
Local Abbreviation finv := (for_inv w h).

Lemma idle_deref_grid (self : A_Star) (r : ref) :
  idle_inv w h start goal self → (r < n)%nat →
  deref (store self) r = Node.init (Z.of_nat r `div` h) (Z.of_nat r `mod` h).
Proof.
  intros Hinv Hr. pose proof (idle_w _ _ _ _ _ Hinv) as Hw.
  pose proof (idle_h _ _ _ _ _ Hinv) as Hh. unfold cells in Hr.
  assert (0 ≤ Z.of_nat r `div` h < w).
  { split; [apply Z.div_pos; lia|]. apply Z.div_lt_upper_bound; lia. }
  assert (0 ≤ Z.of_nat r `mod` h < h) by (apply Z.mod_pos_bound; lia).
  rewrite <- (idle_deref_cell _ _ _ _ _ Hinv) by done.
  f_equal. rewrite (Z.mul_comm _ h), <- Z.div_mod by lia. lia.
Qed.

Lemma begin_state_inv (self : A_Star) :
  idle_inv w h start goal self →
  sinv (push_start (set_A_started true self)).
Proof.
  intros Hinv. pose proof (idle_deref_start _ _ _ _ _ Hinv) as Hst.
  pose proof (idle_deref_end _ _ _ _ _ Hinv) as Hen.
  pose proof (idle_store_len _ _ _ _ _ Hinv) as Hlen.
  pose proof (λ r, idle_deref_grid self r Hinv) as Hgrid.
  destruct Hinv. unfold push_start.
  rewrite idle_start0 in Hst. rewrite idle_end0 in Hen.
  fold n in Hst, Hen, Hlen, idle_start0, idle_end0.
  split; cbn [store grid_nodes start_node end_node bloc_nodes openList closedSet
              iter_ A_started set_openList set_A_started]; try done.
  - intros r Hr. by rewrite Hgrid.
  - by rewrite Hen.
  - rewrite idle_open0. apply NoDup_singleton.
  - rewrite idle_open0, idle_start0. intros r _. by right.
  - rewrite idle_open0, idle_start0. intros r ->%list_elem_of_singleton. lia.
  - rewrite idle_closed0. apply NoDup_nil_2.
  - rewrite idle_closed0. intros r Hr. by apply elem_of_nil in Hr.
  - rewrite idle_closed0. intros hv r Hr. by apply elem_of_nil in Hr.
  - by rewrite idle_closed0.
  - intros r p Hr. destruct (decide (r = n)) as [->|Hne].
    + by rewrite Hst.
    + rewrite Hgrid by lia. done.
  - intros r Hr _ _. by rewrite Hgrid.
Qed.


(** *** The effect of visiting one valid node *)

Lemma get_distance_xy (a a' b b' : Node.t) :
  Node.x a = Node.x a' → Node.y a = Node.y a' →
  Node.x b = Node.x b' → Node.y b = Node.y b' →
  get_distance a b = get_distance a' b'.
Proof. unfold get_distance. by intros -> -> -> ->. Qed.

Lemma adjacent_xy (a a' b b' : Node.t) :
  Node.x a = Node.x a' → Node.y a = Node.y a' →
  Node.x b = Node.x b' → Node.y b = Node.y b' →
  adjacent a b → adjacent a' b'.
Proof. unfold adjacent. by intros -> -> -> ->. Qed.

Lemma list_contains_true (l : list ref) (r : ref) :
  list_contains l r = true ↔ r ∈ l.
Proof.
  unfold list_contains. rewrite existsb_exists. split.
  - intros (a & Hin & ->%Nat.eqb_eq). by apply list_elem_of_In.
  - intros Hin. exists r. split; [by apply list_elem_of_In|apply Nat.eqb_refl].
Qed.

Lemma list_contains_false (l : list ref) (r : ref) :
  list_contains l r = false ↔ r ∉ l.
Proof.
  rewrite <- list_contains_true. by destruct (list_contains l r).
Qed.

(** What [visit] does to the state: only the visited node changes; its
    [g_cost] and [h_cost] are overwritten in any case, its parent is set and
    the node appended only when it is not yet in the open list. *)
Lemma visit_effect (self self' : A_Star) (current_node v : ref) :
  (v < length (store self))%nat → v ≠ current_node →
  visit self current_node (Some v) = Ok self' →
  (∀ r, r ≠ v → deref (store self') r = deref (store self) r)
  ∧ Node.x (deref (store self') v) = Node.x (deref (store self) v)
  ∧ Node.y (deref (store self') v) = Node.y (deref (store self) v)
  ∧ Node.g_cost (deref (store self') v)
    = Node.g_cost (deref (store self) current_node)
      + get_distance (deref (store self) current_node) (deref (store self) v)
  ∧ Node.h_cost (deref (store self') v)
    = get_distance (deref (store self) v) (deref (store self) (end_node self))
  ∧ (if list_contains (openList self) v
     then openList self' = openList self
          ∧ Node.parent_node (deref (store self') v)
            = Node.parent_node (deref (store self) v)
     else openList self' = openList self ++ [v]
          ∧ Node.parent_node (deref (store self') v) = Some current_node)
  ∧ length (store self') = length (store self)
  ∧ closedSet self' = closedSet self
  ∧ grid_nodes self' = grid_nodes self
  ∧ start_node self' = start_node self
  ∧ end_node self' = end_node self
  ∧ bloc_nodes self' = bloc_nodes self
  ∧ iter_ self' = iter_ self
  ∧ A_started self' = A_started self.
Proof.
  intros Hlt Hne. unfold visit.
  set (hp := store self). change (v < length hp)%nat in Hlt.
  set (hp1 := assign _ v hp).
  set (hp2 := assign _ v hp1).
  assert (Hd1 : deref hp1 v = Node.set_g_cost
                  (Node.g_cost (deref hp current_node)
                   + get_distance (deref hp current_node) (deref hp v)) (deref hp v)).
  { unfold hp1. by rewrite deref_assign_eq. }
  assert (Hl1 : length hp1 = length hp) by apply length_assign.
  assert (Hend : get_distance (deref hp1 v) (deref hp1 (end_node self))
                 = get_distance (deref hp v) (deref hp (end_node self))).
  { destruct (decide (v = end_node self)) as [<-|Hve].
    - rewrite Hd1. done.
    - unfold hp1 at 2. rewrite deref_assign_ne by done. rewrite Hd1. done. }
  assert (Hd2 : deref hp2 v = Node.set_h_cost
                  (get_distance (deref hp v) (deref hp (end_node self))) (deref hp1 v)).
  { unfold hp2. rewrite deref_assign_eq by lia. by rewrite Hend. }
  assert (Hl2 : length hp2 = length hp) by (unfold hp2; by rewrite length_assign).
  assert (Ho2 : ∀ r, r ≠ v → deref hp2 r = deref hp r).
  { intros r Hr. unfold hp2, hp1. by rewrite !deref_assign_ne. }
  destruct (list_contains (openList self) v) eqn:Hc; cbn [negb]; intros [= <-];
    cbn [store openList closedSet grid_nodes start_node end_node bloc_nodes iter_
         A_started set_store set_openList].
  - rewrite Hd2, Hd1. cbn. repeat split; try done.
  - rewrite deref_assign_eq by lia. rewrite Hd2, Hd1, length_assign. cbn.
    repeat split; try done.
    intros r Hr. rewrite deref_assign_ne by done. by apply Ho2.
Qed.


Lemma hash_agree (hp hp' : heap) (s : pyset) (r : ref) :
  chain_ok hp s →
  (∀ q, q ∈ members s → deref hp' q = deref hp q) →
  r ∈ members s → hash_add hp' r = hash_add hp r.
Proof. intros Hok Hagree Hr. unfold hash_add. by eapply Node_hash_agree. Qed.

Lemma elem_of_members (s : pyset) (hv : Z) (r : ref) :
  (hv, r) ∈ s → r ∈ members s.
Proof. intros Hin. unfold members. apply list_elem_of_fmap. by exists (hv, r). Qed.

Lemma visit_inv (self self' : A_Star) (current_node v : ref) (rest : list (option ref)) :
  sinv self → finv self current_node (Some v :: rest) →
  visit self current_node (Some v) = Ok self' →
  sinv self' ∧ finv self' current_node rest.
Proof.
  intros Hs Hf Hv.
  destruct (fi_rest _ _ _ _ _ Hf (Some v)) as (v' & [= <-] & Hvn & Hvc & Hadj); [left|].
  pose proof (fi_cur _ _ _ _ _ Hf) as Hcur.
  assert (Hvcur : v ≠ current_node) by (intros ->; done).
  pose proof (si_len _ _ _ _ _ Hs) as Hlen.
  destruct (visit_effect self self' current_node v) as
    (Hoth & Hx & Hy & Hg & Hh & Hopen & Hlen' & Hcl & Hgr & Hst & Hen & Hbl & Hit & Has);
    [lia|done|done|].
  assert (Hmem : ∀ q, q ∈ members (closedSet self) →
                      deref (store self') q = deref (store self) q).
  { intros q Hq. apply Hoth. by intros ->. }
  assert (Hxy : ∀ r, Node.x (deref (store self') r) = Node.x (deref (store self) r)
                     ∧ Node.y (deref (store self') r) = Node.y (deref (store self) r)).
  { intros r. destruct (decide (r = v)) as [->|Hr]; [done|]. by rewrite Hoth. }
  assert (Hopen' : ∀ r, r ∈ openList self' ↔ r ∈ openList self ∨ r = v).
  { intros r. destruct (list_contains (openList self) v) eqn:Hc.
    - destruct Hopen as [-> _]. apply list_contains_true in Hc.
      split; [by left|]. intros [?| ->]; done.
    - destruct Hopen as [-> _]. rewrite elem_of_app, list_elem_of_singleton. done. }
  assert (Hne : closedSet self ≠ []).
  { intros Hnil. rewrite Hnil in Hcur. by apply elem_of_nil in Hcur. }
  split.
  - destruct Hs. split; rewrite ?Hcl, ?Hgr, ?Hst, ?Hen, ?Hlen'; try done.
    + intros r Hr. destruct (Hxy r) as [-> ->]. by apply si_cell0.
    + rewrite Hoth by lia. done.
    + destruct (Hxy (S n)) as [-> ->]. done.
    + destruct (list_contains (openList self) v) eqn:Hc; destruct Hopen as [-> _]; [done|].
      apply list_contains_false in Hc. apply NoDup_app. split; [done|].
      split; [|apply NoDup_singleton].
      intros r Hr ->%list_elem_of_singleton. done.
    + intros r [Hr| ->]%Hopen'; [|by left].
      destruct (si_open_refs0 r Hr) as [?|[_ ?]]; [by left|done].
    + intros r Hr Hrn.
      rewrite (get_distance_xy (deref (store self') r) (deref (store self) r)
                 (deref (store self') (S n)) (deref (store self) (S n)));
        try apply Hxy.
      destruct (decide (r = v)) as [->|Hrv].
      * rewrite Hh, si_end0. done.
      * rewrite Hoth by done. apply Hopen' in Hr as [Hr|?]; [|done].
        by apply si_open_h0.
    + intros r Hr. destruct (si_closed_refs0 r Hr) as [Hle Hnin].
      split; [done|]. intros [?| ->]%Hopen'; done.
    + intros hv r Hr. rewrite <- (si_closed_hash0 hv r Hr).
      eapply hash_agree; [done|done|]. by eapply elem_of_members.
    + by eapply chain_ok_agree.
    + intros r p Hr Hp. destruct (decide (r = v)) as [->|Hrv].
      * destruct (list_contains (openList self) v) eqn:Hc; destruct Hopen as [_ Hpar].
        -- rewrite Hpar in Hp. destruct (si_parent0 v p Hr Hp) as [Hpm Hpadj].
           split; [done|]. eapply adjacent_xy; [..|exact Hpadj]; symmetry; apply Hxy.
        -- rewrite Hpar in Hp. injection Hp as <-. split; [done|].
           eapply adjacent_xy; [..|exact Hadj]; symmetry; apply Hxy.
      * rewrite Hoth in Hp by done. destruct (si_parent0 r p Hr Hp) as [Hpm Hpadj].
        split; [done|]. eapply adjacent_xy; [..|exact Hpadj]; symmetry; apply Hxy.
    + intros r Hr Hno Hnc. assert (r ≠ v) as Hrv.
      { intros ->. apply Hno, Hopen'. by right. }
      rewrite Hoth by done. apply si_fresh0; [done| |done].
      intros Hin. apply Hno, Hopen'. by left.
  - destruct Hf. split; rewrite ?Hcl; [done| |by apply NoDup_cons in fi_nodup0 as [_ ?]].
    intros o Ho. destruct (fi_rest0 o) as (r & -> & Hrn & Hrc & Hradj); [by right|].
    exists r. repeat split; try done.
    eapply adjacent_xy; [..|exact Hradj]; symmetry; apply Hxy.
Qed.


(** *** The valid nodes of a pass *)

Lemma get_valid_nodes_loop_spec (self : A_Star) (current_node : ref)
    (ijs : list (Z * Z)) (acc vs : list (option ref)) :
  get_valid_nodes_loop self current_node ijs acc = Ok vs →
  ∃ l, vs = acc ++ (Some <$> l)
       ∧ l `sublist_of` omap (neighbour self current_node) ijs
       ∧ ∀ r, r ∈ l →
           ∃ ij, ij ∈ ijs ∧ ij ≠ (0, 0)
                 ∧ neighbour self current_node ij = Some r
                 ∧ set_contains (store self) (closedSet self) r = Ok false
                 ∧ is_bloc (store self) (bloc_nodes self) r = false.
Proof.
  revert acc. induction ijs as [|[i j] ijs IH]; intros acc; cbn [get_valid_nodes_loop].
  - intros [= <-]. exists []. rewrite app_nil_r. split; [done|]. split; [done|].
    intros r Hr. by apply elem_of_nil in Hr.
  - assert (Hskip : ∀ l,
      l `sublist_of` omap (neighbour self current_node) ijs →
      l `sublist_of` omap (neighbour self current_node) ((i, j) :: ijs)).
    { intros l Hl. cbn [omap list_omap].
      destruct (neighbour self current_node (i, j)); [by apply sublist_cons|done]. }
    assert (Hrec : ∀ acc', get_valid_nodes_loop self current_node ijs acc' = Ok vs →
      ∃ l, vs = acc' ++ (Some <$> l)
           ∧ l `sublist_of` omap (neighbour self current_node) ((i, j) :: ijs)
           ∧ ∀ r, r ∈ l →
               ∃ ij, ij ∈ (i, j) :: ijs ∧ ij ≠ (0, 0)
                     ∧ neighbour self current_node ij = Some r
                     ∧ set_contains (store self) (closedSet self) r = Ok false
                     ∧ is_bloc (store self) (bloc_nodes self) r = false).
    { intros acc' (l & -> & Hsub & Hall)%IH. exists l. split; [done|].
      split; [by apply Hskip|]. intros r (ij & ? & ?)%Hall. exists ij.
      split; [by right|done]. }
    destruct ((i =? 0) && (j =? 0)) eqn:E0; [by apply Hrec|].
    change (get_node (grid_nodes self)
              (Node.x (deref (store self) current_node) + i)
              (Node.y (deref (store self) current_node) + j))
      with (neighbour self current_node (i, j)).
    destruct (neighbour self current_node (i, j)) as [e|] eqn:Hn; [|by apply Hrec].
    destruct (set_contains _ _ e) as [[|]|] eqn:Hc; cbn [res_bind];
      [by apply Hrec| |done].
    destruct (is_bloc _ _ e) eqn:Hb; [by apply Hrec|].
    intros (l & -> & Hsub & Hall)%IH. exists (e :: l).
    split; [by rewrite <- app_assoc|]. split.
    + cbn [omap list_omap]. rewrite Hn. by apply sublist_skip.
    + intros r [->|Hr]%elem_of_cons.
      * exists (i, j). split; [left|]. split; [|done].
        intros [= -> ->]. done.
      * destruct (Hall r Hr) as (ij & ? & ?). exists ij. split; [by right|done].
Qed.


Lemma offsets_eq :
  offsets = [(-1, -1); (-1, 0); (-1, 1); (0, -1); (0, 0); (0, 1); (1, -1); (1, 0); (1, 1)].
Proof. reflexivity. Qed.

Lemma offsets_range (ij : Z * Z) :
  ij ∈ offsets → -1 ≤ ij.1 ≤ 1 ∧ -1 ≤ ij.2 ≤ 1.
Proof.
  rewrite offsets_eq. rewrite !elem_of_cons, elem_of_nil.
  intros Hij. destruct_or!; subst; simpl; lia.
Qed.

Lemma offsets_NoDup : NoDup offsets.
Proof.
  rewrite offsets_eq. apply (bool_decide_unpack _). by vm_compute.
Qed.

Lemma cell_div_mod (x y : Z) :
  0 < h → 0 ≤ x → 0 ≤ y < h →
  Z.of_nat (Z.to_nat (x * h + y)) `div` h = x
  ∧ Z.of_nat (Z.to_nat (x * h + y)) `mod` h = y.
Proof.
  intros Hh Hx Hy. rewrite Z2Nat.id by nia.
  rewrite Z.add_comm. rewrite Z.div_add, Z.mod_add by lia.
  rewrite Z.div_small, Z.mod_small by lia. lia.
Qed.

Lemma neighbour_Some (self : A_Star) (current_node r : ref) (ij : Z * Z) :
  sinv self → neighbour self current_node ij = Some r →
  (r < n)%nat
  ∧ Node.x (deref (store self) r) = Node.x (deref (store self) current_node) + ij.1
  ∧ Node.y (deref (store self) r) = Node.y (deref (store self) current_node) + ij.2.
Proof.
  intros Hs. unfold neighbour. rewrite (si_grid _ _ _ _ _ Hs).
  intros [[Hx Hy] ->]%get_node_Some. cbn [width height grid] in *.
  pose proof (si_h _ _ _ _ _ Hs) as Hh.
  set (x := Node.x (deref (store self) current_node) + ij.1) in *.
  set (y := Node.y (deref (store self) current_node) + ij.2) in *.
  assert (Hr : (0 + Z.to_nat (x * h + y) < n)%nat) by (unfold cells; nia).
  split; [done|].
  destruct (si_cell _ _ _ _ _ Hs _ Hr) as [-> ->].
  cbn [Nat.add]. apply cell_div_mod; lia.
Qed.

Lemma neighbour_inj (self : A_Star) (current_node r : ref) (ij ij' : Z * Z) :
  sinv self →
  neighbour self current_node ij = Some r →
  neighbour self current_node ij' = Some r →
  ij = ij'.
Proof.
  intros Hs (_ & Hx & Hy)%neighbour_Some (_ & Hx' & Hy')%neighbour_Some; try done.
  destruct ij, ij'. simpl in *. f_equal; lia.
Qed.

Lemma NoDup_omap_inj {A B} (f : A → option B) (l : list A) :
  (∀ a a' b, f a = Some b → f a' = Some b → a = a') →
  NoDup l → NoDup (omap f l).
Proof.
  intros Hinj. induction 1 as [|a l Hnin Hnd IH]; cbn [omap list_omap]; [constructor|].
  destruct (f a) as [b|] eqn:Hfa; [|done].
  constructor; [|done].
  intros (a' & Hin & Hfa')%list_elem_of_omap.
  by rewrite (Hinj a a' b Hfa Hfa') in Hnin.
Qed.


(** *** Taking the current node and closing it *)

Lemma extract_Some (self self' : A_Star) (current_node : ref) :
  extract self = Some (current_node, self') →
  ∃ rest, sort (store self) (openList self) = current_node :: rest
          ∧ self' = set_openList rest self.
Proof.
  unfold extract. destruct (sort _ _) as [|c rest]; [done|].
  intros [= <- <-]. by exists rest.
Qed.


(** A node that comes out of the open list is not yet in the closed set:
    it is added to it, unless hashing it raises, which takes a closed set
    with as many members as there is room for nested calls. *)
Lemma set_add_current (self : A_Star) (r : ref) :
  sinv self → r ∈ openList self →
  (∃ hv, hash_add (store self) r = Ok hv
         ∧ set_add (store self) (closedSet self) r = Ok ((hv, r) :: closedSet self))
  ∨ (set_add (store self) (closedSet self) r = Raise RecursionError
     ∧ (hash_depth_add ≤ length (closedSet self))%nat).
Proof.
  intros Hs Hr.
  assert (Hrn : (r ≤ n)%nat).
  { destruct (si_open_refs _ _ _ _ _ Hs r Hr) as [?|[Ho _]]; [lia|].
    rewrite Ho in Hr. apply list_elem_of_singleton in Hr. lia. }
  assert (Hnc : r ∉ members (closedSet self)).
  { intros Hc. by destruct (si_closed_refs _ _ _ _ _ Hs r Hc). }
  unfold set_add. destruct (hash_add (store self) r) as [hv|e] eqn:Hhv; cbn [res_bind].
  - left. exists hv. split; [done|]. by rewrite set_find_not_member.
  - right. rewrite (Node_hash_Raise _ _ _ _ Hhv). split; [done|].
    destruct (decide (length (closedSet self) < hash_depth_add)%nat) as [Hlt|?]; [|lia].
    destruct (hash_Ok hash_depth_add (store self) (closedSet self) r) as [hv Hok'];
      [by apply (si_chain _ _ _ _ _ Hs)|done| |unfold hash_add in Hhv; congruence].
    destruct (Node.parent_node (deref (store self) r)) as [p|] eqn:Hp; [|done].
    by destruct (si_parent _ _ _ _ _ Hs r p Hrn Hp).
Qed.

(** A lookup in the closed set answers by identity when it answers. *)
Lemma set_contains_Ok (self : A_Star) (r : ref) (b : bool) :
  sinv self →
  set_contains (store self) (closedSet self) r = Ok b →
  b = bool_decide (r ∈ members (closedSet self)).
Proof.
  intros Hs. unfold set_contains.
  destruct (hash_in (store self) r) as [hv|] eqn:Hhv; cbn [res_bind]; [|done].
  intros [= <-]. case_bool_decide as Hm.
  - unfold members in Hm. apply list_elem_of_fmap in Hm as ([hv' r'] & -> & Hin).
    cbn [snd] in *. pose proof (si_closed_hash _ _ _ _ _ Hs hv' r' Hin) as Hst.
    rewrite (Node_hash_det _ _ _ _ _ _ Hhv Hst). by apply set_find_true.
  - by apply set_find_not_member.
Qed.

Lemma set_contains_member (self : A_Star) (r : ref) (b : bool) :
  sinv self → r ∈ members (closedSet self) →
  set_contains (store self) (closedSet self) r = Ok b → b = true.
Proof.
  intros Hs Hr Hc. rewrite (set_contains_Ok self r b Hs Hc).
  by apply bool_decide_eq_true_2.
Qed.

(** The lookup of a grid node raises only where the closed set has as many
    members as there is room for nested calls. *)
Lemma set_contains_cases (self : A_Star) (r : ref) :
  sinv self → (r ≤ n)%nat →
  set_contains (store self) (closedSet self) r
  = Ok (bool_decide (r ∈ members (closedSet self)))
  ∨ (set_contains (store self) (closedSet self) r = Raise RecursionError
     ∧ (hash_depth_in ≤ length (closedSet self))%nat).
Proof.
  intros Hs Hr.
  destruct (set_contains (store self) (closedSet self) r) as [b|e] eqn:Hc.
  - left. by rewrite (set_contains_Ok self r b Hs Hc).
  - right. rewrite (set_contains_Raise _ _ _ _ Hc). split; [done|].
    destruct (decide (length (closedSet self) < hash_depth_in)%nat) as [Hlt|?]; [|lia].
    destruct (hash_Ok hash_depth_in (store self) (closedSet self) r) as [hv Hok'];
      [by apply (si_chain _ _ _ _ _ Hs)|done| |].
    + destruct (Node.parent_node (deref (store self) r)) as [p|] eqn:Hp; [|done].
      destruct (si_parent _ _ _ _ _ Hs r p) as [? _]; [done|done|done].
    + unfold set_contains, hash_in in Hc. by rewrite Hok' in Hc.
Qed.

Lemma close_inv (self self' : A_Star) (current_node : ref) (closed : pyset) :
  sinv self →
  extract self = Some (current_node, self') →
  set_add (store self') (closedSet self') current_node = Ok closed →
  sinv (set_closedSet closed self')
  ∧ current_node ∈ members closed.
Proof.
  intros Hs (rest & Hsort & ->)%extract_Some.
  cbn [store closedSet set_openList].
  pose proof (sort_perm (store self) (openList self)) as Hperm. rewrite Hsort in Hperm.
  assert (Hcur : current_node ∈ openList self) by (rewrite <- Hperm; left).
  destruct (set_add_current self current_node Hs Hcur) as [(hv & Hhv & ->)|[-> _]];
    [|done].
  intros [= <-].
  assert (Hnd : NoDup (current_node :: rest)).
  { rewrite Hperm. by apply (si_open_nodup _ _ _ _ _ Hs). }
  apply NoDup_cons in Hnd as [Hcr Hndr].
  assert (Hin : ∀ r, r ∈ openList self ↔ r = current_node ∨ r ∈ rest).
  { intros r. rewrite <- Hperm. apply elem_of_cons. }
  assert (Hcn : (current_node ≤ n)%nat).
  { destruct (si_open_refs _ _ _ _ _ Hs _ Hcur) as [?|[Ho _]]; [lia|].
    rewrite Ho in Hcur. apply list_elem_of_singleton in Hcur. lia. }
  split; [|left].
  destruct Hs. split;
    cbn [store grid_nodes start_node end_node bloc_nodes openList closedSet
         iter_ A_started set_openList set_closedSet members fmap list_fmap snd];
    try done.
  - intros r Hr. left.
    destruct (si_open_refs0 r) as [?|[Ho _]]; [apply Hin; by right|done|].
    rewrite Ho in Hperm. apply Permutation_singleton_r in Hperm.
    injection Hperm as _ ->. by apply elem_of_nil in Hr.
  - intros r Hr. apply si_open_h0. apply Hin. by right.
  - apply NoDup_cons. split; [|done].
    intros Hc. by destruct (si_closed_refs0 _ Hc).
  - intros r [->|Hr]%elem_of_cons; [done|].
    destruct (si_closed_refs0 r Hr) as [? Hno]. split; [done|].
    intros Hr'. apply Hno, Hin. by right.
  - intros hv' r [[= -> ->]|Hr]%elem_of_cons; [done|]. by apply si_closed_hash0.
  - split; [|done].
    destruct (Node.parent_node (deref (store self) current_node)) as [p|] eqn:Hp; [|done].
    by destruct (si_parent0 current_node p Hcn Hp).
  - intros r p Hr Hp. destruct (si_parent0 r p Hr Hp). split; [by right|done].
  - intros r Hr Hno Hnc. apply si_fresh0; [done| |].
    + intros [->|?]%Hin; [|done]. apply Hnc. left.
    + intros Hc. apply Hnc. by right.
Qed.

Lemma valid_nodes_inv (self : A_Star) (current_node : ref) (vs : list (option ref)) :
  sinv self → current_node ∈ members (closedSet self) →
  get_valid_nodes self current_node = Ok vs →
  finv self current_node vs.
Proof.
  intros Hs' Hcur Hgv. unfold get_valid_nodes in Hgv.
  apply get_valid_nodes_loop_spec in Hgv as (l & -> & Hsub & Hall). cbn [app].
  split.
  - done.
  - intros o (r & -> & Hr)%list_elem_of_fmap.
    destruct (Hall r Hr) as (ij & Hij & Hne & Hnb & Hc & _).
    destruct (neighbour_Some _ _ _ _ Hs' Hnb) as (Hrn & Hx & Hy).
    exists r. split; [done|]. split; [done|]. split.
    + intros Hm. by pose proof (set_contains_member _ _ _ Hs' Hm Hc).
    + unfold adjacent. rewrite Hx, Hy. apply offsets_range in Hij.
      destruct ij as [i j]. cbn [fst snd] in *.
      assert (¬ (i = 0 ∧ j = 0)) by (intros [-> ->]; done). lia.
  - apply NoDup_fmap; [by intros ?? [=]|].
    eapply sublist_NoDup; [|exact Hsub].
    apply NoDup_omap_inj; [|apply offsets_NoDup].
    intros a a' b. by apply neighbour_inj.
Qed.

Lemma expand_inv (self self' : A_Star) (current_node : ref) (closed : pyset)
    (vs : list (option ref)) :
  sinv self →
  extract self = Some (current_node, self') →
  set_add (store self') (closedSet self') current_node = Ok closed →
  get_valid_nodes (set_closedSet closed self') current_node = Ok vs →
  sinv (set_closedSet closed self') ∧ finv (set_closedSet closed self') current_node vs.
Proof.
  intros Hs Hex Hadd Hgv.
  destruct (close_inv _ _ _ _ Hs Hex Hadd) as [Hs' Hcur].
  split; [done|]. by apply valid_nodes_inv.
Qed.

End RunInvariant.

(** *** Every reachable point satisfies the invariant *)

Section Reached.
Context `{PyHash}.

Lemma reachable_inv (pt : point) :
  reachable pt → ∃ w h start goal, point_inv w h start goal pt.
Proof.
  induction 1 as
    [self Hidle
    |self self' cur closed vs _ (w & h & start & goal & IH) Hex _ Hadd Hgv
    |self self' cur v rest _ (w & h & start & goal & IH) Hv
    |self cur _ (w & h & start & goal & IH)].
  - apply idle_idle_inv in Hidle as (w & h & start & goal & Hinv).
    exists w, h, start, goal. by apply begin_state_inv.
  - exists w, h, start, goal. by eapply expand_inv.
  - exists w, h, start, goal. destruct IH as [Hs Hf].
    destruct (fi_rest _ _ _ _ _ Hf v) as (r & -> & _); [left|].
    by eapply visit_inv.
  - exists w, h, start, goal. destruct IH as [Hs _]. by destruct Hs.
Qed.

(** The passes of [loop_body] stay within the reachable points. *)
Lemma visit_all_reachable (self self' : A_Star) (cur : ref) (vs : list (option ref)) :
  reachable (InFor self cur vs) →
  visit_all self cur vs = Ok self' →
  reachable (InFor self' cur []).
Proof.
  revert self. induction vs as [|v vs IH]; intros self Hr; cbn [visit_all].
  - by intros [= <-].
  - destruct (visit self cur v) as [s1|] eqn:Hv; cbn [res_bind]; [|done].
    apply IH. by eapply reach_visit.
Qed.

Lemma loop_body_reachable (self self' : A_Star) :
  reachable (AtLoop self) →
  loop_body self = Ok (Continue self') →
  reachable (AtLoop self').
Proof.
  intros Hr. unfold loop_body.
  destruct (extract self) as [[cur s1]|] eqn:Hex; [|done].
  destruct (_ && _) eqn:Hgoal; [done|].
  destruct (set_add _ _ cur) as [closed|] eqn:Hadd; cbn [res_bind]; [|done].
  destruct (get_valid_nodes _ cur) as [vs|] eqn:Hgv; cbn [res_bind]; [|done].
  destruct (visit_all _ cur vs) as [s2|] eqn:Hva; cbn [res_bind]; [|done].
  intros [= <-]. eapply reach_next, visit_all_reachable; [|exact Hva].
  by eapply reach_expand.
Qed.

End Reached.


(** ** Pressing the space bar *)

Section Begin.
Context `{PyHash}.

(** Hashing is the only thing in a pass that can raise. *)
Lemma loop_body_raises (self : A_Star) (e : exn) :
  openList self ≠ [] → loop_body self = Raise e → e = RecursionError.
Proof.
  intros Hne. unfold loop_body.
  destruct (extract_total self Hne) as [[c s1] ->].
  destruct (_ && _); [done|].
  destruct (set_add _ _ c) as [cl|e'] eqn:Hadd; cbn [res_bind].
  2: { intros [= <-]. by eapply set_add_Raise. }
  destruct (get_valid_nodes _ c) as [vs|e'] eqn:Hgv; cbn [res_bind].
  2: { intros [= <-]. by eapply get_valid_nodes_loop_Raise. }
  apply get_valid_nodes_loop_is_Some in Hgv; [|done].
  by destruct (visit_all_Some_Ok (set_closedSet cl s1) c vs Hgv) as [s2 ->].
Qed.

Lemma while_loop_raises (fuel : nat) (self : A_Star) (e : exn) :
  while_loop fuel self = Raised e → e = RecursionError.
Proof.
  revert self. induction fuel as [|fuel IH]; intros self; cbn [while_loop]; [done|].
  destruct (openList self) as [|a l] eqn:Hol; [done|].
  destruct (loop_body self) as [[s'|s' c]|e'] eqn:Hb; [by apply IH|done|].
  intros [= <-]. eapply loop_body_raises; [|exact Hb]. by rewrite Hol.
Qed.

(** C1 (amended): the space-bar handler checks nothing about the start
    and end node.  [A_started] is its only gate: where the flag is set, or
    the key is not the space bar, it does nothing; where the flag is not
    set the space bar sets it and runs the search, whatever the state.  No
    exception reports a bad configuration: the only one a run begun in an
    idle state can end in is the [RecursionError] of hashing a long chain
    of parents.  And when, in an idle state, the start and end node have
    the same coordinates, the run returns at once, with the start node as
    current node, no iteration counted and the open list empty again. *)
Theorem begin_unchecked (fuel : nat) (self : A_Star) (key : string) :
  (A_started self = true ∨ key ≠ " " → _on_key_press fuel self key = None)
  ∧ (A_started self = false →
     _on_key_press fuel self " " = Some (run_A_star fuel (set_A_started true self)))
  ∧ (idle self →
     ∀ e, run_A_star fuel (set_A_started true self) = Raised e → e = RecursionError)
  ∧ (idle self → same_xy (store self) (start_node self) (end_node self) →
     run_A_star (S fuel) (set_A_started true self)
     = ReturnEnd (set_A_started true self) (start_node self)).
Proof.
  split; [|split; [|split]].
  - unfold _on_key_press. intros [-> |Hkey]; [by rewrite andb_false_r|].
    by rewrite (proj2 (String.eqb_neq key " ") Hkey).
  - intros Hst. unfold _on_key_press. by rewrite Hst.
  - intros _ e. apply while_loop_raises.
  - intros Hidle [Hx Hy].
    destruct (idle_idle_inv _ Hidle) as (w & h & start & goal & Hinv).
    pose proof (idle_open _ _ _ _ _ Hinv) as Hopen.
    destruct self as [hp g st en bl ol cs it started].
    cbn [openList store start_node end_node] in Hx, Hy, Hopen. subst ol.
    unfold run_A_star, push_start, while_loop, loop_body, extract.
    cbn [openList store set_openList set_A_started end_node start_node app
         sort foldr sort_insert grid_nodes bloc_nodes closedSet iter_ A_started].
    rewrite Hx, Hy, !Z.eqb_refl. done.
Qed.

End Begin.

Lemma begin_unchecked_witness :
  _on_key_press (H:=demo_hash) 1 (set_A_started true session15) " " = None
  ∧ _on_key_press (H:=demo_hash) 1 session15 "a" = None
  ∧ run_A_star (H:=demo_hash) 1 (set_A_started true (session 5 5 (1, 1) (1, 1)))
    = ReturnEnd (set_A_started true (session 5 5 (1, 1) (1, 1)))
                (start_node (session 5 5 (1, 1) (1, 1))).
Proof.
  split; [|split].
  - destruct (begin_unchecked (H:=demo_hash) 1 (set_A_started true session15) " ")
      as (Hgate & _).
    apply Hgate. by left.
  - destruct (begin_unchecked (H:=demo_hash) 1 session15 "a") as (Hgate & _).
    apply Hgate. by right.
  - destruct (begin_unchecked (H:=demo_hash) 0 (session 5 5 (1, 1) (1, 1)) " ")
      as (_ & _ & _ & Hsame).
    apply Hsame.
    + apply (idle_main numpy64 5 5 (1, 1) (1, 1)). reflexivity.
    + split; reflexivity.
Defined.

Lemma C1_counterexample :
  main numpy64 5 5 (1, 1) (1, 1) = Ok (session 5 5 (1, 1) (1, 1))
  ∧ _on_key_press (H:=demo_hash) 1 (session 5 5 (1, 1) (1, 1)) " "
    = Some (ReturnEnd (set_A_started true (session 5 5 (1, 1) (1, 1)))
                      (start_node (session 5 5 (1, 1) (1, 1))))
  ∧ A_started (session 5 5 (1, 1) (1, 1)) = false
  ∧ A_started (set_A_started true (session 5 5 (1, 1) (1, 1))) = true.
Proof. vm_compute. done. Qed.

(** ** The run on the session of the [__main__] block *)

Lemma idle_session15 : idle session15.
Proof. apply (idle_main numpy64 15 15 (2, 2) (12, 12)). reflexivity. Qed.

Lemma reachable_after_pass1 : reachable (H:=demo_hash) (AtLoop after_pass1).
Proof.
  apply (loop_body_reachable (H:=demo_hash) running15).
  - apply reach_begin, idle_session15.
  - vm_compute. reflexivity.
Qed.

Lemma pass2_valid_eq :
  pass2_valid = [Some 17; Some 18; Some 19; Some 32; Some 34; Some 47; Some 48; Some 49]%nat.
Proof. vm_compute. reflexivity. Qed.

Lemma reachable_pass2 :
  reachable (H:=demo_hash)
    (InFor pass2_closed 33
       [Some 17; Some 18; Some 19; Some 32; Some 34; Some 47; Some 48; Some 49]%nat).
Proof.
  rewrite <- pass2_valid_eq.
  assert (Hadd : set_add (H:=demo_hash) (store after_pass1_popped)
                   (closedSet after_pass1_popped) 33%nat
                 = Ok (closedSet pass2_closed)) by (vm_compute; reflexivity).
  assert (Hst : pass2_closed = set_closedSet (closedSet pass2_closed) after_pass1_popped)
    by (vm_compute; reflexivity).
  rewrite Hst at 1.
  apply (reach_expand (H:=demo_hash) after_pass1 after_pass1_popped 33%nat).
  - apply reachable_after_pass1.
  - vm_compute. reflexivity.
  - vm_compute. reflexivity.
  - exact Hadd.
  - rewrite <- Hst. vm_compute. reflexivity.
Qed.

(** ** Membership in the open list and what a visit changes *)

Section Frontier.
Context `{PyHash}.

Lemma grid_ref_eq (w h : Z) (start goal : Z * Z) (self : A_Star) (r v : ref) :
  state_inv w h start goal self →
  (r < cells w h)%nat → (v < cells w h)%nat →
  same_xy (store self) r v → r = v.
Proof.
  intros Hs Hr Hv [Hx Hy]. pose proof (si_h _ _ _ _ _ Hs) as Hh.
  destruct (si_cell _ _ _ _ _ Hs r Hr) as [Hxr Hyr].
  destruct (si_cell _ _ _ _ _ Hs v Hv) as [Hxv Hyv].
  rewrite Hxr, Hxv in Hx. rewrite Hyr, Hyv in Hy.
  pose proof (Z.div_mod (Z.of_nat r) h). pose proof (Z.div_mod (Z.of_nat v) h). nia.
Qed.

Lemma open_grid_ref (w h : Z) (start goal : Z * Z) (self : A_Star) (cur r : ref)
    (rest : list (option ref)) :
  state_inv w h start goal self → for_inv w h self cur rest →
  r ∈ openList self → (r < cells w h)%nat.
Proof.
  intros Hs Hf Hr.
  destruct (si_open_refs _ _ _ _ _ Hs r Hr) as [?|[_ Hnil]]; [done|].
  pose proof (fi_cur _ _ _ _ _ Hf) as Hc. rewrite Hnil in Hc.
  by apply elem_of_nil in Hc.
Qed.

(** C9: at every visit of a valid node during a run, the test
    [valid_node not in self.openList] (a comparison of objects) agrees with
    the test on coordinates alone: the node is found in the open list
    exactly when some node of the open list has its [(x, y)], whatever the
    costs and parents are. *)
Theorem frontier_membership_by_coordinates (self : A_Star) (current_node v : ref)
    (rest : list (option ref)) :
  reachable (InFor self current_node (Some v :: rest)) →
  list_contains (openList self) v = true
  ↔ ∃ r, r ∈ openList self ∧ same_xy (store self) r v.
Proof.
  intros (w & h & start & goal & Hs & Hf)%reachable_inv.
  rewrite list_contains_true. split.
  - intros Hv. exists v. split; [done|]. by split.
  - intros (r & Hr & Hxy).
    destruct (fi_rest _ _ _ _ _ Hf (Some v)) as (v' & [= <-] & Hvn & _); [left|].
    pose proof (open_grid_ref _ _ _ _ _ _ _ _ Hs Hf Hr) as Hrn.
    by rewrite <- (grid_ref_eq _ _ _ _ _ r v Hs Hrn Hvn Hxy).
Qed.

(** C3 (amended): when a valid node that is already in the open list is
    visited, it is not appended again and its parent and [h_cost] stay as
    they were, but its [g_cost] is overwritten with the current node's
    [g_cost] plus the distance between the two, be that lower or higher
    than what was stored. *)
Theorem frontier_node_revisited (self : A_Star) (current_node v : ref)
    (rest : list (option ref)) :
  reachable (InFor self current_node (Some v :: rest)) →
  list_contains (openList self) v = true →
  ∃ self', visit self current_node (Some v) = Ok self'
    ∧ openList self' = openList self
    ∧ Node.parent_node (deref (store self') v) = Node.parent_node (deref (store self) v)
    ∧ Node.h_cost (deref (store self') v) = Node.h_cost (deref (store self) v)
    ∧ Node.g_cost (deref (store self') v)
      = Node.g_cost (deref (store self) current_node)
        + get_distance (deref (store self) current_node) (deref (store self) v).
Proof.
  intros (w & h & start & goal & Hs & Hf)%reachable_inv Hc.
  destruct (fi_rest _ _ _ _ _ Hf (Some v)) as (v' & [= <-] & Hvn & Hvc & _); [left|].
  pose proof (fi_cur _ _ _ _ _ Hf) as Hcur.
  pose proof (si_len _ _ _ _ _ Hs) as Hlen.
  destruct (visit self current_node (Some v)) as [self'|e] eqn:Hv.
  2: { pose proof (visit_Some_Ok self current_node v) as [? Hx].
       by rewrite Hv in Hx. }
  exists self'. split; [done|].
  destruct (visit_effect self self' current_node v) as
    (_ & _ & _ & Hg & Hh & Hopen & _); [lia|by intros ->|done|].
  rewrite Hc in Hopen. destruct Hopen as [Ho Hp].
  repeat split; try done.
  rewrite Hh, (si_end _ _ _ _ _ Hs). symmetry.
  apply (si_open_h _ _ _ _ _ Hs); [by apply list_contains_true|done].
Qed.

End Frontier.

Lemma frontier_membership_by_coordinates_witness :
  list_contains (openList pass2_closed) 17%nat = true
  ↔ ∃ r, r ∈ openList pass2_closed ∧ same_xy (store pass2_closed) r 17%nat.
Proof.
  apply (frontier_membership_by_coordinates (H:=demo_hash) pass2_closed 33%nat 17%nat
           [Some 18; Some 19; Some 32; Some 34; Some 47; Some 48; Some 49]%nat).
  apply reachable_pass2.
Defined.

Lemma C3_counterexample :
  reachable (H:=demo_hash)
    (InFor pass2_closed 33
       [Some 17; Some 18; Some 19; Some 32; Some 34; Some 47; Some 48; Some 49]%nat)
  ∧ list_contains (openList pass2_closed) 17%nat = true
  ∧ visit pass2_closed 33%nat (Some 17%nat) = Ok pass2_visited
  ∧ Node.g_cost (deref (store pass2_closed) 17%nat) = 1
  ∧ Node.g_cost (deref (store pass2_visited) 17%nat) = 3.
Proof.
  split; [apply reachable_pass2|].
  split; [vm_compute; reflexivity|].
  split; [vm_compute; reflexivity|].
  split; vm_compute; reflexivity.
Qed.

Lemma frontier_node_revisited_witness :
  ∃ self', visit pass2_closed 33%nat (Some 17%nat) = Ok self'
    ∧ openList self' = openList pass2_closed
    ∧ Node.parent_node (deref (store self') 17%nat)
      = Node.parent_node (deref (store pass2_closed) 17%nat)
    ∧ Node.h_cost (deref (store self') 17%nat)
      = Node.h_cost (deref (store pass2_closed) 17%nat)
    ∧ Node.g_cost (deref (store self') 17%nat)
      = Node.g_cost (deref (store pass2_closed) 33%nat)
        + get_distance (deref (store pass2_closed) 33%nat)
                       (deref (store pass2_closed) 17%nat).
Proof.
  apply (frontier_node_revisited (H:=demo_hash) pass2_closed 33%nat 17%nat
           [Some 18; Some 19; Some 32; Some 34; Some 47; Some 48; Some 49]%nat).
  - apply reachable_pass2.
  - vm_compute. reflexivity.
Defined.

(** C4, evaluated on the session of the [__main__] block: after the first
    pass the start node (object 225, coordinates [(2, 2)]) is in the closed
    set; in the second pass the grid node of the same coordinates (object
    32) is among the valid nodes and ends up in the open list. *)
Lemma closed_start_coordinate_reinserted :
  start_node after_pass1 ∈ members (closedSet after_pass1)
  ∧ same_xy (store after_pass1) 32%nat (start_node after_pass1)
  ∧ (32%nat ∉ openList after_pass1)
  ∧ get_valid_nodes (H:=demo_hash) pass2_closed 33%nat
    = Ok [Some 17; Some 18; Some 19; Some 32; Some 34; Some 47; Some 48; Some 49]%nat
  ∧ loop_body (H:=demo_hash) after_pass1 = Ok (Continue after_pass2)
  ∧ 32%nat ∈ openList after_pass2
  ∧ start_node after_pass2 ∈ members (closedSet after_pass2).
Proof.
  split; [apply (bool_decide_unpack _); vm_compute; exact I|].
  split; [vm_compute; done|].
  split; [apply (bool_decide_unpack _); vm_compute; exact I|].
  split; [vm_compute; reflexivity|].
  split; [vm_compute; reflexivity|].
  split; apply (bool_decide_unpack _); vm_compute; exact I.
Qed.

(** ** The search on a grid without blocked cells *)

(** *** Which node the sort brings to the front *)

Lemma sort_nil_inv (hp : heap) (l : list ref) : sort hp l = [] → l = [].
Proof.
  intros Hs. pose proof (sort_perm hp l) as Hp. rewrite Hs in Hp.
  by apply Permutation_nil_l in Hp.
Qed.



(** *** What a whole pass of the [for] loop does *)

Lemma filter_not_in_app (l vs : list ref) (v : ref) :
  v ∉ vs →
  filter (λ r, r ∉ l ++ [v]) vs = filter (λ r, r ∉ l) vs.
Proof.
  induction vs as [|a vs IH]; intros Hv; [done|].
  apply not_elem_of_cons in Hv as [Hva Hv].
  destruct (decide (a ∈ l)) as [Hal|Hal].
  - rewrite !filter_cons_False; [by apply IH|by intros ?|].
    intros Hn. apply Hn. apply elem_of_app. by left.
  - rewrite !filter_cons_True; [by rewrite IH|done|].
    intros [?| ->%list_elem_of_singleton]%elem_of_app; done.
Qed.

Lemma visit_all_effect (self self' : A_Star) (cur : ref) (vs : list ref) :
  (∀ r, r ∈ vs → (r < length (store self))%nat) → cur ∉ vs → NoDup vs →
  visit_all self cur (Some <$> vs) = Ok self' →
  (∀ r, r ∉ vs → deref (store self') r = deref (store self) r)
  ∧ (∀ r, r ∈ vs →
       Node.x (deref (store self') r) = Node.x (deref (store self) r)
       ∧ Node.y (deref (store self') r) = Node.y (deref (store self) r)
       ∧ Node.g_cost (deref (store self') r)
         = Node.g_cost (deref (store self) cur)
           + get_distance (deref (store self) cur) (deref (store self) r)
       ∧ Node.h_cost (deref (store self') r)
         = get_distance (deref (store self) r) (deref (store self) (end_node self))
       ∧ Node.parent_node (deref (store self') r)
         = if list_contains (openList self) r
           then Node.parent_node (deref (store self) r)
           else Some cur)
  ∧ openList self' = openList self ++ filter (λ r, r ∉ openList self) vs
  ∧ length (store self') = length (store self)
  ∧ closedSet self' = closedSet self
  ∧ grid_nodes self' = grid_nodes self
  ∧ start_node self' = start_node self
  ∧ end_node self' = end_node self
  ∧ bloc_nodes self' = bloc_nodes self
  ∧ iter_ self' = iter_ self.
Proof.
  revert self. induction vs as [|v vs IH]; intros self Hlen Hcur Hnd; cbn [fmap list_fmap visit_all].
  - intros [= <-]. rewrite app_nil_r.
    split; [done|]. split; [|done]. intros r Hr. by apply elem_of_nil in Hr.
  - destruct (visit self cur (Some v)) as [s1|] eqn:Hv; cbn [res_bind]; [|done].
    intros Hva. apply NoDup_cons in Hnd as [Hvn Hnd].
    assert (Hvc : v ≠ cur) by (intros ->; apply Hcur; left).
    destruct (visit_effect self s1 cur v) as
      (Hoth & Hx & Hy & Hg & Hh & Hopen & Hlen1 & Hcl & Hgr & Hst & Hen & Hbl & Hit & _);
      [apply Hlen; left|done|done|].
    destruct (IH s1) as (Hoth' & Hin' & Hopen' & Hlen' & Hcl' & Hgr' & Hst' & Hen' & Hbl' & Hit');
      [intros r Hr; rewrite Hlen1; apply Hlen; by right
      |intros Hc; apply Hcur; by right|done|done|].
    assert (Hxy1 : ∀ r, Node.x (deref (store s1) r) = Node.x (deref (store self) r)
                        ∧ Node.y (deref (store s1) r) = Node.y (deref (store self) r)).
    { intros r. destruct (decide (r = v)) as [->|Hr]; [done|]. by rewrite Hoth. }
    split; [|split; [|split]].
    + intros r Hr. rewrite Hoth'; [apply Hoth|]; intros Hc; apply Hr; [subst; left|by right].
    + intros r [->|Hr]%elem_of_cons.
      * rewrite Hoth' by done. rewrite Hx, Hy, Hg, Hh.
        destruct (list_contains (openList self) v); by destruct Hopen as [_ ->].
      * assert (r ≠ v) as Hrv by (intros ->; done).
        destruct (Hin' r Hr) as (-> & -> & -> & -> & ->).
        rewrite !(Hoth r), (Hoth cur) by done.
        rewrite Hen. destruct (Hxy1 (end_node self)) as [Hex Hey].
        rewrite (get_distance_xy (deref (store self) r) (deref (store self) r)
                   (deref (store s1) (end_node self)) (deref (store self) (end_node self)))
          by done.
        assert (list_contains (openList s1) r = list_contains (openList self) r) as ->.
        { destruct (list_contains (openList self) v); destruct Hopen as [-> _]; [done|].
          unfold list_contains. rewrite existsb_app. cbn [existsb].
          rewrite (proj2 (Nat.eqb_neq r v) Hrv). by rewrite !orb_false_r. }
        done.
    + rewrite Hopen'. destruct (list_contains (openList self) v) eqn:Hc;
        destruct Hopen as [-> _].
      * apply list_contains_true in Hc. rewrite filter_cons_False; [done|].
        intros Hn. done.
      * apply list_contains_false in Hc. rewrite filter_cons_True by done.
        rewrite filter_not_in_app by done. by rewrite <- app_assoc.
    + rewrite Hlen', Hcl', Hgr', Hst', Hen', Hbl', Hit'. done.
Qed.

(** *** Order in a list *)







(** *** Facts about the grid nodes of a state *)

Section GridFacts.
Context `{PyHash}.
Context (w h : Z) (start goal : Z * Z).

Local Abbreviation n := (cells w h).
Local Abbreviation sinv := (state_inv w h start goal).

Lemma get_distance_manhattan (hp : heap) (a b : ref) :
  get_distance (deref hp a) (deref hp b) = manhattan (xy hp a) (xy hp b).
Proof. done. Qed.

Lemma xy_in_bounds (self : A_Star) (r : ref) :
  sinv self → (r < n)%nat →
  0 ≤ (xy (store self) r).1 < w ∧ 0 ≤ (xy (store self) r).2 < h.
Proof.
  intros Hs Hr. pose proof (si_h _ _ _ _ _ Hs) as Hh.
  destruct (si_cell _ _ _ _ _ Hs r Hr) as [Hx Hy].
  unfold xy. cbn [fst snd]. rewrite Hx, Hy. unfold cells in Hr.
  split.
  - split; [apply Z.div_pos; lia|]. apply Z.div_lt_upper_bound; lia.
  - apply Z.mod_pos_bound. lia.
Qed.

Lemma cell_of (self : A_Star) (p : Z * Z) :
  sinv self → 0 ≤ p.1 < w → 0 ≤ p.2 < h →
  (Z.to_nat (p.1 * h + p.2) < n)%nat
  ∧ xy (store self) (Z.to_nat (p.1 * h + p.2)) = p.
Proof.
  intros Hs Hx Hy. pose proof (si_h _ _ _ _ _ Hs) as Hh.
  assert (Hr : (Z.to_nat (p.1 * h + p.2) < n)%nat) by (unfold cells; nia).
  split; [done|].
  destruct (si_cell _ _ _ _ _ Hs _ Hr) as [Hcx Hcy]. unfold xy.
  rewrite Hcx, Hcy.
  destruct (cell_div_mod h p.1 p.2) as [-> ->]; [lia..|]. by destruct p.
Qed.



Lemma offset_of_adj (c p : Z * Z) :
  adj c p → (p.1 - c.1, p.2 - c.2) ∈ filter (λ ij, ij ≠ (0, 0)) offsets.
Proof.
  unfold adj. intros Ha. apply list_elem_of_filter. split.
  - intros [= ? ?]. lia.
  - rewrite offsets_eq.
    assert (p.1 - c.1 = -1 ∨ p.1 - c.1 = 0 ∨ p.1 - c.1 = 1) as Hi by lia.
    assert (p.2 - c.2 = -1 ∨ p.2 - c.2 = 0 ∨ p.2 - c.2 = 1) as Hj by lia.
    rewrite !elem_of_cons.
    destruct Hi as [-> |[-> | ->]], Hj as [-> |[-> | ->]]; tauto.
Qed.

Lemma neighbour_offset (self : A_Star) (c r : ref) :
  sinv self → (r < n)%nat →
  neighbour self c ((xy (store self) r).1 - (xy (store self) c).1,
                    (xy (store self) r).2 - (xy (store self) c).2) = Some r.
Proof.
  intros Hs Hr. unfold neighbour. rewrite (si_grid _ _ _ _ _ Hs). apply get_node_Some.
  cbn [width height grid fst snd xy].
  replace (Node.x (deref (store self) c)
           + (Node.x (deref (store self) r) - Node.x (deref (store self) c)))
    with (Node.x (deref (store self) r)) by lia.
  replace (Node.y (deref (store self) c)
           + (Node.y (deref (store self) r) - Node.y (deref (store self) c)))
    with (Node.y (deref (store self) r)) by lia.
  split; [by apply (xy_in_bounds self r)|].
  pose proof (si_h _ _ _ _ _ Hs) as Hh.
  destruct (si_cell _ _ _ _ _ Hs r Hr) as [-> ->]. cbn [Nat.add].
  rewrite (Z.mul_comm _ h), <- Z.div_mod by lia. lia.
Qed.

(** The valid nodes of a pass are the grid nodes next to the current node
    that are not in the closed set. *)
Lemma valid_refs_spec (self : A_Star) (c r : ref) :
  sinv self →
  r ∈ valid_refs self c
  ↔ (r < n)%nat ∧ (r ∉ members (closedSet self))
    ∧ adj (xy (store self) c) (xy (store self) r).
Proof.
  intros Hs. unfold valid_refs. rewrite list_elem_of_filter, list_elem_of_omap. split.
  - intros (Hnc & ij & [Hne Hij]%list_elem_of_filter & Hnb).
    destruct (neighbour_Some _ _ _ _ _ _ _ _ Hs Hnb) as (Hr & Hx & Hy).
    split; [done|]. split; [done|].
    unfold adj, xy. cbn [fst snd]. rewrite Hx, Hy.
    apply offsets_range in Hij. destruct ij as [i j]. cbn [fst snd] in *.
    assert (¬ (i = 0 ∧ j = 0)) by (intros [-> ->]; done). lia.
  - intros (Hr & Hnc & Hadj). split; [done|].
    exists ((xy (store self) r).1 - (xy (store self) c).1,
            (xy (store self) r).2 - (xy (store self) c).2).
    split; [by apply offset_of_adj|by apply neighbour_offset].
Qed.

Lemma valid_refs_NoDup (self : A_Star) (c : ref) :
  sinv self → NoDup (valid_refs self c).
Proof.
  intros Hs. unfold valid_refs. apply NoDup_filter.
  apply NoDup_omap_inj.
  - intros a a' b. by eapply neighbour_inj.
  - apply NoDup_filter, offsets_NoDup.
Qed.

End GridFacts.

(** *** Steps on the grid *)







Lemma pair_eqb (x y : Z) (g : Z * Z) :
  (x =? g.1) && (y =? g.2) = bool_decide ((x, y) = g).
Proof.
  destruct g as [gx gy]. cbn [fst snd]. case_bool_decide as Hd.
  - injection Hd as -> ->. by rewrite !Z.eqb_refl.
  - destruct (Z.eqb_spec x gx) as [->|Hx]; [|done].
    destruct (Z.eqb_spec y gy) as [->|Hy]; [|done]. done.
Qed.































(** *** The valid nodes of a pass *)

Lemma is_bloc_true (hp : heap) (bl : list ref) (e : ref) :
  is_bloc hp bl e = true ↔ ∃ b, b ∈ bl ∧ xy hp b = xy hp e.
Proof.
  unfold is_bloc. rewrite existsb_exists. split.
  - intros (b & Hb & Heq). exists b. split; [by apply list_elem_of_In|].
    apply andb_prop in Heq as [Hx Hy]. unfold xy. f_equal; lia.
  - intros (b & Hb & [= Hx Hy]). exists b. split; [by apply list_elem_of_In|].
    rewrite Hx, Hy, !Z.eqb_refl. done.
Qed.

Lemma is_bloc_ext (hp hp' : heap) (bl : list ref) (e : ref) :
  (∀ r, xy hp' r = xy hp r) → is_bloc hp' bl e = is_bloc hp bl e.
Proof.
  intros Hxy.
  destruct (is_bloc hp bl e) eqn:E.
  - apply is_bloc_true in E as (b & Hb & Heq). apply is_bloc_true.
    exists b. split; [done|]. by rewrite !Hxy.
  - destruct (is_bloc hp' bl e) eqn:E'; [|done].
    apply is_bloc_true in E' as (b & Hb & Heq). rewrite !Hxy in Heq.
    assert (is_bloc hp bl e = true) as Ht by (apply is_bloc_true; by exists b).
    congruence.
Qed.



Section ValidFree.
Context `{PyHash}.
Context (w h : Z) (start goal : Z * Z).

Local Abbreviation n := (cells w h).
Local Abbreviation sinv := (state_inv w h start goal).

(** [get_valid_nodes] returns the grid nodes around the current node that
    are neither closed nor blocked, unless a lookup in the closed set
    raises. *)
Lemma get_valid_nodes_loop_cases (self : A_Star) (current_node : ref)
    (ijs : list (Z * Z)) (acc : list (option ref)) :
  sinv self →
  get_valid_nodes_loop self current_node ijs acc
  = Ok (acc ++ (Some <$> filter (λ r, is_bloc (store self) (bloc_nodes self) r = false)
                  (filter (λ r, r ∉ members (closedSet self))
                          (omap (neighbour self current_node)
                                (filter (λ ij, ij ≠ (0, 0)) ijs)))))
  ∨ (get_valid_nodes_loop self current_node ijs acc = Raise RecursionError
     ∧ (hash_depth_in ≤ length (closedSet self))%nat).
Proof.
  intros Hs. revert acc.
  induction ijs as [|[i j] ijs IH]; intros acc; cbn [get_valid_nodes_loop].
  - left. by rewrite app_nil_r.
  - destruct ((i =? 0) && (j =? 0)) eqn:E0.
    + rewrite (filter_cons_False (λ ij, ij ≠ (0, 0))); [apply IH|].
      intros Hne. apply Hne. f_equal; lia.
    + rewrite (filter_cons_True (λ ij, ij ≠ (0, 0))) by (intros [= -> ->]; done).
      change (get_node (grid_nodes self)
                (Node.x (deref (store self) current_node) + i)
                (Node.y (deref (store self) current_node) + j))
        with (neighbour self current_node (i, j)).
      cbn [omap list_omap].
      destruct (neighbour self current_node (i, j)) as [e|] eqn:Hn; [|apply IH].
      destruct (neighbour_Some _ _ _ _ _ _ _ _ Hs Hn) as (He & _).
      destruct (set_contains_cases w h start goal self e Hs (Nat.lt_le_incl _ _ He))
        as [->|[-> Hle]];
        cbn [res_bind]; [|by right].
      case_bool_decide as Hm.
      * rewrite (filter_cons_False (λ r, r ∉ members (closedSet self)))
          by (intros Hc; done).
        apply IH.
      * rewrite (filter_cons_True (λ r, r ∉ members (closedSet self))) by done.
        destruct (is_bloc (store self) (bloc_nodes self) e) eqn:Eb.
        -- rewrite filter_cons_False by (rewrite Eb; done). apply IH.
        -- rewrite filter_cons_True by done.
           destruct (IH (acc ++ [Some e])) as [->|?]; [left|by right].
           cbn [fmap list_fmap]. by rewrite <- app_assoc.
Qed.

Lemma get_valid_nodes_cases (self : A_Star) (current_node : ref) :
  sinv self →
  get_valid_nodes self current_node = Ok (Some <$> free_refs self current_node)
  ∨ (get_valid_nodes self current_node = Raise RecursionError
     ∧ (hash_depth_in ≤ length (closedSet self))%nat).
Proof. intros Hs. by apply (get_valid_nodes_loop_cases self current_node offsets []). Qed.

Lemma free_refs_spec (self : A_Star) (c r : ref) :
  sinv self →
  r ∈ free_refs self c
  ↔ (r < n)%nat ∧ (r ∉ members (closedSet self))
    ∧ adj (xy (store self) c) (xy (store self) r)
    ∧ is_bloc (store self) (bloc_nodes self) r = false.
Proof.
  intros Hs. unfold free_refs.
  rewrite list_elem_of_filter, (valid_refs_spec w h start goal self c r Hs). tauto.
Qed.

Lemma free_refs_NoDup (self : A_Star) (c : ref) : sinv self → NoDup (free_refs self c).
Proof. intros Hs. apply NoDup_filter. by eapply valid_refs_NoDup. Qed.

End ValidFree.

(** *** One pass of the loop *)

Section Pass.
Context `{PyHash}.
Context (w h : Z) (start goal : Z * Z).

Local Abbreviation n := (cells w h).
Local Abbreviation sinv := (state_inv w h start goal).

Lemma visit_all_started (self self' : A_Star) (cur : ref) (vs : list (option ref)) :
  visit_all self cur vs = Ok self' → A_started self' = A_started self.
Proof.
  revert self. induction vs as [|v vs IH]; intros self; cbn [visit_all].
  - by intros [= <-].
  - destruct (visit self cur v) as [s1|] eqn:Hv; cbn [res_bind]; [|done].
    intros Hva. rewrite (IH s1 Hva). unfold visit in Hv.
    destruct v as [v|]; [|done].
    destruct (negb (list_contains (openList self) v)); by injection Hv as <-.
Qed.

Lemma visit_all_inv (self self' : A_Star) (cur : ref) (vs : list (option ref)) :
  sinv self → for_inv w h self cur vs →
  visit_all self cur vs = Ok self' → sinv self'.
Proof.
  revert self. induction vs as [|v vs IH]; intros self Hs Hf; cbn [visit_all].
  - by intros [= <-].
  - destruct (fi_rest _ _ _ _ _ Hf v) as (r & -> & _); [left|].
    destruct (visit self cur (Some r)) as [s1|] eqn:Hv; cbn [res_bind]; [|done].
    destruct (visit_inv w h start goal self s1 cur r vs Hs Hf Hv) as [Hs1 Hf1].
    by apply IH.
Qed.

Lemma set_iter_inv (self : A_Star) (v : Z) : sinv self → sinv (set_iter_ v self).
Proof. intros Hs. by destruct Hs. Qed.

Lemma goal_test (self : A_Star) (r : ref) :
  sinv self →
  (Node.x (deref (store self) r) =? Node.x (deref (store self) (end_node self)))
  && (Node.y (deref (store self) r) =? Node.y (deref (store self) (end_node self)))
  = bool_decide (xy (store self) r = goal).
Proof.
  intros Hs. rewrite (si_end _ _ _ _ _ Hs).
  destruct (si_end_xy _ _ _ _ _ Hs) as [-> ->]. apply pair_eqb.
Qed.

(** The goal is found when the node taken from the open list has its
    coordinates. *)
Lemma loop_body_found (self : A_Star) (nxt : ref) (rest : list ref) :
  sinv self →
  sort (store self) (openList self) = nxt :: rest →
  xy (store self) nxt = goal →
  loop_body self = Ok (Found (set_openList rest self) nxt).
Proof.
  intros Hs Hsort Hg. unfold loop_body, extract. rewrite Hsort.
  cbn [store end_node set_openList]. rewrite (goal_test self nxt Hs).
  by rewrite bool_decide_eq_true_2.
Qed.

Lemma closed_card (self : A_Star) : sinv self → (length (closedSet self) ≤ S n)%nat.
Proof.
  intros Hs.
  assert (length (members (closedSet self)) ≤ length (seq 0 (S n)))%nat as Hle.
  { apply submseteq_length, NoDup_submseteq; [by apply (si_closed_nodup _ _ _ _ _ Hs)|].
    intros r Hr. apply elem_of_seq.
    destruct (si_closed_refs _ _ _ _ _ Hs r Hr). lia. }
  unfold members in Hle. by rewrite length_fmap, length_seq in Hle.
Qed.

(** While a node is open, one object of the run at least is not closed. *)
Lemma closed_card_open (self : A_Star) :
  sinv self → openList self ≠ [] → (length (closedSet self) ≤ n)%nat.
Proof.
  intros Hs Hne. destruct (openList self) as [|r l] eqn:Ho; [done|].
  assert (Hr : r ∈ openList self) by (rewrite Ho; left).
  destruct (si_open_refs _ _ _ _ _ Hs r Hr) as [Hrn|[_ ->]]; [|cbn [length]; lia].
  assert (length (r :: members (closedSet self)) ≤ length (seq 0 (S n)))%nat as Hle.
  { apply submseteq_length, NoDup_submseteq.
    - apply NoDup_cons. split; [|apply (si_closed_nodup _ _ _ _ _ Hs)].
      intros Hc. by destruct (si_closed_refs _ _ _ _ _ Hs r Hc).
    - intros q [->|Hq]%elem_of_cons; apply elem_of_seq; [lia|].
      destruct (si_closed_refs _ _ _ _ _ Hs q Hq). lia. }
  cbn [length] in Hle. unfold members in Hle.
  rewrite length_fmap, length_seq in Hle. lia.
Qed.

(** Otherwise the node is closed and the grid nodes around it that are
    neither closed nor blocked are visited, unless hashing raises, which
    takes a closed set with nearly as many members as there is room for
    nested calls. *)
Lemma loop_body_cases (self : A_Star) (nxt : ref) (rest : list ref) :
  sinv self →
  sort (store self) (openList self) = nxt :: rest →
  xy (store self) nxt ≠ goal →
  (∃ self' hv vs,
     loop_body self = Ok (Continue self')
     ∧ sinv self'
     ∧ closedSet self' = (hv, nxt) :: closedSet self
     ∧ openList self' = rest ++ filter (λ r, r ∉ rest) vs
     ∧ (∀ r, r ∈ vs ↔ (r < n)%nat ∧ r ≠ nxt ∧ (r ∉ members (closedSet self))
                       ∧ adj (xy (store self) nxt) (xy (store self) r)
                       ∧ is_bloc (store self) (bloc_nodes self) r = false)
     ∧ (∀ r, r ∉ vs → deref (store self') r = deref (store self) r)
     ∧ (∀ r, xy (store self') r = xy (store self) r)
     ∧ (∀ r, r ∈ vs →
          Node.g_cost (deref (store self') r)
          = Node.g_cost (deref (store self) nxt)
            + manhattan (xy (store self) nxt) (xy (store self) r)
          ∧ Node.h_cost (deref (store self') r) = manhattan (xy (store self) r) goal
          ∧ Node.parent_node (deref (store self') r)
            = if bool_decide (r ∈ rest)
              then Node.parent_node (deref (store self) r)
              else Some nxt)
     ∧ (bloc_nodes self' = bloc_nodes self
        ∧ iter_ self' = iter_ self + 1
        ∧ A_started self' = A_started self
        ∧ start_node self' = start_node self
        ∧ end_node self' = end_node self)
     ∧ vs = free_refs (set_closedSet ((hv, nxt) :: closedSet self)
                                     (set_openList rest self)) nxt
     ∧ sinv (set_closedSet ((hv, nxt) :: closedSet self) (set_openList rest self)))
  ∨ (loop_body self = Raise RecursionError
     ∧ (hash_room ≤ S (length (closedSet self)))%nat).
Proof.
  intros Hs Hsort Hng.
  assert (Hex : extract self = Some (nxt, set_openList rest self)).
  { unfold extract. by rewrite Hsort. }
  pose proof (sort_perm (store self) (openList self)) as Hperm. rewrite Hsort in Hperm.
  assert (Hcur : nxt ∈ openList self) by (rewrite <- Hperm; left).
  assert (Hbody : ∀ closed,
    set_add (store self) (closedSet self) nxt = closed →
    loop_body self
    = (closed ←r closed;
       let self := set_closedSet closed (set_openList rest self) in
       all_valid_nodes ←r get_valid_nodes self nxt;
       self ←r visit_all self nxt all_valid_nodes;
       Ok (Continue (set_iter_ (iter_ self + 1) self)))).
  { intros closed <-. unfold loop_body. rewrite Hex.
    cbn [store end_node closedSet set_openList].
    by rewrite (goal_test self nxt Hs), bool_decide_eq_false_2 by done. }
  destruct (set_add_current w h start goal self nxt Hs Hcur)
    as [(hv & Hhv & Hadd)|[Hadd Hle]].
  2: { right. rewrite (Hbody _ Hadd). split; [done|]. unfold hash_room. lia. }
  destruct (close_inv w h start goal self _ nxt _ Hs Hex Hadd) as [Hs1 Hc1].
  set (s1 := set_closedSet ((hv, nxt) :: closedSet self) (set_openList rest self)) in *.
  destruct (get_valid_nodes_cases w h start goal s1 nxt Hs1) as [Hgv|[Hgv Hle]].
  2: { right. rewrite (Hbody _ Hadd). cbn [res_bind]. fold s1. rewrite Hgv.
       split; [done|]. unfold s1 in Hle. cbn [closedSet set_closedSet length] in Hle.
       unfold hash_room. lia. }
  left.
  assert (Hf1 : for_inv w h s1 nxt (Some <$> free_refs s1 nxt))
    by (by eapply valid_nodes_inv).
  destruct (visit_all_Some_Ok s1 nxt (Some <$> free_refs s1 nxt)) as [s2 Hva].
  { apply Forall_fmap, Forall_forall. intros r _. by eexists. }
  pose proof (visit_all_inv s1 s2 nxt _ Hs1 Hf1 Hva) as Hs2.
  pose proof (si_len _ _ _ _ _ Hs1) as Hlen1.
  assert (Hvs : ∀ r, r ∈ free_refs s1 nxt
                     ↔ (r < n)%nat ∧ r ≠ nxt ∧ (r ∉ members (closedSet self))
                       ∧ adj (xy (store self) nxt) (xy (store self) r)
                       ∧ is_bloc (store self) (bloc_nodes self) r = false).
  { intros r. rewrite (free_refs_spec w h start goal s1 nxt r Hs1).
    unfold s1. cbn [store closedSet bloc_nodes set_closedSet set_openList members
                    fmap list_fmap snd].
    rewrite not_elem_of_cons. unfold members. tauto. }
  destruct (visit_all_effect s1 s2 nxt (free_refs s1 nxt)) as
    (Hoth & Hin & Hopen & Hlen & Hcl & Hgr & Hst & Hen & Hbl2 & Hit); [| | |done|].
  { intros r Hr%Hvs. lia. }
  { intros Hr%Hvs. by destruct Hr as (_ & ? & _). }
  { by eapply free_refs_NoDup. }
  exists (set_iter_ (iter_ s2 + 1) s2), hv, (free_refs s1 nxt).
  assert (Hxy : ∀ r, xy (store s2) r = xy (store self) r).
  { intros r. destruct (decide (r ∈ free_refs s1 nxt)) as [Hr|Hr].
    - destruct (Hin r Hr) as (Hx & Hy & _). unfold xy. by rewrite Hx, Hy.
    - unfold xy. by rewrite (Hoth r Hr). }
  split; [|split; [|split; [|split; [|split; [|split; [|split; [|split; [|split; [|split]]]]]]]]].
  - rewrite (Hbody _ Hadd). cbn [res_bind]. fold s1. rewrite Hgv. cbn [res_bind].
    by rewrite Hva.
  - by apply set_iter_inv.
  - cbn [closedSet set_iter_]. by rewrite Hcl.
  - cbn [openList set_iter_]. by rewrite Hopen.
  - done.
  - intros r Hr. cbn [store set_iter_]. by apply Hoth.
  - intros r. cbn [store set_iter_]. apply Hxy.
  - intros r Hr. cbn [store set_iter_].
    destruct (Hin r Hr) as (_ & _ & Hg & Hh & Hp). rewrite Hg, Hh, Hp.
    rewrite !get_distance_manhattan. cbn [store openList set_closedSet set_openList s1].
    split; [done|]. split.
    + f_equal. unfold xy, s1. cbn [end_node set_closedSet set_openList].
      rewrite (si_end _ _ _ _ _ Hs).
      destruct (si_end_xy _ _ _ _ _ Hs) as [-> ->]. symmetry. apply surjective_pairing.
    + case_bool_decide as Hd.
      * by rewrite (proj2 (list_contains_true rest r) Hd).
      * by rewrite (proj2 (list_contains_false rest r) Hd).
  - cbn [bloc_nodes iter_ A_started start_node end_node set_iter_].
    rewrite Hbl2, Hit, Hst, Hen, (visit_all_started _ _ _ _ Hva). done.
  - done.
  - done.
Qed.

End Pass.

(** *** The node the search takes next *)

Section SearchSteps.
Context `{PyHash}.
Context (w h : Z) (start goal : Z * Z).
Context (Hstart : 0 ≤ start.1 < w ∧ 0 ≤ start.2 < h).
Context (Hgoal : 0 ≤ goal.1 < w ∧ 0 ≤ goal.2 < h).

Local Abbreviation n := (cells w h).
Local Abbreviation sinv := (state_inv w h start goal).
Local Abbreviation vinv := (search_inv w h start goal).



(** *** One pass of the loop on a grid without blocked cells *)


End SearchSteps.

(** *** The invariant of the search is kept by a pass *)




Section StepFields.
Context `{PyHash}.
Context (w h : Z) (start goal : Z * Z).
Context (Hgoal : 0 ≤ goal.1 < w ∧ 0 ≤ goal.2 < h).
Context (self self' : A_Star) (c nxt : ref) (pref_x : bool).
Context (rest vs : list ref) (hv : Z).

Local Abbreviation n := (cells w h).
Local Abbreviation sinv := (state_inv w h start goal).
Local Abbreviation vinv := (search_inv w h start goal).
Local Abbreviation P := (xy (store self)).

Context (Hv : vinv self c pref_x).
Context (Hsort : sort (store self) (openList self) = nxt :: rest).
Context (Hstep : step_x (P c) goal (P nxt) ∨ step_y (P c) goal (P nxt)).
Context (Hs' : sinv self').
Context (Hcl : closedSet self' = (hv, nxt) :: closedSet self).
Context (Hop : openList self' = rest ++ filter (λ r, r ∉ rest) vs).
Context (Hvs : ∀ r, r ∈ vs ↔ (r < n)%nat ∧ r ≠ nxt ∧ (r ∉ members (closedSet self))
                            ∧ adj (P nxt) (P r)).
Context (Hoth : ∀ r, r ∉ vs → deref (store self') r = deref (store self) r).
Context (Hxy : ∀ r, xy (store self') r = P r).
Context (Hin : ∀ r, r ∈ vs →
         Node.g_cost (deref (store self') r)
         = Node.g_cost (deref (store self) nxt) + manhattan (P nxt) (P r)
         ∧ Node.h_cost (deref (store self') r) = manhattan (P r) goal
         ∧ Node.parent_node (deref (store self') r)
           = if bool_decide (r ∈ rest)
             then Node.parent_node (deref (store self) r)
             else Some nxt).






























End StepFields.

(** *** The path behind a closed node *)






(** *** The first pass *)





Section FirstPass.
Context `{PyHash}.
Context (w h : Z) (start goal : Z * Z).
Context (Hstart : 0 ≤ start.1 < w ∧ 0 ≤ start.2 < h).
Context (Hgoal : 0 ≤ goal.1 < w ∧ 0 ≤ goal.2 < h).

Local Abbreviation n := (cells w h).
Local Abbreviation sinv := (state_inv w h start goal).
Local Abbreviation vinv := (search_inv w h start goal).



End FirstPass.

(** *** The passes of the search *)

Section SearchRun.
Context `{PyHash}.
Context (w h : Z) (start goal : Z * Z).
Context (Hstart : 0 ≤ start.1 < w ∧ 0 ≤ start.2 < h).
Context (Hgoal : 0 ≤ goal.1 < w ∧ 0 ≤ goal.2 < h).

Local Abbreviation n := (cells w h).
Local Abbreviation sinv := (state_inv w h start goal).
Local Abbreviation vinv := (search_inv w h start goal).




End SearchRun.

(** *** The search on a grid without blocked cells *)




(** The run of the search on an empty 5 × 5 grid from [(0, 0)] to
    [(4, 4)]: it returns, and the parent links of the node it stopped at
    give the diagonal.  The object it returns, [self.end_node], is not a
    node of the grid and has no parent. *)
Lemma run_5x5_diagonal :
  match _on_key_press (H:=demo_hash) 9 (session 5 5 (0, 0) (4, 4)) " " with
  | Some (ReturnEnd self' current_node) =>
      reconstruct_path (store self') current_node
      = Some [(0, 0); (1, 1); (2, 2); (3, 3); (4, 4)]
      ∧ Node.parent_node (deref (store self') (end_node self')) = None
  | _ => False
  end.
Proof. vm_compute. split; reflexivity. Qed.

(** ** Runs on a grid with blocked cells *)

(** *** What a run keeps *)

Section RunKeeps.
Context `{PyHash}.
Context (w h : Z) (start goal : Z * Z) (s0 : A_Star).

Local Abbreviation n := (cells w h).
Local Abbreviation sinv := (state_inv w h start goal).
Local Abbreviation rinv := (run_inv w h start goal s0).

Lemma begin_run_inv :
  idle_inv w h start goal s0 → rinv (push_start (set_A_started true s0)).
Proof.
  intros Hidle. pose proof (begin_state_inv w h start goal s0 Hidle) as Hs.
  pose proof (idle_deref_end _ _ _ _ _ Hidle) as Hend.
  rewrite (idle_end _ _ _ _ _ Hidle) in Hend.
  pose proof (idle_open _ _ _ _ _ Hidle) as Ho.
  pose proof (idle_closed _ _ _ _ _ Hidle) as Hc.
  pose proof (idle_iter _ _ _ _ _ Hidle) as Hi.
  pose proof (idle_start _ _ _ _ _ Hidle) as Hst.
  unfold push_start in *.
  split; cbn [store grid_nodes start_node end_node bloc_nodes openList closedSet
              iter_ A_started set_openList set_A_started] in *; try done.
  - by rewrite Hi, Hc.
  - intros _. by rewrite Ho, Hst.
  - intros r Hr [Hin|Hin].
    + rewrite Ho, Hst in Hin. apply list_elem_of_singleton in Hin. unfold cells in Hr. lia.
    + rewrite Hc in Hin. by apply elem_of_nil in Hin.
  - intros r Hr [Hin|Hin].
    + rewrite Ho, Hst in Hin. apply list_elem_of_singleton in Hin. unfold cells in Hr. lia.
    + rewrite Hc in Hin. by apply elem_of_nil in Hin.
  - intros c r Hin. rewrite Hc in Hin. by apply elem_of_nil in Hin.
  - intros q Hin. rewrite Hc in Hin. by apply elem_of_nil in Hin.
Qed.

Lemma pass_run_inv (self : A_Star) (nxt : ref) (rest : list ref) :
  rinv self →
  sort (store self) (openList self) = nxt :: rest →
  xy (store self) nxt ≠ goal →
  (∃ self' hv,
     loop_body self = Ok (Continue self') ∧ rinv self'
     ∧ closedSet self' = (hv, nxt) :: closedSet self)
  ∨ (loop_body self = Raise RecursionError
     ∧ (hash_room ≤ S (length (closedSet self)))%nat).
Proof.
  intros Hr Hsort Hng. pose proof (ri_state _ _ _ _ _ _ Hr) as Hs.
  destruct (loop_body_cases w h start goal self nxt rest Hs Hsort Hng)
    as [(self' & hv & vs & Hlb & Hs' & Hcl & Hop & Hvs & Hoth & Hxy & Heff
         & (Hbl & Hit & Hsta & Hstn & Hen) & _)|Hraise]; [left|by right].
  assert (Hpar : ∀ r, r ∈ vs →
            Node.parent_node (deref (store self') r)
            = if bool_decide (r ∈ rest)
              then Node.parent_node (deref (store self) r)
              else Some nxt)
    by (intros r Hrv; by destruct (Heff r Hrv) as (_ & _ & ?)).
  clear Heff. exists self', hv. split; [done|]. split; [|done].
  pose proof (sort_perm (store self) (openList self)) as Hperm. rewrite Hsort in Hperm.
  assert (Hnxt : nxt ∈ openList self) by (rewrite <- Hperm; left).
  assert (Hrest : ∀ r, r ∈ rest → r ∈ openList self)
    by (intros r Hin; rewrite <- Hperm; by right).
  assert (Hopen : ∀ r, r ∈ openList self → r = nxt ∨ r ∈ rest)
    by (intros r Hin; rewrite <- Hperm in Hin; by apply elem_of_cons in Hin).
  assert (Hopen' : ∀ r, r ∈ openList self' ↔ r ∈ rest ∨ r ∈ vs).
  { intros r. rewrite Hop, elem_of_app, list_elem_of_filter. split.
    - intros [?|[_ ?]]; [by left|by right].
    - intros [?|?]; [by left|]. destruct (decide (r ∈ rest)); [by left|by right]. }
  assert (Hmem' : ∀ r, r ∈ members (closedSet self') ↔ r = nxt ∨ r ∈ members (closedSet self)).
  { intros r. rewrite Hcl. unfold members. cbn [fmap list_fmap snd]. apply elem_of_cons. }
  assert (Hbloc : ∀ r, is_bloc (store self') (bloc_nodes self') r
                       = is_bloc (store self) (bloc_nodes self) r).
  { intros r. rewrite Hbl. by apply is_bloc_ext. }
  assert (Hold : ∀ r, r ∈ openList self' ∨ r ∈ members (closedSet self') →
                      r ∈ vs ∨ ((r ∉ vs) ∧ (r ∈ openList self ∨ r ∈ members (closedSet self)))).
  { intros r Hin. destruct (decide (r ∈ vs)) as [?|Hnv]; [by left|right].
    split; [done|]. destruct Hin as [[?|?]%Hopen'|[->|?]%Hmem'];
      [left; by apply Hrest|done|by left|by right]. }
  split.
  - done.
  - by rewrite Hsta, (ri_started _ _ _ _ _ _ Hr).
  - by rewrite Hbl, (ri_bloc _ _ _ _ _ _ Hr).
  - intros r. by rewrite Hxy, (ri_xy _ _ _ _ _ _ Hr).
  - rewrite Hoth; [apply (ri_end _ _ _ _ _ _ Hr)|]. intros Hin%Hvs. lia.
  - rewrite Hit, (ri_iter _ _ _ _ _ _ Hr), Hcl. cbn [length]. lia.
  - by rewrite Hcl.
  - intros _. apply Hmem'.
    destruct (closedSet self) as [|e l] eqn:Hc.
    + left. pose proof (ri_begin _ _ _ _ _ _ Hr Hc) as Ho. rewrite Ho in Hnxt.
      by apply list_elem_of_singleton in Hnxt.
    + right. rewrite <- Hc. apply (ri_start_closed _ _ _ _ _ _ Hr). by rewrite Hc.
  - intros r Hrn Hin. rewrite Hbloc.
    destruct (Hold r Hin) as [Hv%Hvs|[_ Ho]]; [by destruct Hv as (_ & _ & _ & _ & ?)|].
    by apply (ri_free _ _ _ _ _ _ Hr).
  - intros r Hrn Hin. destruct (Hold r Hin) as [Hv|[Hnv Ho]].
    + rewrite (Hpar r Hv). case_bool_decide as Hd; [|by eexists].
      apply (ri_has_parent _ _ _ _ _ _ Hr); [done|]. left. by apply Hrest.
    + rewrite (Hoth r Hnv). by apply (ri_has_parent _ _ _ _ _ _ Hr).
  - intros c r Hc Hrn Hadj Hfree. rewrite !Hxy in Hadj. rewrite Hbloc in Hfree.
    assert (Hcase : r ∈ openList self ∨ r ∈ members (closedSet self) ∨ r ∈ vs).
    { apply Hmem' in Hc as [->|Hc].
      - destruct (decide (r = nxt)) as [->|Hne]; [by left|].
        destruct (decide (r ∈ members (closedSet self))) as [?|Hnc]; [right; by left|].
        right. right. by apply Hvs.
      - destruct (ri_closure _ _ _ _ _ _ Hr c r Hc Hrn Hadj Hfree); [by left|right; by left]. }
    destruct Hcase as [[->|?]%Hopen|[?|?]].
    + right. apply Hmem'. by left.
    + left. apply Hopen'. by left.
    + right. apply Hmem'. by right.
    + left. apply Hopen'. by right.
  - intros q [->|Hq]%Hmem'; rewrite Hxy; [done|].
    by apply (ri_not_goal _ _ _ _ _ _ Hr).
Qed.

(** How the loop ends from a state of the invariant. *)
Lemma run_outcome (fuel : nat) (self : A_Star) :
  rinv self →
  match while_loop fuel self with
  | ReturnEnd self' current_node =>
      ∃ s1 rest, self' = set_openList rest s1 ∧ rinv s1
                 ∧ sort (store s1) (openList s1) = current_node :: rest
                 ∧ xy (store s1) current_node = goal
  | ReturnNone self' => rinv self' ∧ openList self' = []
  | Raised e => e = RecursionError ∧ (hash_room ≤ S n)%nat
  | Diverges => (fuel + length (closedSet self) ≤ S n)%nat
  end.
Proof.
  revert self. induction fuel as [|fuel IH]; intros self Hr; cbn [while_loop].
  - pose proof (closed_card w h start goal self (ri_state _ _ _ _ _ _ Hr)). lia.
  - destruct (openList self) as [|o os] eqn:Ho; [done|].
    destruct (extract_total self) as [[nxt s1] Hex]; [by rewrite Ho|].
    apply extract_Some in Hex as (rest & Hsort & _).
    destruct (decide (xy (store self) nxt = goal)) as [Hg|Hng].
    + rewrite (loop_body_found w h start goal self nxt rest
                 (ri_state _ _ _ _ _ _ Hr) Hsort Hg).
      by exists self, rest.
    + destruct (pass_run_inv self nxt rest Hr Hsort Hng)
        as [(self' & hv & -> & Hr' & Hcl)|[-> Hle]].
      * specialize (IH self' Hr'). destruct (while_loop fuel self'); try done.
        rewrite Hcl in IH. cbn [length] in IH. lia.
      * split; [done|].
        pose proof (closed_card_open w h start goal self (ri_state _ _ _ _ _ _ Hr)) as Hc.
        rewrite Ho in Hc. specialize (Hc ltac:(done)). lia.
Qed.

(** *** The parent links of the nodes a run has closed *)

Lemma adjacent_adj (hp : heap) (r p : ref) :
  adjacent (deref hp r) (deref hp p) → adj (xy hp p) (xy hp r).
Proof. unfold adjacent, adj, xy. cbn [fst snd]. lia. Qed.

Lemma free_cell_of (self : A_Star) (r : ref) :
  rinv self → (r < n)%nat →
  is_bloc (store self) (bloc_nodes self) r = false →
  free_cell w h s0 (xy (store self) r).
Proof.
  intros Hr Hrn Hfree. split.
  - by apply (xy_in_bounds w h start goal self r (ri_state _ _ _ _ _ _ Hr)).
  - intros (b & Hb & Heq).
    assert (is_bloc (store self) (bloc_nodes self) r = true) as Ht; [|congruence].
    apply is_bloc_true. exists b. rewrite (ri_bloc _ _ _ _ _ _ Hr).
    split; [done|]. by rewrite (ri_xy _ _ _ _ _ _ Hr).
Qed.

Lemma start_xy (self : A_Star) : sinv self → xy (store self) n = start.
Proof.
  intros Hs. unfold xy. rewrite (si_start_node _ _ _ _ _ Hs).
  cbn [Node.x Node.y Node.init]. by destruct start.
Qed.

Lemma closed_back_path (self : A_Star) (cs : pyset) :
  rinv self → chain_ok (store self) cs →
  (∀ q, q ∈ members cs → q ∈ members (closedSet self)) →
  ∀ q, q ∈ members cs →
    back_path self q ∧ king_path (free_cell w h s0) start (xy (store self) q).
Proof.
  intros Hr. pose proof (ri_state _ _ _ _ _ _ Hr) as Hs.
  induction cs as [|[hv r] cs IH]; intros Hch Hsub q Hq.
  - by apply elem_of_nil in Hq.
  - destruct Hch as [Hpar Hch]. cbn [members fmap list_fmap snd] in Hq, Hsub.
    fold (members cs) in Hq, Hsub.
    assert (IH' := IH Hch (λ q Hq, Hsub q (list_elem_of_further _ _ _ Hq))).
    apply elem_of_cons in Hq as [->|Hq]; [|by apply IH'].
    pose proof (Hsub r (list_elem_of_here _ _)) as Hrc.
    destruct (si_closed_refs _ _ _ _ _ Hs r Hrc) as [Hle _].
    destruct (decide (r = n)) as [->|Hne].
    + split.
      * apply back_start; [by rewrite (si_start _ _ _ _ _ Hs)|].
        by rewrite (si_start_node _ _ _ _ _ Hs).
      * rewrite (start_xy self Hs). apply king_here.
    + assert (Hrn : (r < n)%nat) by lia.
      destruct (ri_has_parent _ _ _ _ _ _ Hr r Hrn (or_intror Hrc)) as [p Hp].
      rewrite Hp in Hpar. destruct (IH' p Hpar) as [Hbp Hkp].
      destruct (si_parent _ _ _ _ _ Hs r p Hle Hp) as [_ Hadj].
      pose proof (ri_free _ _ _ _ _ _ Hr r Hrn (or_intror Hrc)) as Hfree.
      split.
      * by eapply back_step.
      * eapply king_step; [exact Hkp|by apply adjacent_adj|by apply free_cell_of].
Qed.

(** The node the search stops at. *)
Lemma found_back_path (self : A_Star) (cur : ref) :
  rinv self → cur ∈ openList self →
  back_path self cur ∧ king_path (free_cell w h s0) start (xy (store self) cur).
Proof.
  intros Hr Hcur. pose proof (ri_state _ _ _ _ _ _ Hr) as Hs.
  destruct (decide (closedSet self = [])) as [Hc|Hc].
  - pose proof (ri_begin _ _ _ _ _ _ Hr Hc) as Ho. rewrite Ho in Hcur.
    apply list_elem_of_singleton in Hcur as ->. split.
    + apply back_start; [by rewrite (si_start _ _ _ _ _ Hs)|].
      by rewrite (si_start_node _ _ _ _ _ Hs).
    + rewrite (start_xy self Hs). apply king_here.
  - assert (Hrn : (cur < n)%nat).
    { by destruct (si_open_refs _ _ _ _ _ Hs cur Hcur) as [?|[_ ?]]. }
    destruct (ri_has_parent _ _ _ _ _ _ Hr cur Hrn (or_introl Hcur)) as [p Hp].
    destruct (si_parent _ _ _ _ _ Hs cur p) as [Hpc Hadj]; [lia|done|].
    destruct (closed_back_path self (closedSet self) Hr (si_chain _ _ _ _ _ Hs)
                (λ q Hq, Hq) p Hpc) as [Hbp Hkp].
    pose proof (ri_free _ _ _ _ _ _ Hr cur Hrn (or_introl Hcur)) as Hfree.
    split.
    + by eapply back_step.
    + eapply king_step; [exact Hkp|by apply adjacent_adj|by apply free_cell_of].
Qed.

(** When the open list is empty the closed set holds a node for every cell
    a free king walk reaches from the start. *)
Lemma exhausted_closed (self : A_Star) (p : Z * Z) :
  rinv self → openList self = [] →
  king_path (free_cell w h s0) start p →
  ∃ c, c ∈ members (closedSet self) ∧ xy (store self) c = p.
Proof.
  intros Hr Ho Hk. pose proof (ri_state _ _ _ _ _ _ Hr) as Hs.
  assert (Hne : closedSet self ≠ []).
  { intros Hc. pose proof (ri_begin _ _ _ _ _ _ Hr Hc) as Ho'. by rewrite Ho in Ho'. }
  induction Hk as [|q r Hk IH Hadj Hfr].
  - exists n. split; [by apply (ri_start_closed _ _ _ _ _ _ Hr)|by apply start_xy].
  - destruct IH as (c & Hc & Hcq). destruct Hfr as [[Hr1 Hr2] Hnb].
    destruct (cell_of w h start goal self r Hs Hr1 Hr2) as [Hrn Hrxy].
    set (r' := Z.to_nat (r.1 * h + r.2)) in *.
    assert (Hfree : is_bloc (store self) (bloc_nodes self) r' = false).
    { destruct (is_bloc (store self) (bloc_nodes self) r') eqn:E; [|done].
      apply is_bloc_true in E as (b & Hb & Heq). exfalso. apply Hnb.
      exists b. rewrite <- (ri_bloc _ _ _ _ _ _ Hr). split; [done|].
      by rewrite <- (ri_xy _ _ _ _ _ _ Hr), Heq. }
    destruct (ri_closure _ _ _ _ _ _ Hr c r' Hc Hrn) as [Hin|Hin].
    + by rewrite Hcq, Hrxy.
    + done.
    + rewrite Ho in Hin. by apply elem_of_nil in Hin.
    + by exists r'.
Qed.

End RunKeeps.

(** *** Whole runs *)

Lemma detour_idle : idle_inv 3 3 (0, 0) (0, 2) detour.
Proof. by apply handle_mouse_idle_inv, (main_idle_inv numpy64). Qed.

Lemma walled_idle : idle_inv 1 3 (0, 0) (0, 2) walled.
Proof. by apply handle_mouse_idle_inv, (main_idle_inv numpy64). Qed.

(** X1: a run begun in an idle state ends: with fuel for two passes more
    than the grid has cells the loop has returned, through [return
    self.end_node] or by falling off the loop, or [__hash__] has raised
    [RecursionError]; it does not go on.  It has returned when the
    interpreter has room for two nested calls of [__hash__] more than the
    grid has cells. *)
Theorem run_terminates `{PyHash} (w h : Z) (start goal : Z * Z) (self : A_Star)
    (fuel : nat) :
  idle_inv w h start goal self → (cells w h + 2 ≤ fuel)%nat →
  ((∃ self', run_A_star fuel (set_A_started true self) = ReturnNone self'
             ∨ ∃ current_node,
                 run_A_star fuel (set_A_started true self)
                 = ReturnEnd self' current_node)
   ∨ run_A_star fuel (set_A_started true self) = Raised RecursionError)
  ∧ ((cells w h + 2 ≤ hash_room)%nat →
     ∃ self', run_A_star fuel (set_A_started true self) = ReturnNone self'
              ∨ ∃ current_node,
                  run_A_star fuel (set_A_started true self)
                  = ReturnEnd self' current_node).
Proof.
  intros Hidle Hfuel.
  pose proof (run_outcome w h start goal self fuel _
                (begin_run_inv w h start goal self Hidle)) as Hout.
  unfold run_A_star. destruct (while_loop fuel _) as [s' cur|s'|e|].
  - split; [left|intros _]; exists s'; right; by exists cur.
  - split; [left|intros _]; exists s'; by left.
  - destruct Hout as [-> Hle]. split; [by right|]. unfold cells in *. lia.
  - cbn [length closedSet push_start set_openList set_A_started] in Hout.
    rewrite (idle_closed _ _ _ _ _ Hidle) in Hout. cbn [length] in Hout.
    unfold cells in *. lia.
Qed.

Lemma run_terminates_witness :
  ∃ self', run_A_star (H:=demo_hash) 11 (set_A_started true detour) = ReturnNone self'
           ∨ ∃ current_node,
               run_A_star (H:=demo_hash) 11 (set_A_started true detour)
               = ReturnEnd self' current_node.
Proof.
  destruct (run_terminates (H:=demo_hash) 3 3 (0, 0) (0, 2) detour 11) as [_ Hret].
  - apply detour_idle.
  - vm_compute. lia.
  - apply Hret. vm_compute. lia.
Defined.

(** X3: when a run returns through [return self.end_node], the node it
    stopped at has the coordinates of the end node, and its [parent_node]
    links lead to the start node, each to a neighbouring node, through nodes
    that are not blocked. *)
Theorem found_parent_links `{PyHash} (w h : Z) (start goal : Z * Z)
    (self self' : A_Star) (current_node : ref) (fuel : nat) :
  idle_inv w h start goal self →
  run_A_star fuel (set_A_started true self) = ReturnEnd self' current_node →
  xy (store self') current_node = goal ∧ back_path self' current_node.
Proof.
  intros Hidle Hrun.
  pose proof (run_outcome w h start goal self fuel _
                (begin_run_inv w h start goal self Hidle)) as Hout.
  unfold run_A_star in Hrun. rewrite Hrun in Hout.
  destruct Hout as (s1 & rest & -> & Hr & Hsort & Hg). split; [done|].
  pose proof (sort_perm (store s1) (openList s1)) as Hperm. rewrite Hsort in Hperm.
  assert (Hcur : current_node ∈ openList s1) by (rewrite <- Hperm; left).
  destruct (found_back_path w h start goal self s1 current_node Hr Hcur) as [Hbp _].
  clear -Hbp. induction Hbp as [r Hst Hp|r p Hp Hadj Hfree _ IH].
  - by apply back_start.
  - by eapply back_step.
Qed.

Lemma found_parent_links_witness :
  xy (store (outcome_state detour_run detour)) (outcome_node detour_run) = (0, 2)
  ∧ back_path (outcome_state detour_run detour) (outcome_node detour_run).
Proof.
  apply (found_parent_links (H:=demo_hash) 3 3 (0, 0) (0, 2) detour _ _ 11).
  - apply detour_idle.
  - vm_compute. reflexivity.
Defined.

(** X2: a run that returns through [return self.end_node] shows that king
    moves lead from the start to the end coordinates through cells of the
    grid without a blocked node, and a run that falls off the loop ("No
    valid path found") shows that they do not.  With fuel for two passes
    more than the grid has cells, and room in the interpreter for as many
    nested calls of [__hash__], the run returns the one way or the other:
    through [return self.end_node] exactly when such moves exist. *)
Theorem found_iff_reachable `{PyHash} (w h : Z) (start goal : Z * Z)
    (self : A_Star) (fuel : nat) :
  idle_inv w h start goal self →
  ((∃ self' current_node,
      run_A_star fuel (set_A_started true self) = ReturnEnd self' current_node) →
   king_path (free_cell w h self) start goal)
  ∧ ((∃ self', run_A_star fuel (set_A_started true self) = ReturnNone self') →
     ¬ king_path (free_cell w h self) start goal)
  ∧ ((cells w h + 2 ≤ fuel)%nat → (cells w h + 2 ≤ hash_room)%nat →
     ((∃ self' current_node,
         run_A_star fuel (set_A_started true self) = ReturnEnd self' current_node)
      ↔ king_path (free_cell w h self) start goal)
     ∧ ((∃ self', run_A_star fuel (set_A_started true self) = ReturnNone self')
        ↔ ¬ king_path (free_cell w h self) start goal)).
Proof.
  intros Hidle.
  pose proof (run_outcome w h start goal self fuel _
                (begin_run_inv w h start goal self Hidle)) as Hout.
  unfold run_A_star. destruct (while_loop fuel _) as [s' cur|s'|e|].
  - destruct Hout as (s1 & rest & -> & Hr & Hsort & Hg).
    pose proof (sort_perm (store s1) (openList s1)) as Hperm. rewrite Hsort in Hperm.
    assert (Hcur : cur ∈ openList s1) by (rewrite <- Hperm; left).
    destruct (found_back_path w h start goal self s1 cur Hr Hcur) as [_ Hk].
    rewrite Hg in Hk. split; [done|]. split; [by intros [? ?]|]. intros _ _. split.
    + split; [done|]. intros _. by exists (set_openList rest s1), cur.
    + split; [by intros [? ?]|done].
  - destruct Hout as [Hr Ho].
    assert (Hno : ¬ king_path (free_cell w h self) start goal).
    { intros Hk.
      destruct (exhausted_closed w h start goal self s' goal Hr Ho Hk) as (c & Hc & Hcg).
      by apply (ri_not_goal _ _ _ _ _ _ Hr c Hc). }
    split; [by intros (? & ? & ?)|]. split; [done|]. intros _ _. split.
    + split; [by intros (? & ? & ?)|done].
    + split; [done|]. intros _. by exists s'.
  - destruct Hout as [_ Hle].
    split; [by intros (? & ? & ?)|]. split; [by intros [? ?]|].
    intros _ Hroom. unfold cells in *. lia.
  - split; [by intros (? & ? & ?)|]. split; [by intros [? ?]|].
    intros Hfuel _.
    cbn [length closedSet push_start set_openList set_A_started] in Hout.
    rewrite (idle_closed _ _ _ _ _ Hidle) in Hout. cbn [length] in Hout.
    unfold cells in *. lia.
Qed.

Lemma found_iff_reachable_witness :
  ((∃ self' current_node,
      run_A_star (H:=demo_hash) 5 (set_A_started true walled)
      = ReturnEnd self' current_node)
   ↔ king_path (free_cell 1 3 walled) (0, 0) (0, 2))
  ∧ ((∃ self', run_A_star (H:=demo_hash) 5 (set_A_started true walled)
               = ReturnNone self')
     ↔ ¬ king_path (free_cell 1 3 walled) (0, 0) (0, 2)).
Proof.
  destruct (found_iff_reachable (H:=demo_hash) 1 3 (0, 0) (0, 2) walled 5)
    as (_ & _ & Hiff).
  - apply walled_idle.
  - apply Hiff; vm_compute; lia.
Defined.

(** The invariant at the state a run returns with. *)
Lemma run_end_inv `{PyHash} (w h : Z) (start goal : Z * Z) (self self' : A_Star)
    (fuel : nat) :
  idle_inv w h start goal self →
  run_A_star fuel (set_A_started true self) = ReturnNone self'
  ∨ (∃ current_node,
       run_A_star fuel (set_A_started true self) = ReturnEnd self' current_node) →
  ∃ s1 rest, self' = set_openList rest s1 ∧ run_inv w h start goal self s1.
Proof.
  intros Hidle Hrun.
  pose proof (run_outcome w h start goal self fuel _
                (begin_run_inv w h start goal self Hidle)) as Hout.
  unfold run_A_star in Hrun. destruct Hrun as [Hrun|[cur Hrun]]; rewrite Hrun in Hout.
  - destruct Hout as [Hr Ho]. exists self', []. split; [|done].
    rewrite <- Ho. by destruct self'.
  - destruct Hout as (s1 & rest & -> & Hr & _). by exists s1, rest.
Qed.

(** X9: when a run returns, [iter_] is the number of nodes in the closed
    set: every pass that goes on closes one node and counts one iteration,
    and no node is closed twice. *)
Theorem iter_counts_closed `{PyHash} (w h : Z) (start goal : Z * Z)
    (self self' : A_Star) (fuel : nat) :
  idle_inv w h start goal self →
  run_A_star fuel (set_A_started true self) = ReturnNone self'
  ∨ (∃ current_node,
       run_A_star fuel (set_A_started true self) = ReturnEnd self' current_node) →
  iter_ self' = Z.of_nat (length (closedSet self'))
  ∧ NoDup (members (closedSet self')).
Proof.
  intros Hidle Hrun.
  destruct (run_end_inv w h start goal self self' fuel Hidle Hrun) as (s1 & rest & -> & Hr).
  cbn [iter_ closedSet set_openList]. split; [apply (ri_iter _ _ _ _ _ _ Hr)|].
  apply (si_closed_nodup _ _ _ _ _ (ri_state _ _ _ _ _ _ Hr)).
Qed.

Lemma iter_counts_closed_witness :
  iter_ (outcome_state detour_run detour)
  = Z.of_nat (length (closedSet (outcome_state detour_run detour)))
  ∧ NoDup (members (closedSet (outcome_state detour_run detour))).
Proof.
  apply (iter_counts_closed (H:=demo_hash) 3 3 (0, 0) (0, 2) detour _ 11).
  - apply detour_idle.
  - right. exists (outcome_node detour_run). vm_compute. reflexivity.
Defined.

(** X10: a run leaves the set-up as it was: the list of blocked nodes,
    the start and the end node and the coordinates of every object are those
    of the idle state, and the end node, the object [run_A_star] returns,
    is as [Node(x, y)] made it, with no parent and no cost. *)
Theorem run_keeps_setup `{PyHash} (w h : Z) (start goal : Z * Z)
    (self self' : A_Star) (fuel : nat) :
  idle_inv w h start goal self →
  run_A_star fuel (set_A_started true self) = ReturnNone self'
  ∨ (∃ current_node,
       run_A_star fuel (set_A_started true self) = ReturnEnd self' current_node) →
  bloc_nodes self' = bloc_nodes self
  ∧ start_node self' = start_node self
  ∧ end_node self' = end_node self
  ∧ (∀ r, xy (store self') r = xy (store self) r)
  ∧ deref (store self') (end_node self') = Node.init goal.1 goal.2.
Proof.
  intros Hidle Hrun.
  destruct (run_end_inv w h start goal self self' fuel Hidle Hrun) as (s1 & rest & -> & Hr).
  pose proof (ri_state _ _ _ _ _ _ Hr) as Hs.
  cbn [bloc_nodes start_node end_node store set_openList].
  rewrite (si_start _ _ _ _ _ Hs), (si_end _ _ _ _ _ Hs).
  rewrite (idle_start _ _ _ _ _ Hidle), (idle_end _ _ _ _ _ Hidle).
  split; [apply (ri_bloc _ _ _ _ _ _ Hr)|]. split; [done|]. split; [done|].
  split; [apply (ri_xy _ _ _ _ _ _ Hr)|apply (ri_end _ _ _ _ _ _ Hr)].
Qed.

Lemma run_keeps_setup_witness :
  bloc_nodes (outcome_state detour_run detour) = bloc_nodes detour
  ∧ start_node (outcome_state detour_run detour) = start_node detour
  ∧ end_node (outcome_state detour_run detour) = end_node detour
  ∧ (∀ r, xy (store (outcome_state detour_run detour)) r = xy (store detour) r)
  ∧ deref (store (outcome_state detour_run detour))
          (end_node (outcome_state detour_run detour))
    = Node.init (0, 2).1 (0, 2).2.
Proof.
  apply (run_keeps_setup (H:=demo_hash) 3 3 (0, 0) (0, 2) detour _ 11).
  - apply detour_idle.
  - right. exists (outcome_node detour_run). vm_compute. reflexivity.
Defined.

(** X11: once a run has returned, the figure takes no further input:
    [A_started] is still set, so the space bar starts no second search and
    a mouse event leaves the state as it is. *)
Theorem finished_ignores_events `{PyHash} (w h : Z) (start goal : Z * Z)
    (self self' : A_Star) (fuel fuel' : nat) (key : string) (event : MouseEvent) :
  idle_inv w h start goal self →
  run_A_star fuel (set_A_started true self) = ReturnNone self'
  ∨ (∃ current_node,
       run_A_star fuel (set_A_started true self) = ReturnEnd self' current_node) →
  _on_key_press fuel' self' key = None
  ∧ _mouse_button_press self' event = Ok self'.
Proof.
  intros Hidle Hrun.
  destruct (run_end_inv w h start goal self self' fuel Hidle Hrun) as (s1 & rest & -> & Hr).
  pose proof (ri_started _ _ _ _ _ _ Hr) as Hst.
  unfold _on_key_press, _mouse_button_press. cbn [A_started set_openList].
  rewrite Hst, andb_false_r. split; [done|].
  by destruct (ev_pos event) as [[i j]|].
Qed.

Lemma finished_ignores_events_witness :
  _on_key_press (H:=demo_hash) 11 (outcome_state detour_run detour) " " = None
  ∧ _mouse_button_press (outcome_state detour_run detour) (left_click 1 1)
    = Ok (outcome_state detour_run detour).
Proof.
  apply (finished_ignores_events (H:=demo_hash) 3 3 (0, 0) (0, 2) detour _ 11).
  - apply detour_idle.
  - right. exists (outcome_node detour_run). vm_compute. reflexivity.
Defined.

(** *** Every point of a run *)

Lemma reachable_state_inv `{PyHash} (pt : point) :
  reachable pt → ∃ w h start goal, state_inv w h start goal (point_state pt).
Proof.
  intros (w & h & start & goal & Hinv)%reachable_inv. exists w, h, start, goal.
  destruct pt as [s|s c rest]; cbn [point_inv point_state] in *; [done|by destruct Hinv].
Qed.

(** X7: at every point of a run the open list holds no node twice,
    the closed set holds no node twice, and no node of the open list is in
    the closed set. *)
Theorem open_closed_disjoint `{PyHash} (pt : point) :
  reachable pt →
  NoDup (openList (point_state pt))
  ∧ NoDup (members (closedSet (point_state pt)))
  ∧ ∀ r, r ∈ openList (point_state pt) → r ∉ members (closedSet (point_state pt)).
Proof.
  intros (w & h & start & goal & Hs)%reachable_state_inv.
  split; [apply (si_open_nodup _ _ _ _ _ Hs)|].
  split; [apply (si_closed_nodup _ _ _ _ _ Hs)|].
  intros r Hr Hc. by destruct (si_closed_refs _ _ _ _ _ Hs r Hc).
Qed.

Lemma open_closed_disjoint_witness :
  NoDup (openList (point_state (AtLoop after_pass1)))
  ∧ NoDup (members (closedSet (point_state (AtLoop after_pass1))))
  ∧ ∀ r, r ∈ openList (point_state (AtLoop after_pass1)) →
         r ∉ members (closedSet (point_state (AtLoop after_pass1))).
Proof.
  apply (open_closed_disjoint (H:=demo_hash)). apply reachable_after_pass1.
Defined.

(** X5: at every point of a run [node in self.closedSet] answers by
    identity, although [__hash__] reads fields the loop assigns: when it
    answers, it is true of an object of the closed set and false of any
    other, a node of the open list among them.  It raises nothing but
    [RecursionError], and it answers for the objects of the closed set and
    of the open list when the interpreter has room for more nested calls of
    [__hash__] than the closed set has members. *)
Theorem closed_lookup_by_identity `{PyHash} (pt : point) (r : ref) :
  reachable pt →
  (∀ b, set_contains (store (point_state pt)) (closedSet (point_state pt)) r = Ok b →
        (b = true ↔ r ∈ members (closedSet (point_state pt)))
        ∧ (r ∈ openList (point_state pt) → b = false))
  ∧ (∀ e, set_contains (store (point_state pt)) (closedSet (point_state pt)) r = Raise e →
          e = RecursionError)
  ∧ (r ∈ members (closedSet (point_state pt)) ∨ r ∈ openList (point_state pt) →
     (length (closedSet (point_state pt)) < hash_depth_in)%nat →
     ∃ b, set_contains (store (point_state pt)) (closedSet (point_state pt)) r = Ok b).
Proof.
  intros (w & h & start & goal & Hs)%reachable_state_inv.
  split; [|split].
  - intros b Hb. rewrite (set_contains_Ok w h start goal _ r b Hs Hb).
    split; [apply bool_decide_eq_true|].
    intros Ho. apply bool_decide_eq_false_2. intros Hc.
    by destruct (si_closed_refs _ _ _ _ _ Hs r Hc).
  - intros e He. by rewrite (set_contains_Raise _ _ _ _ He).
  - intros Hin Hroom.
    assert (Hrn : (r ≤ cells w h)%nat).
    { destruct Hin as [Hc|Ho]; [by destruct (si_closed_refs _ _ _ _ _ Hs r Hc)|].
      destruct (si_open_refs _ _ _ _ _ Hs r Ho) as [?|[Ho' _]]; [lia|].
      rewrite Ho' in Ho. apply list_elem_of_singleton in Ho. lia. }
    destruct (set_contains_cases w h start goal _ r Hs Hrn) as [Hc|[_ Hle]]; [|lia].
    by eexists.
Qed.

Lemma closed_lookup_by_identity_witness :
  set_contains (H:=demo_hash) (store (point_state (AtLoop after_pass1)))
               (closedSet (point_state (AtLoop after_pass1))) 225%nat = Ok true
  ∧ set_contains (H:=demo_hash) (store (point_state (AtLoop after_pass1)))
                 (closedSet (point_state (AtLoop after_pass1))) 33%nat = Ok false.
Proof.
  split.
  - destruct (closed_lookup_by_identity (H:=demo_hash) (AtLoop after_pass1) 225%nat
                reachable_after_pass1) as (Hans & _ & Hroom).
    destruct Hroom as [b Hb].
    + left. apply (bool_decide_unpack _). vm_compute. exact I.
    + vm_compute. lia.
    + rewrite Hb. f_equal.
      apply (Hans b Hb). apply (bool_decide_unpack _). vm_compute. exact I.
  - destruct (closed_lookup_by_identity (H:=demo_hash) (AtLoop after_pass1) 33%nat
                reachable_after_pass1) as (Hans & _ & Hroom).
    destruct Hroom as [b Hb].
    + right. apply (bool_decide_unpack _). vm_compute. exact I.
    + vm_compute. lia.
    + rewrite Hb. f_equal.
      apply (Hans b Hb). apply (bool_decide_unpack _). vm_compute. exact I.
Defined.

(** X6: a pass of the loop writes to no object of the closed set: the
    nodes closed before the pass and the node the pass closes keep all
    their fields. *)
Theorem closed_nodes_frozen `{PyHash} (self self' : A_Star) (r : ref) :
  reachable (AtLoop self) →
  loop_body self = Ok (Continue self') →
  r ∈ members (closedSet self') →
  deref (store self') r = deref (store self) r.
Proof.
  intros Hreach Hlb Hr.
  destruct (reachable_state_inv _ Hreach) as (w & h & start & goal & Hs).
  cbn [point_state] in Hs.
  destruct (extract self) as [[nxt s1]|] eqn:Hex; [|by unfold loop_body in Hlb; rewrite Hex in Hlb].
  apply extract_Some in Hex as (rest & Hsort & _).
  destruct (decide (xy (store self) nxt = goal)) as [Hg|Hng].
  - by rewrite (loop_body_found w h start goal self nxt rest Hs Hsort Hg) in Hlb.
  - destruct (loop_body_cases w h start goal self nxt rest Hs Hsort Hng)
      as [(s2 & hv & vs & Hlb2 & _ & Hcl & _ & Hvs & Hoth & _)|[Hlb2 _]];
      [|by rewrite Hlb in Hlb2].
    rewrite Hlb in Hlb2. injection Hlb2 as <-. apply Hoth. intros Hv%Hvs.
    rewrite Hcl in Hr. unfold members in Hr. cbn [fmap list_fmap snd] in Hr.
    destruct Hv as (_ & Hne & Hnc & _). by apply elem_of_cons in Hr as [?|?].
Qed.

Lemma closed_nodes_frozen_witness :
  deref (store after_pass2) 33%nat = deref (store after_pass1) 33%nat.
Proof.
  apply (closed_nodes_frozen (H:=demo_hash)).
  - apply reachable_after_pass1.
  - vm_compute. reflexivity.
  - apply (bool_decide_unpack _). vm_compute. exact I.
Defined.

(** X8: at every point of a run a node of the open list has, once the
    start node has been closed, the Manhattan distance to the end node as
    its [h_cost], and a parent, if it has one, that is an object of the
    closed set and a king move away from it. *)
Theorem open_nodes_heuristic_parent `{PyHash} (pt : point) (r : ref) :
  reachable pt → r ∈ openList (point_state pt) →
  (closedSet (point_state pt) ≠ [] →
   Node.h_cost (deref (store (point_state pt)) r)
   = get_distance (deref (store (point_state pt)) r)
                  (deref (store (point_state pt)) (end_node (point_state pt))))
  ∧ ∀ p, Node.parent_node (deref (store (point_state pt)) r) = Some p →
         p ∈ members (closedSet (point_state pt))
         ∧ adjacent (deref (store (point_state pt)) r) (deref (store (point_state pt)) p).
Proof.
  intros (w & h & start & goal & Hs)%reachable_state_inv Hr.
  assert (Hrn : (r ≤ cells w h)%nat).
  { destruct (si_open_refs _ _ _ _ _ Hs r Hr) as [?|[Ho _]]; [lia|].
    rewrite Ho in Hr. apply list_elem_of_singleton in Hr. lia. }
  split.
  - intros Hne. rewrite (si_end _ _ _ _ _ Hs). apply (si_open_h _ _ _ _ _ Hs r Hr).
    by destruct (si_open_refs _ _ _ _ _ Hs r Hr) as [?|[_ ?]].
  - intros p Hp. by apply (si_parent _ _ _ _ _ Hs r p Hrn Hp).
Qed.

Lemma open_nodes_heuristic_parent_witness :
  (closedSet (point_state (AtLoop after_pass1)) ≠ [] →
   Node.h_cost (deref (store (point_state (AtLoop after_pass1))) 33%nat)
   = get_distance (deref (store (point_state (AtLoop after_pass1))) 33%nat)
                  (deref (store (point_state (AtLoop after_pass1)))
                         (end_node (point_state (AtLoop after_pass1)))))
  ∧ ∀ p, Node.parent_node (deref (store (point_state (AtLoop after_pass1))) 33%nat)
         = Some p →
         p ∈ members (closedSet (point_state (AtLoop after_pass1)))
         ∧ adjacent (deref (store (point_state (AtLoop after_pass1))) 33%nat)
                    (deref (store (point_state (AtLoop after_pass1))) p).
Proof.
  apply (open_nodes_heuristic_parent (H:=demo_hash)).
  - apply reachable_after_pass1.
  - apply (bool_decide_unpack _). vm_compute. exact I.
Defined.

Lemma length_omap_le {A B} (f : A → option B) (l : list A) :
  (length (omap f l) ≤ length l)%nat.
Proof.
  induction l as [|a l IH]; [done|]. cbn [omap list_omap].
  destruct (f a); cbn [length]; lia.
Qed.

(** X4: at every point of a run [get_valid_nodes] returns, without [None]
    and without repetition, exactly the nodes of the grid that are a king
    move away from the given node, are not objects of the closed set and
    have no blocked node at their coordinates; there are at most eight.
    The one other thing it can do is to raise [RecursionError] from a lookup
    in the closed set, which takes a closed set with as many members as the
    interpreter has room for nested calls of [__hash__]. *)
Theorem get_valid_nodes_spec `{PyHash} (pt : point) (current_node : ref) :
  reachable pt →
  ∃ vs, NoDup vs ∧ (length vs ≤ 8)%nat
        ∧ (∀ r, r ∈ vs
                ↔ (r < Z.to_nat (width (grid_nodes (point_state pt))
                                 * height (grid_nodes (point_state pt))))%nat
                  ∧ (r ∉ members (closedSet (point_state pt)))
                  ∧ adj (xy (store (point_state pt)) current_node)
                        (xy (store (point_state pt)) r)
                  ∧ is_bloc (store (point_state pt)) (bloc_nodes (point_state pt)) r
                    = false)
        ∧ (get_valid_nodes (point_state pt) current_node = Ok (Some <$> vs)
           ∨ (get_valid_nodes (point_state pt) current_node = Raise RecursionError
              ∧ (hash_depth_in ≤ length (closedSet (point_state pt)))%nat)).
Proof.
  intros (w & h & start & goal & Hs)%reachable_state_inv.
  exists (free_refs (point_state pt) current_node).
  split; [by eapply free_refs_NoDup|]. split; [|split].
  - unfold free_refs, valid_refs.
    etransitivity; [apply length_filter|].
    etransitivity; [apply length_filter|].
    etransitivity; [apply length_omap_le|].
    vm_compute. lia.
  - intros r. rewrite (si_grid _ _ _ _ _ Hs). cbn [width height].
    by apply (free_refs_spec w h start goal).
  - by apply (get_valid_nodes_cases w h start goal).
Qed.

Lemma get_valid_nodes_spec_witness :
  ∃ vs, NoDup vs ∧ (length vs ≤ 8)%nat
        ∧ (∀ r, r ∈ vs
                ↔ (r < Z.to_nat (width (grid_nodes (point_state (AtLoop after_pass1)))
                                 * height (grid_nodes (point_state (AtLoop after_pass1)))))%nat
                  ∧ (r ∉ members (closedSet (point_state (AtLoop after_pass1))))
                  ∧ adj (xy (store (point_state (AtLoop after_pass1))) 33%nat)
                        (xy (store (point_state (AtLoop after_pass1))) r)
                  ∧ is_bloc (store (point_state (AtLoop after_pass1)))
                            (bloc_nodes (point_state (AtLoop after_pass1))) r
                    = false)
        ∧ (get_valid_nodes (H:=demo_hash) (point_state (AtLoop after_pass1)) 33%nat
           = Ok (Some <$> vs)
           ∨ (get_valid_nodes (H:=demo_hash) (point_state (AtLoop after_pass1)) 33%nat
              = Raise RecursionError
              ∧ (hash_depth_in (PyHash:=demo_hash)
                 ≤ length (closedSet (point_state (AtLoop after_pass1))))%nat)).
Proof.
  apply (get_valid_nodes_spec (H:=demo_hash)). apply reachable_after_pass1.
Defined.

(** ** The order of the nodes and the sort *)

(** X14: [__gt__] is the converse of [__lt__]. *)
Theorem gt_converse_lt (a b : Node.t) : Node.gt a b = Node.lt b a.
Proof.
  unfold Node.gt, Node.lt. rewrite (Z.eqb_sym (Node.F_cost a)).
  destruct (_ =? _); apply Z.gtb_ltb.
Qed.



Lemma sort_insert_sorted (hp : heap) (x : ref) (l : list ref) :
  sorted hp l → sorted hp (sort_insert hp x l).
Proof.
  induction l as [|b l IH]; cbn [sort_insert sorted].
  { intros _. split; [|done]. intros b Hb. by apply elem_of_nil in Hb. }
  intros [Hb Hl]. destruct (Node.lt (deref hp b) (deref hp x)) eqn:E; cbn [sorted].
  - split; [|by apply IH]. intros e He.
    rewrite (sort_insert_perm hp x l) in He. apply elem_of_cons in He as [->|He].
    + by apply lt_true_key_le.
    + by apply Hb.
  - apply lt_false_key_le in E. split; [|by split].
    intros e [->|He]%elem_of_cons; [done|].
    eapply key_le_trans; [exact E|by apply Hb].
Qed.

Lemma sort_sorted (hp : heap) (l : list ref) : sorted hp (sort hp l).
Proof.
  induction l as [|x l IH]; [done|]. cbn [sort foldr]. by apply sort_insert_sorted.
Qed.

Lemma sorted_before (hp : heap) (l : list ref) (a b : ref) :
  sorted hp l → before l a b → key_le (deref hp a) (deref hp b).
Proof.
  intros Hs (l1 & l2 & -> & Hb). induction l1 as [|c l1 IH]; cbn [app sorted] in Hs.
  - destruct Hs as [Ha _]. by apply Ha.
  - destruct Hs as [_ Hs]. by apply IH.
Qed.

Lemma before_cons {A} (l : list A) (x a b : A) : before l a b → before (x :: l) a b.
Proof. intros (l1 & l2 & -> & Hb). by exists (x :: l1), l2. Qed.

Lemma before_head {A} (l : list A) (a b : A) : b ∈ l → before (a :: l) a b.
Proof. intros Hb. by exists [], l. Qed.

Lemma before_cons_inv {A} (l : list A) (x a b : A) :
  before (x :: l) a b → (a = x ∧ b ∈ l) ∨ before l a b.
Proof.
  intros (l1 & l2 & Heq & Hb). destruct l1 as [|c l1]; cbn [app] in Heq.
  - injection Heq as -> ->. by left.
  - injection Heq as -> ->. right. by exists l1, l2.
Qed.

Lemma sort_insert_before_old (hp : heap) (x a b : ref) (l : list ref) :
  before l a b → before (sort_insert hp x l) a b.
Proof.
  induction l as [|c l IH]; cbn [sort_insert].
  - intros (l1 & l2 & Heq & _). by destruct l1.
  - intros Hb. destruct (Node.lt (deref hp c) (deref hp x)); [|by apply before_cons].
    apply before_cons_inv in Hb as [[-> Hb]|Hb].
    + apply before_head. rewrite (sort_insert_perm hp x l). by right.
    + by apply before_cons, IH.
Qed.

Lemma sort_insert_before_new (hp : heap) (x b : ref) (l : list ref) :
  b ∈ l → Node.lt (deref hp b) (deref hp x) = false →
  before (sort_insert hp x l) x b.
Proof.
  intros Hb Hlt. induction l as [|c l IH]; cbn [sort_insert].
  - by apply elem_of_nil in Hb.
  - destruct (Node.lt (deref hp c) (deref hp x)) eqn:E; [|by apply before_head].
    apply before_cons, IH. apply elem_of_cons in Hb as [->|Hb]; [congruence|done].
Qed.

(** X12: [self.openList.sort()] rearranges the open list so that no node
    is below, by [__lt__], a node placed before it, and keeps the order in
    which it found two nodes of which the later is not below the earlier:
    nodes with equal costs stay in their order of insertion. *)
Theorem sort_sorted_stable (hp : heap) (l : list ref) :
  sort hp l ≡ₚ l
  ∧ (∀ a b, before (sort hp l) a b → Node.lt (deref hp b) (deref hp a) = false)
  ∧ (∀ a b, before l a b → Node.lt (deref hp b) (deref hp a) = false →
            before (sort hp l) a b).
Proof.
  split; [apply sort_perm|]. split.
  - intros a b Hb. apply lt_false_key_le. eapply sorted_before; [apply sort_sorted|done].
  - induction l as [|x l IH]; intros a b Hb Hlt.
    + destruct Hb as (l1 & l2 & Heq & _). by destruct l1.
    + cbn [sort foldr]. apply before_cons_inv in Hb as [[-> Hb]|Hb].
      * apply sort_insert_before_new; [|done]. by rewrite (sort_perm hp l).
      * by apply sort_insert_before_old, IH.
Qed.

(** ** The distance *)

(** X15: [get_distance] is a metric on the coordinates of the nodes: it
    is not negative, symmetric, zero exactly between nodes with the same
    coordinates, and satisfies the triangle inequality. *)
Theorem get_distance_metric (a b c : Node.t) :
  0 ≤ get_distance a b
  ∧ get_distance a b = get_distance b a
  ∧ (get_distance a b = 0 ↔ Node.x a = Node.x b ∧ Node.y a = Node.y b)
  ∧ get_distance a c ≤ get_distance a b + get_distance b c.
Proof. unfold get_distance. lia. Qed.

(** X16: between two nodes a king move apart the distance, which is the
    cost the loop adds to [g_cost], is 1 along a row or a column and 2
    along a diagonal. *)
Theorem get_distance_step (a b : Node.t) :
  adjacent a b →
  (get_distance a b = 1 ∧ (Node.x a = Node.x b ∨ Node.y a = Node.y b))
  ∨ (get_distance a b = 2 ∧ Node.x a ≠ Node.x b ∧ Node.y a ≠ Node.y b).
Proof. unfold adjacent, get_distance. lia. Qed.

Lemma get_distance_step_witness :
  (get_distance (Node.init 2 2) (Node.init 3 3) = 1
   ∧ (Node.x (Node.init 2 2) = Node.x (Node.init 3 3)
      ∨ Node.y (Node.init 2 2) = Node.y (Node.init 3 3)))
  ∨ (get_distance (Node.init 2 2) (Node.init 3 3) = 2
     ∧ Node.x (Node.init 2 2) ≠ Node.x (Node.init 3 3)
     ∧ Node.y (Node.init 2 2) ≠ Node.y (Node.init 3 3)).
Proof. apply get_distance_step. reflexivity. Defined.

(** ** Building the grid and the figure *)

(** X17: [GridNodes(width, height)] raises [ValueError] when a dimension
    is negative, and what numpy raises when it does not allocate the array;
    when it does, there are [width * height] nodes behind the objects that
    exist, which are left as they are. *)
Theorem GridNodes_init_spec (np_empty : Z → Z → option exn) (hp : heap) (w h : Z) :
  (w < 0 ∨ h < 0 → GridNodes_init np_empty hp w h = Raise ValueError)
  ∧ (0 ≤ w ∧ 0 ≤ h →
     (∀ e, np_empty w h = Some e → GridNodes_init np_empty hp w h = Raise e)
     ∧ (np_empty w h = None →
        ∃ hp' g, GridNodes_init np_empty hp w h = Ok (hp', g)
                 ∧ width g = w ∧ height g = h
                 ∧ length hp' = (length hp + Z.to_nat (w * h))%nat
                 ∧ ∀ r, (r < length hp)%nat → hp' !! r = hp !! r)).
Proof.
  unfold GridNodes_init. split.
  - intros Hneg. assert ((w <? 0) || (h <? 0) = true) as -> by lia. done.
  - intros [Hw Hh]. assert ((w <? 0) || (h <? 0) = false) as -> by lia. split.
    + by intros e ->.
    + intros ->.
      eexists _, _. split; [done|]. cbn [width height]. split; [done|]. split; [done|].
      split.
      * by rewrite length_app, GridNodes_alloc_length.
      * intros r Hr. by rewrite lookup_app_l.
Qed.

(** X18: the program raises [ValueError] for a negative dimension, and
    what numpy raises when it does not allocate the arrays.  When it does,
    and matplotlib builds the figure, the program comes to its idle state
    exactly when the coordinates of the start and of the end node are
    indices of the array of squares, negative indices down to [-width] and
    [-height] included; any other coordinate raises [IndexError]. *)
Theorem main_spec (np_empty : Z → Z → option exn) (w h : Z) (start goal : Z * Z) :
  (w < 0 ∨ h < 0 → main np_empty w h start goal = Raise ValueError)
  ∧ (0 ≤ w ∧ 0 ≤ h →
     (∀ e, np_empty w h = Some e → main np_empty w h start goal = Raise e)
     ∧ (np_empty w h = None →
        (squares_index w h start ∧ squares_index w h goal →
         main np_empty w h start goal = Ok (session w h start goal))
        ∧ (¬ (squares_index w h start ∧ squares_index w h goal) →
           main np_empty w h start goal = Raise IndexError))).
Proof.
  unfold main, GridNodes_init. split.
  - intros Hneg. assert ((w <? 0) || (h <? 0) = true) as -> by lia. done.
  - intros [Hw Hh]. assert ((w <? 0) || (h <? 0) = false) as -> by lia. split.
    { by intros e ->. }
    intros ->.
    cbn [res_bind app]. unfold A_Star_init, squares_index_ok.
    cbn [grid_nodes width height store].
    set (hp := GridNodes_alloc w h).
    assert (Hds : deref ((hp ++ [Node.init start.1 start.2])
                         ++ [Node.init goal.1 goal.2]) (length hp)
                  = Node.init start.1 start.2).
    { rewrite deref_app_l by (rewrite length_app; cbn [length]; lia).
      apply deref_app_new. }
    rewrite Hds, deref_app_new. cbn [Node.x Node.y Node.init].
    unfold squares_index. split; intros Hidx.
    + match goal with |- (if ?c then _ else _) = _ =>
        assert (c = true) as -> by lia end.
      unfold session. subst hp. rewrite <- app_assoc. cbn [app].
      rewrite length_app, GridNodes_alloc_length by lia. cbn [length].
      by rewrite Nat.add_1_r.
    + match goal with |- (if ?c then _ else _) = _ =>
        assert (c = false) as -> by lia end.
      done.
Qed.

(** ** Blocking and freeing squares *)

Lemma filter_ext_in {A} (P Q : A → Prop) `{∀ x, Decision (P x)} `{∀ x, Decision (Q x)}
    (l : list A) :
  (∀ a, a ∈ l → (P a ↔ Q a)) → filter P l = filter Q l.
Proof.
  induction l as [|a l IH]; intros Hpq; [done|].
  assert (Hl : filter P l = filter Q l).
  { apply IH. intros b Hb. apply Hpq. by right. }
  destruct (decide (P a)) as [Hp|Hp].
  - rewrite !filter_cons_True; [by rewrite Hl|by apply Hpq; [left|]|done].
  - rewrite !filter_cons_False; [done| |done].
    intros Hq. apply Hp, Hpq; [left|done].
Qed.

Lemma find_list_remove (f : ref → bool) (l : list ref) (x : ref) :
  find f l = Some x →
  ∃ l1 l2, l = l1 ++ x :: l2 ∧ f x = true ∧ (∀ a, a ∈ l1 → f a = false)
           ∧ list_remove x l = l1 ++ l2.
Proof.
  induction l as [|a l IH]; cbn [find list_remove]; [done|].
  destruct (f a) eqn:Ea.
  - intros [= ->]. exists [], l. rewrite Nat.eqb_refl.
    split; [done|]. split; [done|]. split; [|done].
    intros b Hb. by apply elem_of_nil in Hb.
  - intros (l1 & l2 & -> & Hx & Hl1 & Hrm)%IH.
    assert (Nat.eqb a x = false) as -> by (apply Nat.eqb_neq; intros ->; congruence).
    exists (a :: l1), l2. rewrite Hrm. split; [done|]. split; [done|]. split; [|done].
    intros b [->|Hb]%elem_of_cons; [done|by apply Hl1].
Qed.

Lemma find_None_all (f : ref → bool) (l : list ref) :
  find f l = None → ∀ a, a ∈ l → f a = false.
Proof.
  induction l as [|a l IH]; cbn [find]; intros Hf b Hb.
  - by apply elem_of_nil in Hb.
  - destruct (f a) eqn:Ea; [done|].
    apply elem_of_cons in Hb as [->|Hb]; [done|by apply IH].
Qed.

Lemma find_last (f : ref → bool) (l : list ref) (x : ref) :
  (∀ a, a ∈ l → f a = false) → f x = true →
  find f (l ++ [x]) = Some x ∧ list_remove x (l ++ [x]) = l.
Proof.
  intros Hl Hx. induction l as [|a l IH]; cbn [app find list_remove].
  - by rewrite Hx, Nat.eqb_refl.
  - rewrite (Hl a) by left.
    assert (Nat.eqb a x = false) as ->.
    { apply Nat.eqb_neq. intros ->. rewrite (Hl x) in Hx by left. done. }
    destruct IH as [-> ->]; [|done]. intros b Hb. apply Hl. by right.
Qed.

Lemma length_filter_nil {A} (P : A → Prop) `{∀ x, Decision (P x)} (l : list A) :
  (∀ a, a ∈ l → ¬ P a) → filter P l = [].
Proof.
  induction l as [|a l IH]; intros Hl; [done|].
  rewrite filter_cons_False by (apply Hl; left). apply IH.
  intros b Hb. apply Hl. by right.
Qed.

Lemma at_xy (hp : heap) (b : ref) (i j : Z) :
  (Node.x (deref hp b) =? i) && (Node.y (deref hp b) =? j) = true ↔ xy hp b = (i, j).
Proof.
  unfold xy. split.
  - intros [? ?]%andb_eqb_true. by f_equal.
  - intros [= -> ->]. by rewrite !Z.eqb_refl.
Qed.

Section Squares.
Context (w h : Z) (start goal : Z * Z) (self : A_Star).
Context (Hidle : idle_inv w h start goal self).

Lemma squares_index_ok_spec (i j : Z) :
  squares_index_ok self i j = true ↔ squares_index w h (i, j).
Proof.
  unfold squares_index_ok, squares_index. rewrite (idle_grid _ _ _ _ _ Hidle).
  cbn [width height fst snd]. lia.
Qed.

Lemma click_effect (i j : Z) :
  (i, j) ≠ start → (i, j) ≠ goal → squares_index w h (i, j) →
  ∃ self', _click_square self i j = Ok self'
           ∧ store self' = store self ++ [Node.init i j]
           ∧ bloc_nodes self' = bloc_nodes self ++ [length (store self)]
           ∧ bloc_count self' (i, j) = S (bloc_count self (i, j))
           ∧ ∀ p, p ≠ (i, j) → bloc_count self' p = bloc_count self p.
Proof.
  intros Hs Hg Hidx. unfold _click_square.
  rewrite (idle_deref_end _ _ _ _ _ Hidle), (idle_deref_start _ _ _ _ _ Hidle).
  cbn [Node.x Node.y Node.init].
  assert ((goal.1 =? i) && (goal.2 =? j) = false) as ->.
  { destruct ((goal.1 =? i) && (goal.2 =? j)) eqn:E; [|done].
    apply andb_eqb_true in E as [<- <-]. by destruct goal. }
  assert ((start.1 =? i) && (start.2 =? j) = false) as ->.
  { destruct ((start.1 =? i) && (start.2 =? j)) eqn:E; [|done].
    apply andb_eqb_true in E as [<- <-]. by destruct start. }
  rewrite (proj2 (squares_index_ok_spec i j) Hidx).
  eexists. split; [done|].
  cbn [store bloc_nodes set_bloc_nodes set_store]. split; [done|]. split; [done|].
  assert (Hold : ∀ p, filter (λ b, xy (store self ++ [Node.init i j]) b = p) (bloc_nodes self)
                      = filter (λ b, xy (store self) b = p) (bloc_nodes self)).
  { intros p. apply filter_ext_in. intros b Hb.
    destruct (idle_bloc _ _ _ _ _ Hidle b Hb) as [Hlt _].
    unfold xy. by rewrite deref_app_l by lia. }
  assert (Hnew : xy (store self ++ [Node.init i j]) (length (store self)) = (i, j)).
  { unfold xy. by rewrite deref_app_new. }
  unfold bloc_count. cbn [store bloc_nodes set_bloc_nodes set_store]. split.
  - rewrite filter_app, length_app, Hold, filter_cons_True by done.
    cbn [filter list_filter length]. lia.
  - intros p Hp. rewrite filter_app, length_app, Hold.
    rewrite filter_cons_False by (rewrite Hnew; by intros <-).
    cbn [filter list_filter length]. lia.
Qed.

Lemma unclick_effect (self' : A_Star) (i j : Z) :
  _unclick_square self i j = Ok self' →
  store self' = store self
  ∧ bloc_count self' (i, j) = pred (bloc_count self (i, j))
  ∧ ∀ p, p ≠ (i, j) → bloc_count self' p = bloc_count self p.
Proof.
  assert (Hzero : (i, j) = start ∨ (i, j) = goal ∨
                  (∀ b, b ∈ bloc_nodes self → xy (store self) b ≠ (i, j)) →
                  bloc_count self (i, j) = 0%nat).
  { intros Hc. unfold bloc_count. rewrite length_filter_nil; [done|].
    intros b Hb Heq. destruct (idle_bloc _ _ _ _ _ Hidle b Hb) as (_ & Hns & Hng).
    unfold xy in Heq. destruct Hc as [<-|[<-|Hc]]; [done|done|].
    by apply (Hc b Hb). }
  unfold _unclick_square.
  rewrite (idle_deref_end _ _ _ _ _ Hidle), (idle_deref_start _ _ _ _ _ Hidle).
  cbn [Node.x Node.y Node.init].
  destruct ((goal.1 =? i) && (goal.2 =? j)) eqn:Eg.
  { intros [= <-]. rewrite Hzero; [done|].
    apply andb_eqb_true in Eg as [<- <-]. right. left. by destruct goal. }
  destruct ((start.1 =? i) && (start.2 =? j)) eqn:Es.
  { intros [= <-]. rewrite Hzero; [done|].
    apply andb_eqb_true in Es as [<- <-]. left. by destruct start. }
  destruct (find _ (bloc_nodes self)) as [node|] eqn:Hf.
  - destruct (squares_index_ok self i j); [|done]. intros [= <-].
    apply find_list_remove in Hf as (l1 & l2 & Hl & Hnode & Hl1 & Hrm).
    apply at_xy in Hnode.
    unfold bloc_count. cbn [store bloc_nodes set_bloc_nodes]. rewrite Hrm, Hl.
    split; [done|]. split.
    + rewrite !filter_app, !length_app, filter_cons_True by done. cbn [length]. lia.
    + intros p Hp. rewrite !filter_app, !length_app, filter_cons_False; [done|].
      rewrite Hnode. by intros <-.
  - intros [= <-]. rewrite Hzero; [done|]. right. right.
    intros b Hb Heq%at_xy. by rewrite (find_None_all _ _ Hf b Hb) in Heq.
Qed.

(** Which node a right click takes out of the list. *)
Lemma unclick_which (self' : A_Star) (i j : Z) :
  _unclick_square self i j = Ok self' →
  (bloc_count self (i, j) = 0%nat ∧ bloc_nodes self' = bloc_nodes self)
  ∨ ∃ l1 node l2,
      bloc_nodes self = l1 ++ node :: l2
      ∧ xy (store self) node = (i, j)
      ∧ (∀ b, b ∈ l1 → xy (store self) b ≠ (i, j))
      ∧ bloc_nodes self' = l1 ++ l2.
Proof.
  assert (Hzero : (i, j) = start ∨ (i, j) = goal ∨
                  (∀ b, b ∈ bloc_nodes self → xy (store self) b ≠ (i, j)) →
                  bloc_count self (i, j) = 0%nat).
  { intros Hc. unfold bloc_count. rewrite length_filter_nil; [done|].
    intros b Hb Heq. destruct (idle_bloc _ _ _ _ _ Hidle b Hb) as (_ & Hns & Hng).
    unfold xy in Heq. destruct Hc as [<-|[<-|Hc]]; [done|done|].
    by apply (Hc b Hb). }
  unfold _unclick_square.
  rewrite (idle_deref_end _ _ _ _ _ Hidle), (idle_deref_start _ _ _ _ _ Hidle).
  cbn [Node.x Node.y Node.init].
  destruct ((goal.1 =? i) && (goal.2 =? j)) eqn:Eg.
  { intros [= <-]. left. split; [|done]. apply Hzero.
    apply andb_eqb_true in Eg as [<- <-]. right. left. by destruct goal. }
  destruct ((start.1 =? i) && (start.2 =? j)) eqn:Es.
  { intros [= <-]. left. split; [|done]. apply Hzero.
    apply andb_eqb_true in Es as [<- <-]. left. by destruct start. }
  destruct (find _ (bloc_nodes self)) as [node|] eqn:Hf.
  - destruct (squares_index_ok self i j); [|done]. intros [= <-]. right.
    apply find_list_remove in Hf as (l1 & l2 & Hl & Hnode & Hl1 & Hrm).
    apply at_xy in Hnode. exists l1, node, l2.
    split; [done|]. split; [done|]. split; [|done].
    intros b Hb Heq%at_xy. by rewrite (Hl1 b Hb) in Heq.
  - intros [= <-]. left. split; [|done]. apply Hzero. right. right.
    intros b Hb Heq%at_xy. by rewrite (find_None_all _ _ Hf b Hb) in Heq.
Qed.

Lemma unclick_Ok (node : ref) (i j : Z) :
  (i, j) ≠ start → (i, j) ≠ goal → squares_index w h (i, j) →
  find (λ b, (Node.x (deref (store self) b) =? i) && (Node.y (deref (store self) b) =? j))
       (bloc_nodes self) = Some node →
  _unclick_square self i j
  = Ok (set_bloc_nodes (list_remove node (bloc_nodes self)) self).
Proof.
  intros Hs Hg Hidx Hf. unfold _unclick_square.
  rewrite (idle_deref_end _ _ _ _ _ Hidle), (idle_deref_start _ _ _ _ _ Hidle).
  cbn [Node.x Node.y Node.init].
  assert ((goal.1 =? i) && (goal.2 =? j) = false) as ->.
  { destruct ((goal.1 =? i) && (goal.2 =? j)) eqn:E; [|done].
    apply andb_eqb_true in E as [<- <-]. by destruct goal. }
  assert ((start.1 =? i) && (start.2 =? j) = false) as ->.
  { destruct ((start.1 =? i) && (start.2 =? j)) eqn:E; [|done].
    apply andb_eqb_true in E as [<- <-]. by destruct start. }
  by rewrite Hf, (proj2 (squares_index_ok_spec i j) Hidx).
Qed.

End Squares.



(** X20: in an idle state a right click on a square takes away one of
    its blocked nodes, the first in the list, if it has any, and changes
    those of no other square: a square blocked by several clicks stays
    blocked until it has been freed as often.  The node that goes is the
    first of the list with the coordinates of the square; the others stay
    in their order. *)
Theorem unclick_removes_one (w h : Z) (start goal : Z * Z) (self self' : A_Star)
    (i j : Z) :
  idle_inv w h start goal self →
  _unclick_square self i j = Ok self' →
  store self' = store self
  ∧ bloc_count self' (i, j) = pred (bloc_count self (i, j))
  ∧ (∀ p, p ≠ (i, j) → bloc_count self' p = bloc_count self p)
  ∧ ((bloc_count self (i, j) = 0%nat ∧ bloc_nodes self' = bloc_nodes self)
     ∨ ∃ l1 node l2,
         bloc_nodes self = l1 ++ node :: l2
         ∧ xy (store self) node = (i, j)
         ∧ (∀ b, b ∈ l1 → xy (store self) b ≠ (i, j))
         ∧ bloc_nodes self' = l1 ++ l2).
Proof.
  intros Hidle Hu.
  destruct (unclick_effect w h start goal self Hidle self' i j Hu) as (Hst & Hn & Ho).
  split; [done|]. split; [done|]. split; [done|]. by eapply unclick_which.
Qed.

Lemma unclick_removes_one_witness :
  store (handle_mouse twice_blocked (right_click 0 1)) = store twice_blocked
  ∧ bloc_count (handle_mouse twice_blocked (right_click 0 1)) (0, 1)
    = pred (bloc_count twice_blocked (0, 1))
  ∧ (∀ p, p ≠ (0, 1) →
          bloc_count (handle_mouse twice_blocked (right_click 0 1)) p
          = bloc_count twice_blocked p)
  ∧ ((bloc_count twice_blocked (0, 1) = 0%nat
      ∧ bloc_nodes (handle_mouse twice_blocked (right_click 0 1))
        = bloc_nodes twice_blocked)
     ∨ ∃ l1 node l2,
         bloc_nodes twice_blocked = l1 ++ node :: l2
         ∧ xy (store twice_blocked) node = (0, 1)
         ∧ (∀ b, b ∈ l1 → xy (store twice_blocked) b ≠ (0, 1))
         ∧ bloc_nodes (handle_mouse twice_blocked (right_click 0 1)) = l1 ++ l2).
Proof.
  apply (unclick_removes_one 3 3 (0, 0) (0, 2)).
  - by do 3 apply handle_mouse_idle_inv; apply (main_idle_inv numpy64).
  - reflexivity.
Defined.

(** The first of the three blocked nodes of [twice_blocked], the older of
    the two of the square [(0, 1)], is the one a right click on that square
    takes away. *)
Lemma unclick_twice_blocked :
  bloc_nodes twice_blocked = [11; 12; 13]%nat
  ∧ xy (store twice_blocked) 11%nat = (0, 1)
  ∧ xy (store twice_blocked) 12%nat = (1, 1)
  ∧ xy (store twice_blocked) 13%nat = (0, 1)
  ∧ bloc_nodes (handle_mouse twice_blocked (right_click 0 1)) = [12; 13]%nat.
Proof. vm_compute. done. Qed.

Lemma filter_empty_none {A} (P : A → Prop) `{∀ x, Decision (P x)} (l : list A) (a : A) :
  length (filter P l) = 0%nat → a ∈ l → ¬ P a.
Proof.
  intros Hlen Ha Hp.
  assert (a ∈ filter P l) as Hin by (by apply list_elem_of_filter).
  destruct (filter P l); [by apply elem_of_nil in Hin|done].
Qed.

(** X21: in an idle state a left click on a square that is neither the
    start nor the end, followed by a right click on it, leaves every square
    with as many blocked nodes as before; if the square had none, the list
    of blocked nodes is the one before the two clicks. *)
Theorem click_then_unclick (w h : Z) (start goal : Z * Z) (self : A_Star) (i j : Z) :
  idle_inv w h start goal self → (i, j) ≠ start → (i, j) ≠ goal →
  squares_index w h (i, j) →
  ∃ s1 s2, _click_square self i j = Ok s1
           ∧ _unclick_square s1 i j = Ok s2
           ∧ (∀ p, bloc_count s2 p = bloc_count self p)
           ∧ (bloc_count self (i, j) = 0%nat → bloc_nodes s2 = bloc_nodes self).
Proof.
  intros Hidle Hs Hg Hidx.
  destruct (click_effect w h start goal self Hidle i j Hs Hg Hidx)
    as (s1 & Hc & Hst & Hbl & Hn & Ho).
  pose proof (click_idle_inv w h start goal self s1 i j Hidle Hc) as Hidle1.
  set (f := λ b, (Node.x (deref (store s1) b) =? i) && (Node.y (deref (store s1) b) =? j)).
  assert (Hnew : f (length (store self)) = true).
  { unfold f. rewrite Hst, deref_app_new. cbn [Node.x Node.y Node.init].
    by rewrite !Z.eqb_refl. }
  destruct (find f (bloc_nodes s1)) as [node|] eqn:Hf.
  2: { exfalso. rewrite (find_None_all f _ Hf (length (store self))) in Hnew; [done|].
       rewrite Hbl. apply elem_of_app. right. left. }
  pose proof (unclick_Ok w h start goal s1 Hidle1 node i j Hs Hg Hidx Hf) as Hu.
  destruct (unclick_effect w h start goal s1 Hidle1 _ i j Hu) as (_ & Hn2 & Ho2).
  eexists s1, _. split; [done|]. split; [exact Hu|]. split.
  - intros p. destruct (decide (p = (i, j))) as [->|Hp].
    + rewrite Hn2, Hn. done.
    + by rewrite Ho2, Ho.
  - intros Hzero. cbn [bloc_nodes set_bloc_nodes].
    assert (Hold : ∀ a, a ∈ bloc_nodes self → f a = false).
    { intros a Ha. destruct (f a) eqn:Efa; [|done]. apply at_xy in Efa.
      destruct (idle_bloc _ _ _ _ _ Hidle a Ha) as [Hlt _].
      exfalso. apply (filter_empty_none _ _ a Hzero Ha).
      rewrite <- Efa. unfold xy. by rewrite Hst, deref_app_l by lia. }
    rewrite Hbl in Hf |- *.
    destruct (find_last f (bloc_nodes self) (length (store self)) Hold Hnew) as [Hf' Hrm].
    rewrite Hf' in Hf. injection Hf as <-. done.
Qed.

Lemma click_then_unclick_witness :
  ∃ s1 s2, _click_square session15 5 5 = Ok s1
           ∧ _unclick_square s1 5 5 = Ok s2
           ∧ (∀ p, bloc_count s2 p = bloc_count session15 p)
           ∧ (bloc_count session15 (5, 5) = 0%nat → bloc_nodes s2 = bloc_nodes session15).
Proof.
  apply (click_then_unclick 15 15 (2, 2) (12, 12)).
  - by apply (main_idle_inv numpy64).
  - done.
  - done.
  - unfold squares_index. cbn [fst snd]. lia.
Defined.

(** ** The idle states *)

(** X22: whatever mouse events arrive before the space bar, the search has
    not begun: the open list and the closed set are empty, no iteration is
    counted and [A_started] is not set; and a blocked node is an object of
    its own, never one the grid holds, so that a cell is blocked by
    coordinates only. *)
Theorem idle_search_untouched (self : A_Star) :
  idle self →
  openList self = [] ∧ closedSet self = [] ∧ iter_ self = 0 ∧ A_started self = false
  ∧ ∀ b x y, b ∈ bloc_nodes self → get_node (grid_nodes self) x y ≠ Some b.
Proof.
  intros (w & h & start & goal & Hidle)%idle_idle_inv.
  split; [apply (idle_open _ _ _ _ _ Hidle)|].
  split; [apply (idle_closed _ _ _ _ _ Hidle)|].
  split; [apply (idle_iter _ _ _ _ _ Hidle)|].
  split; [apply (idle_started _ _ _ _ _ Hidle)|].
  intros b x y Hb [[Hx Hy] Heq]%get_node_Some.
  destruct (idle_bloc _ _ _ _ _ Hidle b Hb) as [Hlt _].
  rewrite (idle_grid _ _ _ _ _ Hidle) in Hx, Hy, Heq. cbn [width height grid] in *.
  pose proof (idle_w _ _ _ _ _ Hidle). pose proof (idle_h _ _ _ _ _ Hidle). nia.
Qed.

Lemma idle_search_untouched_witness :
  openList detour = [] ∧ closedSet detour = [] ∧ iter_ detour = 0
  ∧ A_started detour = false
  ∧ ∀ b x y, b ∈ bloc_nodes detour → get_node (grid_nodes detour) x y ≠ Some b.
Proof.
  apply idle_search_untouched. apply idle_mouse. by apply (idle_main numpy64 3 3 (0, 0) (0, 2)).
Defined.
